(** * fetchData: a shallow embedding of [src/fetchData.ts]

    The development follows the source file top to bottom: the two enums,
    the value universe of option bags (a store of JavaScript objects, since
    [optionsReducer] and the [deepmerge] package work on object references),
    [isObject], [optionsReducer], [constructURL], [internalFetch] and
    [createFetchData].  Platform services the source calls ([JSON.stringify],
    [Response.ok], the [deepmerge] package) are modelled next to their first
    use, each with a note on what is left out. *)

From Stdlib Require Import ZArith String Ascii List Bool Lia DecimalString.
From stdpp Require Import base list strings.

(** ** Strings

    JavaScript strings are modelled as [string]; the only character the
    source inspects is the slash, which is a single code unit in every
    encoding. *)

Module Str.

(** [s.startsWith("/")] *)
Definition startsWith_slash (s : string) : bool :=
  match s with
  | String c _ => Ascii.eqb c "/"
  | EmptyString => false
  end.

(** [s.replace(/^\//, "")]: the anchored pattern matches at most once. *)
Definition replace_leading_slash (s : string) : string :=
  match s with
  | String c rest => if Ascii.eqb c "/" then rest else s
  | EmptyString => s
  end.

(** [s.endsWith("/")] *)
Fixpoint endsWith_slash (s : string) : bool :=
  match s with
  | EmptyString => false
  | String c EmptyString => Ascii.eqb c "/"
  | String _ rest => endsWith_slash rest
  end.

(** Decimal rendering of an index or of an integer number. *)
Definition of_nat (n : nat) : string := NilZero.string_of_uint (Nat.to_uint n).

Definition of_Z (n : Z) : string := NilZero.string_of_int (Z.to_int n).

(** The characters of a string, each as a one-character string. *)
Fixpoint chars (s : string) : list string :=
  match s with
  | EmptyString => []
  | String c rest => String c EmptyString :: chars rest
  end.

Fixpoint join (sep : string) (parts : list string) : string :=
  match parts with
  | [] => EmptyString
  | [p] => p
  | p :: rest => p +:+ sep +:+ join sep rest
  end.

End Str.

(** ** The two enums *)

Inductive HTTPMethod := GET | PUT | POST | PATCH | DELETE.

Definition HTTPMethod_value (m : HTTPMethod) : string :=
  match m with
  | GET => "get"
  | PUT => "put"
  | POST => "post"
  | PATCH => "patch"
  | DELETE => "delete"
  end.

Inductive ResponseBodyType := JSON | BLOB | TEXT | FORM_DATA | ARRAY_BUFFER.

Definition ResponseBodyType_value (t : ResponseBodyType) : string :=
  match t with
  | JSON => "json"
  | BLOB => "blob"
  | TEXT => "text"
  | FORM_DATA => "formData"
  | ARRAY_BUFFER => "arrayBuffer"
  end.

(** [enumKeys(HTTPMethod)]: the keys of the enum object in declaration
    order; none of them is numeric, so the [Number.isNaN(+k)] filter keeps
    all five. *)
Definition enumKeys_HTTPMethod : list HTTPMethod := [GET; PUT; POST; PATCH; DELETE].

(** ** Values and the object store

    Option bags are JavaScript objects: [optionsReducer] assigns to their
    properties and [deepmerge] copies them, so objects live in a store and
    values refer to them by address.  Numbers are integers (no claim turns
    on fractions or NaN).  Functions (hooks) are opaque and identified by a
    number.  A property list keeps insertion order, which is the order of
    [Object.keys] and of spreading (the engine's reordering of integer-like
    keys is not modelled). *)

Abbreviation addr := nat (only parsing).

Inductive value :=
| VUndefined
| VNull
| VBool (b : bool)
| VNumber (n : Z)
| VString (s : string)
| VFunction (f : nat)
| VRef (a : addr).

Abbreviation props := (list (string * value)).

(** A plain object or an array carries own enumerable properties; a host
    object ([AbortController], [AbortSignal], [Date], [Headers], ...) has a
    class tag and internal slots that are not enumerable. *)
Inductive object :=
| OPlain (ps : props)
| OArray (es : list value)
| OHost (class : string) (slots : props).

Abbreviation heap := (list object).

Fixpoint get_prop (k : string) (ps : props) : option value :=
  match ps with
  | [] => None
  | (k', v) :: rest => if String.eqb k k' then Some v else get_prop k rest
  end.

(** Assignment [o[k] = v]: an existing key keeps its position. *)
Fixpoint set_prop (k : string) (v : value) (ps : props) : props :=
  match ps with
  | [] => [(k, v)]
  | (k', v') :: rest =>
      if String.eqb k k' then (k, v) :: rest else (k', v') :: set_prop k v rest
  end.

(** Object spread [{...dst, ...src}]: the properties of [src] are assigned
    in order onto a copy of [dst]. *)
Definition spread (dst src : props) : props :=
  fold_left (fun acc kv => set_prop (fst kv) (snd kv) acc) src dst.

(** Rest pattern [{ k1, ..., kn, ...rest }]. *)
Definition rest_props (taken : list string) (ps : props) : props :=
  List.filter (fun kv => negb (existsb (String.eqb (fst kv)) taken)) ps.

Definition index_props (es : list value) : props :=
  imap (fun i v => (Str.of_nat i, v)) es.

(** Own enumerable string-keyed properties of a value, as [Object.keys]
    and spreading see them. *)
Definition own_props (h : heap) (v : value) : props :=
  match v with
  | VRef a =>
      match h !! a with
      | Some (OPlain ps) => ps
      | Some (OArray es) => index_props es
      | _ => []
      end
  | VString s => index_props (map VString (Str.chars s))
  | _ => []
  end.

(** [v[k]] for an own enumerable key; [undefined] otherwise.  Members
    inherited from a prototype are not read by the source. *)
Definition member (h : heap) (v : value) (k : string) : value :=
  match get_prop k (own_props h v) with
  | Some x => x
  | None => VUndefined
  end.

(** Internal slot of a host object ([abortController.signal]). *)
Definition slot (h : heap) (v : value) (k : string) : value :=
  match v with
  | VRef a =>
      match h !! a with
      | Some (OHost _ slots) =>
          match get_prop k slots with Some x => x | None => VUndefined end
      | _ => VUndefined
      end
  | _ => VUndefined
  end.

Definition elements (h : heap) (v : value) : list value :=
  match v with
  | VRef a => match h !! a with Some (OArray es) => es | _ => [] end
  | _ => []
  end.

Definition typeof (v : value) : string :=
  match v with
  | VUndefined => "undefined"
  | VNull => "object"
  | VBool _ => "boolean"
  | VNumber _ => "number"
  | VString _ => "string"
  | VFunction _ => "function"
  | VRef _ => "object"
  end.

Definition is_null (v : value) : bool :=
  match v with VNull => true | _ => false end.

(** [ToBoolean]: the truthiness tested by [if (x)], [!x] and [x || y]. *)
Definition ToBoolean (v : value) : bool :=
  match v with
  | VUndefined | VNull => false
  | VBool b => b
  | VNumber n => negb (Z.eqb n 0)
  | VString s => negb (String.eqb s EmptyString)
  | VFunction _ | VRef _ => true
  end.

(** [const isObject = input => typeof input === "object" && input !== null] *)
Definition isObject (input : value) : bool :=
  String.eqb (typeof input) "object" && negb (is_null input).

Definition isArray (h : heap) (v : value) : bool :=
  match v with
  | VRef a => match h !! a with Some (OArray _) => true | _ => false end
  | _ => false
  end.

(** ** Requests, responses and what can be thrown *)

Inductive js_error := JsError (name message : string).

(** The platform response: [bodyAs t] is what the accessor named by [t]
    settles with ([json()] rejects with a [SyntaxError] on a body that is
    not JSON text). *)
Record Response := {
  response_status : Z;
  response_statusText : string;
  response_bodyAs : ResponseBodyType -> js_error + value
}.

(** [Response.ok], as the Fetch standard defines it. *)
Definition response_ok (r : Response) : bool :=
  (200 <=? response_status r)%Z && (response_status r <=? 299)%Z.

(** [new Request(url, init)]: the request representation keeps the URL and
    the members of [init] as they are when the constructor reads them. *)
Record Request := {
  request_url : string;
  request_init : props
}.

Inductive exception :=
| Native (e : js_error)
| Thrown (v : value)
| CommonHttpError (message : string) (code : Z) (response : Response)
    (request : Request) (context : string).

Definition TypeError (msg : string) : exception := Native (JsError "TypeError" msg).

(** ** Computations over the store *)

(** A computation over the store returns a value, throws, or stops for
    lack of fuel; the store outlives a throw. *)
Inductive outcome (A : Type) :=
| Ret (a : A) (h : heap)
| Exn (e : exception) (h : heap)
| NoFuel.

Arguments Ret {A} a h.
Arguments Exn {A} e h.
Arguments NoFuel {A}.

Definition M (A : Type) := heap -> outcome A.

Definition ret {A} (a : A) : M A := fun h => Ret a h.

Definition bind {A B} (m : M A) (f : A -> M B) : M B :=
  fun h =>
    match m h with
    | Ret a h' => f a h'
    | Exn e h' => Exn e h'
    | NoFuel => NoFuel
    end.

Notation "'let*' x ':=' m 'in' k" := (bind m (fun x => k))
  (at level 10, x name, m at level 100, k at level 200).
Notation "'run' m 'then' k" := (bind m (fun _ => k))
  (at level 10, m at level 100, k at level 200).

Definition throw {A} (e : exception) : M A := fun h => Exn e h.

Definition get_heap : M heap := fun h => Ret h h.

Definition alloc (o : object) : M addr := fun h => Ret (length h) (h ++ [o]).

(** [o[k] = v] on the plain object at [a]. *)
Definition write_prop (a : addr) (k : string) (v : value) : M unit :=
  fun h =>
    match h !! a with
    | Some (OPlain ps) => Ret tt (<[a := OPlain (set_prop k v ps)]> h)
    | _ => Ret tt h
    end.

(** Property access [v.k] that throws on [undefined] and [null]. *)
Definition get_member (v : value) (k : string) : M value :=
  match v with
  | VUndefined | VNull => throw (TypeError "Cannot read properties of undefined or null")
  | _ => let* h := get_heap in ret (member h v k)
  end.

(** ** [JSON.stringify]

    The platform serializer, for the values of this store: [undefined] and
    functions have no serialization ([JSON.stringify] returns [undefined] for
    them, drops them from objects and writes [null] for them in arrays), a
    cycle raises a [TypeError].  [toJSON] methods and the indentation
    arguments are not modelled; a host object serializes like an object
    without properties. *)

Module Json.

Definition dquote : ascii := ascii_of_nat 34.

Definition backslash : ascii := ascii_of_nat 92.

Definition hex_digit (n : nat) : ascii :=
  nth n ["0"; "1"; "2"; "3"; "4"; "5"; "6"; "7"; "8"; "9";
         "a"; "b"; "c"; "d"; "e"; "f"]%char "0"%char.

Definition escape (c : ascii) : string :=
  let n := nat_of_ascii c in
  if Nat.eqb n 34 then String backslash (String dquote EmptyString)
  else if Nat.eqb n 92 then String backslash (String backslash EmptyString)
  else if Nat.eqb n 8 then String backslash "b"
  else if Nat.eqb n 9 then String backslash "t"
  else if Nat.eqb n 10 then String backslash "n"
  else if Nat.eqb n 12 then String backslash "f"
  else if Nat.eqb n 13 then String backslash "r"
  else if Nat.ltb n 32 then
    String backslash
      ("u00" +:+ String (hex_digit (n / 16)) (String (hex_digit (n mod 16)) EmptyString))
  else String c EmptyString.

Fixpoint escape_all (s : string) : string :=
  match s with
  | EmptyString => EmptyString
  | String c rest => escape c +:+ escape_all rest
  end.

(** [QuoteJSONString] *)
Definition quote (s : string) : string :=
  String dquote (escape_all s +:+ String dquote EmptyString).

Section Composite.

(** The serializer to apply to each element or field. *)
Variable serialize : value -> exception + option string.

(** [SerializeJSONArray]: an element without serialization is [null]. *)
Fixpoint items (es : list value) : exception + list string :=
  match es with
  | [] => inr []
  | e :: es =>
      match serialize e with
      | inl x => inl x
      | inr o =>
          match items es with
          | inl x => inl x
          | inr l => inr (match o with Some s => s | None => "null" end :: l)
          end
      end
  end.

(** [SerializeJSONObject]: a field without serialization is left out. *)
Fixpoint fields (ps : props) : exception + list string :=
  match ps with
  | [] => inr []
  | (k, e) :: ps =>
      match serialize e with
      | inl x => inl x
      | inr o =>
          match fields ps with
          | inl x => inl x
          | inr l =>
              inr (match o with
                   | Some s => (quote k +:+ ":" +:+ s) :: l
                   | None => l
                   end)
          end
      end
  end.

End Composite.

(** [SerializeJSONProperty]: [inr None] stands for [undefined].  [stack]
    holds the objects being serialized, as in the standard's cycle check;
    [depth] bounds the nesting and is never exhausted when it starts above
    the number of objects in the store. *)
Fixpoint serialize (depth : nat) (stack : list addr) (h : heap) (v : value)
  : exception + option string :=
  match v with
  | VUndefined | VFunction _ => inr None
  | VNull => inr (Some "null")
  | VBool b => inr (Some (if b then "true" else "false"))
  | VNumber n => inr (Some (Str.of_Z n))
  | VString s => inr (Some (quote s))
  | VRef a =>
      if existsb (Nat.eqb a) stack
      then inl (TypeError "Converting circular structure to JSON")
      else
        match depth with
        | O => inl (Native (JsError "RangeError" "Maximum call stack size exceeded"))
        | S depth =>
            match h !! a with
            | Some (OArray es) =>
                match items (serialize depth (a :: stack) h) es with
                | inl x => inl x
                | inr l => inr (Some ("[" +:+ Str.join "," l +:+ "]"))
                end
            | Some (OPlain ps) =>
                match fields (serialize depth (a :: stack) h) ps with
                | inl x => inl x
                | inr l => inr (Some ("{" +:+ Str.join "," l +:+ "}"))
                end
            | _ => inr (Some "{}")
            end
        end
  end.

Definition stringify (v : value) : M value :=
  fun h =>
    match serialize (S (length h)) [] h v with
    | inl x => Exn x h
    | inr (Some s) => Ret (VString s) h
    | inr None => Ret VUndefined h
    end.

End Json.

(** ** [optionsReducer] *)

Definition DEFAULT_EXPECTED_DATA_TYPE : string := "json".

Definition CONTENT_TYPE_HEADER : props :=
  [("Content-Type", VString "application/json;charset=utf-8")].

(** [Object.keys(CONTENT_TYPE_HEADER)[0]] *)
Definition CONTENT_TYPE_HEADER_TITLE : string :=
  match map fst CONTENT_TYPE_HEADER with
  | k :: _ => k
  | [] => "undefined"
  end.

(** [httpMethod === POST || httpMethod === PUT || httpMethod === PATCH] *)
Definition sends_body (httpMethod : HTTPMethod) : bool :=
  match httpMethod with
  | POST | PUT | PATCH => true
  | GET | DELETE => false
  end.

(** [options] is the address of the bag being reduced.  The bag is updated
    in place and returned.  [options.headers?.[title]] is [undefined] on a
    missing [headers]; [options.headers || {}] spreads nothing when
    [headers] is falsy. *)
Definition optionsReducer (options : addr) (httpMethod : HTTPMethod) : M value :=
  run
    (if sends_body httpMethod then
       let* h := get_heap in
       let body := member h (VRef options) "body" in
       let headers := member h (VRef options) "headers" in
       run
         (if isObject body
             && negb (ToBoolean (member h headers CONTENT_TYPE_HEADER_TITLE))
          then
            let* fresh :=
              alloc (OPlain (spread
                               (spread [] (if ToBoolean headers
                                           then own_props h headers else []))
                               CONTENT_TYPE_HEADER)) in
            write_prop options "headers" (VRef fresh)
          else ret tt)
       then
         let* h := get_heap in
         let body := member h (VRef options) "body" in
         if ToBoolean body then
           let* text := Json.stringify body in
           write_prop options "body" text
         else ret tt
     else ret tt)
  then ret (VRef options).

(** ** [constructURL]

    [urlPrefix] is an optional string ([urlPrefix?: string]): [None] is
    [undefined].  The guard [!urlPrefix] is true for [undefined] and for the
    empty string. *)

Definition constructURL (url : string) (urlPrefix : option string) : string :=
  match urlPrefix with
  | None => url
  | Some EmptyString => url
  | Some prefix =>
      let resultURL :=
        if Str.startsWith_slash url then Str.replace_leading_slash url else url in
      let resultURLPrefix :=
        if negb (Str.endsWith_slash prefix) then prefix +:+ "/" else prefix in
      resultURLPrefix +:+ resultURL
  end.

(** The [urlPrefix] member of an option bag, read at its declared type.  A
    falsy value of another type takes the [!urlPrefix] exit like
    [undefined]; a truthy one has no [endsWith] method. *)
Definition constructURL_of (url : string) (urlPrefix : value) : M string :=
  match urlPrefix with
  | VUndefined => ret (constructURL url None)
  | VString prefix => ret (constructURL url (Some prefix))
  | _ =>
      if ToBoolean urlPrefix
      then throw (TypeError "urlPrefix.endsWith is not a function")
      else ret (constructURL url None)
  end.

(** ** The [deepmerge] package

    [createFetchData] merges the client defaults with the per-call options
    through [deepmerge(defaultOptions, options)] with the package's default
    settings (version 4): arrays are concatenated, mergeable objects are
    merged key by key into a fresh object, every mergeable value that is kept
    is cloned, and a key that the target only inherits is skipped.  Symbol
    keys are not modelled; the inherited members are those of
    [Object.prototype]. *)

Module Deepmerge.

(** [isMergeableObject]: a non-null object that is neither a [RegExp] nor
    a [Date]. *)
Definition isSpecial (h : heap) (v : value) : bool :=
  match v with
  | VRef a =>
      match h !! a with
      | Some (OHost class _) => String.eqb class "RegExp" || String.eqb class "Date"
      | _ => false
      end
  | _ => false
  end.

Definition isMergeableObject (h : heap) (v : value) : bool :=
  isObject v && negb (isSpecial h v).

Definition Object_prototype_members : list string :=
  ["constructor"; "__defineGetter__"; "__defineSetter__"; "hasOwnProperty";
   "__lookupGetter__"; "__lookupSetter__"; "isPrototypeOf";
   "propertyIsEnumerable"; "toString"; "valueOf"; "__proto__";
   "toLocaleString"].

Definition hasOwnEnumerable (h : heap) (v : value) (k : string) : bool :=
  match get_prop k (own_props h v) with
  | Some _ => true
  | None => false
  end.

(** [property in object], with the [TypeError] on a primitive caught. *)
Definition propertyIsOnObject (h : heap) (object : value) (property : string) : bool :=
  match object with
  | VRef _ | VFunction _ =>
      hasOwnEnumerable h object property
      || existsb (String.eqb property) Object_prototype_members
  | _ => false
  end.

Definition propertyIsUnsafe (h : heap) (target : value) (key : string) : bool :=
  propertyIsOnObject h target key && negb (hasOwnEnumerable h target key).

(** [Object.keys(v)] *)
Definition getKeys (v : value) : M (list string) :=
  match v with
  | VUndefined | VNull => throw (TypeError "Cannot convert undefined or null to object")
  | _ => let* h := get_heap in ret (map fst (own_props h v))
  end.

(** [Array.isArray(val) ? [] : {}] *)
Definition emptyTarget (val : value) : M value :=
  let* h := get_heap in
  let* a := alloc (if isArray h val then OArray [] else OPlain []) in
  ret (VRef a).

Section WithRecursiveCall.

(** [deepmerge] itself, one level further down. *)
Variable deepmerge : value -> value -> M value.

Definition cloneUnlessOtherwiseSpecified (v : value) : M value :=
  let* h := get_heap in
  if isMergeableObject h v then
    let* t := emptyTarget v in
    deepmerge t v
  else ret v.

Fixpoint cloneAll (es : list value) : M (list value) :=
  match es with
  | [] => ret []
  | e :: es =>
      let* v := cloneUnlessOtherwiseSpecified e in
      let* vs := cloneAll es in
      ret (v :: vs)
  end.

(** [target.concat(source).map(element => clone(element))] *)
Definition defaultArrayMerge (target source : value) : M value :=
  let* h := get_heap in
  let* vs := cloneAll (elements h target ++ elements h source) in
  let* a := alloc (OArray vs) in
  ret (VRef a).

(** First loop of [mergeObject]: [destination[key] = clone(target[key])]. *)
Fixpoint copyTargetKeys (destination : addr) (target : value) (keys : list string)
  : M unit :=
  match keys with
  | [] => ret tt
  | key :: keys =>
      let* h := get_heap in
      let* v := cloneUnlessOtherwiseSpecified (member h target key) in
      run write_prop destination key v
      then copyTargetKeys destination target keys
  end.

(** Second loop of [mergeObject], over the keys of [source]. *)
Fixpoint mergeSourceKeys (destination : addr) (target source : value)
  (keys : list string) : M unit :=
  match keys with
  | [] => ret tt
  | key :: keys =>
      let* h := get_heap in
      run
        (if propertyIsUnsafe h target key then ret tt
         else if propertyIsOnObject h target key
                 && isMergeableObject h (member h source key)
         then
           let* v := deepmerge (member h target key) (member h source key) in
           write_prop destination key v
         else
           let* v := cloneUnlessOtherwiseSpecified (member h source key) in
           write_prop destination key v)
      then mergeSourceKeys destination target source keys
  end.

Definition mergeObject (target source : value) : M value :=
  let* destination := alloc (OPlain []) in
  let* h := get_heap in
  run
    (if isMergeableObject h target then
       let* keys := getKeys target in
       copyTargetKeys destination target keys
     else ret tt)
  then
    let* keys := getKeys source in
    run mergeSourceKeys destination target source keys
    then ret (VRef destination).

End WithRecursiveCall.

(** [fuel] bounds the depth of the recursion, which follows the nesting of
    the merged values. *)
Fixpoint deepmerge (fuel : nat) (target source : value) : M value :=
  match fuel with
  | O => fun _ => NoFuel
  | S fuel =>
      let* h := get_heap in
      let sourceIsArray := isArray h source in
      let targetIsArray := isArray h target in
      let sourceAndTargetTypesMatch := Bool.eqb sourceIsArray targetIsArray in
      if negb sourceAndTargetTypesMatch then
        cloneUnlessOtherwiseSpecified (deepmerge fuel) source
      else if sourceIsArray then
        defaultArrayMerge (deepmerge fuel) target source
      else mergeObject (deepmerge fuel) target source
  end.

End Deepmerge.

(** ** Hooks and the transport

    A hook is a caller's function: all the model keeps of a call is whether
    it returns or throws.  [fetch] is the transport: the promise it returns
    either settles with a response or rejects (network failure, abort). *)

Inductive hook_argument :=
| OfRequest (request : Request)
| OfResponse (response : Response).

Inductive settled (A : Type) :=
| Resolved (a : A)
| Rejected (e : exception).

Arguments Resolved {A} a.
Arguments Rejected {A} e.

Record World := {
  call_hook : nat -> hook_argument -> option exception;
  fetch : Request -> settled Response
}.

(** The body of [for (const hook of hooks) { hook(argument); }] once the
    elements are known. *)
Fixpoint call_each (w : World) (hooks : list value) (argument : hook_argument)
  : option exception :=
  match hooks with
  | [] => None
  | hook :: hooks =>
      match hook with
      | VFunction f =>
          match call_hook w f argument with
          | Some e => Some e
          | None => call_each w hooks argument
          end
      | _ => Some (TypeError "hook is not a function")
      end
  end.

(** [for ... of] over a value: arrays and strings are iterable. *)
Definition iterate (h : heap) (v : value) : exception + list value :=
  match v with
  | VString s => inr (map VString (Str.chars s))
  | VRef a =>
      match h !! a with
      | Some (OArray es) => inr es
      | _ => inl (TypeError "hooks is not iterable")
      end
  | _ => inl (TypeError "hooks is not iterable")
  end.

Definition runBeforeRequestHooks (w : World) (h : heap) (hooks : value)
  (request : Request) : option exception :=
  match iterate h hooks with
  | inl e => Some e
  | inr hs => call_each w hs (OfRequest request)
  end.

Definition runAfterResponseHooks (w : World) (h : heap) (hooks : value)
  (response : Response) : option exception :=
  match iterate h hooks with
  | inl e => Some e
  | inr hs => call_each w hs (OfResponse response)
  end.

(** ** [internalFetch] *)

Record FetchDataResponse := {
  cancel : addr;
  status : Z;
  statusText : string;
  data : value
}.

(** What [internalFetch] returns: the cancel handle (the controller it
    aborts) and the pending promise, kept as the state its body closes
    over. *)
Record PendingCall := {
  cancelRequest : addr;
  pending_request : Request;
  pending_hooks : value;
  pending_type : value
}.

(** The accessor [response[expectedDataType]]. *)
Definition body_accessor (name : value) : option ResponseBodyType :=
  match name with
  | VString s =>
      find (fun t => String.eqb s (ResponseBodyType_value t))
        [JSON; BLOB; TEXT; FORM_DATA; ARRAY_BUFFER]
  | _ => None
  end.

(** The synchronous part of [internalFetch], up to the [return]. *)
Definition internalFetch (w : World) (url : string) (originalOptions : value)
  (httpMethod : HTTPMethod) : M PendingCall :=
  let* h := get_heap in
  let type := member h originalOptions "type" in
  let urlPrefix := member h originalOptions "urlPrefix" in
  let* hooks :=
    match member h originalOptions "hooks" with
    | VUndefined => let* a := alloc (OPlain []) in ret (VRef a)
    | given => ret given
    end in
  let* options :=
    alloc (OPlain (rest_props ["type"; "urlPrefix"; "hooks"]
                     (own_props h originalOptions))) in
  let* resultURL := constructURL_of url urlPrefix in
  let* signal := alloc (OHost "AbortSignal" []) in
  let* abortController := alloc (OHost "AbortController" [("signal", VRef signal)]) in
  let* h := get_heap in
  let* init :=
    alloc (OPlain (spread (spread [] (own_props h (VRef options)))
                     [("signal", slot h (VRef abortController) "signal")])) in
  let* reduced := optionsReducer init httpMethod in
  let* h := get_heap in
  let request := {| request_url := resultURL; request_init := own_props h reduced |} in
  let* beforeRequest := get_member hooks "beforeRequest" in
  run
    (if ToBoolean beforeRequest then
       match runBeforeRequestHooks w h beforeRequest request with
       | Some e => throw e
       | None => ret tt
       end
     else ret tt)
  then
    ret {| cancelRequest := abortController;
           pending_request := request;
           pending_hooks := hooks;
           pending_type := type |}.

(** The body of the [async] function: how the promise [request] settles,
    read in the store [h] the call left. *)
Definition request (w : World) (h : heap) (p : PendingCall)
  : settled FetchDataResponse :=
  match fetch w (pending_request p) with
  | Rejected e => Rejected e
  | Resolved response =>
      let afterResponse := member h (pending_hooks p) "afterResponse" in
      match
        (if ToBoolean afterResponse
         then runAfterResponseHooks w h afterResponse response
         else None)
      with
      | Some e => Rejected e
      | None =>
          if negb (response_ok response) then
            Rejected (CommonHttpError "Request is not resolved successfully"
                        (response_status response) response (pending_request p)
                        "@j.u.p.iter/fetch-data")
          else
            let expectedDataType :=
              if ToBoolean (pending_type p) then pending_type p
              else VString DEFAULT_EXPECTED_DATA_TYPE in
            match body_accessor expectedDataType with
            | None => Rejected (TypeError "response[expectedDataType] is not a function")
            | Some t =>
                match response_bodyAs response t with
                | inl e => Rejected (Native e)
                | inr responseData =>
                    Resolved {| status := response_status response;
                                statusText := response_statusText response;
                                data := responseData;
                                cancel := cancelRequest p |}
                end
            end
      end
  end.

(** ** [createFetchData] *)

(** One entry of the method table: the closure built for [httpMethod],
    which captures [defaultOptions]. *)
Record Shortcut := {
  bound_defaultOptions : value;
  bound_httpMethod : HTTPMethod
}.

Definition FetchData := list (string * Shortcut).

(** Calling a shortcut: [options] defaults to a fresh [{}]. *)
Definition call_shortcut (w : World) (fuel : nat) (s : Shortcut) (url : string)
  (options : value) : M PendingCall :=
  let* options :=
    match options with
    | VUndefined => let* a := alloc (OPlain []) in ret (VRef a)
    | given => ret given
    end in
  let* mergedOptions := Deepmerge.deepmerge fuel (bound_defaultOptions s) options in
  let* h := get_heap in
  let* withMethod :=
    alloc (OPlain (spread [("method", VString (HTTPMethod_value (bound_httpMethod s)))]
                     (own_props h mergedOptions))) in
  internalFetch w url (VRef withMethod) (bound_httpMethod s).

Fixpoint set_entry (k : string) (s : Shortcut) (t : FetchData) : FetchData :=
  match t with
  | [] => [(k, s)]
  | (k', s') :: rest =>
      if String.eqb k k' then (k, s) :: rest else (k', s') :: set_entry k s rest
  end.

Fixpoint get_entry (k : string) (t : FetchData) : option Shortcut :=
  match t with
  | [] => None
  | (k', s) :: rest => if String.eqb k k' then Some s else get_entry k rest
  end.

(** [defaultOptions] defaults to a fresh [{}]; the reduce assigns one
    closure per enum key under the enum's value. *)
Definition createFetchData (defaultOptions : value) : M FetchData :=
  let* defaultOptions :=
    match defaultOptions with
    | VUndefined => let* a := alloc (OPlain []) in ret (VRef a)
    | given => ret given
    end in
  ret (fold_left
         (fun resultFetchData httpMethod =>
            set_entry (HTTPMethod_value httpMethod)
              {| bound_defaultOptions := defaultOptions;
                 bound_httpMethod := httpMethod |}
              resultFetchData)
         enumKeys_HTTPMethod []).

(** [client.name(url, options)] *)
Definition call_method (w : World) (fuel : nat) (client : FetchData) (name : string)
  (url : string) (options : value) : M PendingCall :=
  match get_entry name client with
  | Some s => call_shortcut w fuel s url options
  | None => throw (TypeError "client[name] is not a function")
  end.

(** [export const fetchData = createFetchData()] *)
Definition fetchData : M FetchData := createFetchData VUndefined.

(** ** Well-formed stores

    A store built by a JavaScript program has no dangling reference, and a
    value it can print as JSON is a finite tree: [bounded n h v] says that
    the objects under [v] nest at most [n] deep. *)

Definition valid (h : heap) (v : value) : bool :=
  match v with
  | VRef a => a <? length h
  | _ => true
  end.

Definition children (o : object) : list value :=
  match o with
  | OPlain ps => map snd ps
  | OArray es => es
  | OHost _ slots => map snd slots
  end.

Definition wf_heap (h : heap) : bool :=
  forallb (fun o => forallb (valid h) (children o)) h.

Fixpoint bounded (n : nat) (h : heap) (v : value) : bool :=
  match v with
  | VRef a =>
      match n with
      | O => false
      | S n =>
          match h !! a with
          | Some (OPlain ps) => forallb (fun kv => bounded n h (snd kv)) ps
          | Some (OArray es) => forallb (bounded n h) es
          | Some (OHost _ _) => true
          | None => false
          end
      end
  | _ => true
  end.

(** [h'] keeps every object of [h] as it is. *)
Definition preserved (h h' : heap) : Prop :=
  forall a o, h !! a = Some o -> h' !! a = Some o.

(** [h'] keeps every object of [h] except possibly the one at [d]. *)
Definition preserved_but (d : addr) (h h' : heap) : Prop :=
  forall a o, a <> d -> h !! a = Some o -> h' !! a = Some o.

(** A computation that only adds objects to the store. *)
Definition frames {A} (m : M A) : Prop :=
  forall h a h', m h = Ret a h' -> preserved h h'.

(** A computation whose final store, whether it returns or throws, is
    related by [R] to the store it started in. *)
Definition keeps (R : heap -> heap -> Prop) {A} (m : M A) : Prop :=
  forall h,
    match m h with
    | Ret _ h' => R h h'
    | Exn _ h' => R h h'
    | NoFuel => True
    end.

(** A computation that returns when run in [h]: it neither throws nor
    stops for lack of fuel. *)
Definition finishes {A} (m : M A) (h : heap) : Prop :=
  exists a h', m h = Ret a h'.

(** [v] was returned by [m], run in a store that extends [h0] and holds
    the destination [d]; what [m] built is still there in [hN]. *)
Definition made (m : M value) (d : addr) (h0 hN : heap) (v : value) : Prop :=
  exists ha hb,
    preserved h0 ha /\ d < length ha /\ m ha = Ret v hb /\ preserved_but d hb hN.

(** The value the second loop of [mergeObject] assigns under [k]: the
    merge of the two members when the target has the key and the source's
    member is mergeable, a clone of the source's member otherwise. *)
Definition assigned (rec : value -> value -> M value) (h0 : heap) (d : addr)
  (t s : value) (k : string) (hN : heap) (v : value) : Prop :=
  if Deepmerge.propertyIsOnObject h0 t k
     && Deepmerge.isMergeableObject h0 (member h0 s k)
  then made (rec (member h0 t k) (member h0 s k)) d h0 hN v
  else made (Deepmerge.cloneUnlessOtherwiseSpecified rec (member h0 s k)) d h0 hN v.

(** What a merged bag [psm] holds, given the default bag [psd] and the
    call's bag [pss]: a value of the call that is not an object wins, a
    value only the defaults have is kept, and a key neither has is absent.
    [safe k] says that the merge does not skip [k]. *)
Definition flat_merge (safe : string -> Prop) (psd pss psm : props) : Prop :=
  (forall k v, get_prop k pss = Some v -> isObject v = false -> safe k ->
               get_prop k psm = Some v) /\
  (forall k v, get_prop k pss = None -> get_prop k psd = Some v ->
               isObject v = false -> get_prop k psm = Some v) /\
  (forall k, get_prop k pss = None -> get_prop k psd = None ->
             get_prop k psm = None).

(** A computation that never stops for lack of fuel. *)
Definition fueled {A} (m : M A) : Prop := forall h, m h <> NoFuel.

(** ** Sample stores and worlds

    The inputs of the examples, taken from the repository's tests where a
    test exists. *)

Module Sample.

Definition response (code : Z) (text : string) (bodyAs : ResponseBodyType -> js_error + value)
  : Response :=
  {| response_status := code; response_statusText := text; response_bodyAs := bodyAs |}.

(** No hook throws; the server answers [200] with a JSON body [null]. *)
Definition quiet : World :=
  {| call_hook := fun _ _ => None;
     fetch := fun _ => Resolved (response 200 "OK" (fun _ => inr VNull)) |}.

(** The server answers [401]; hook [7] throws the string [redirect]. *)
Definition unauthorized : Response :=
  response 401 "Unauthorized" (fun _ => inr VNull).

Definition throwing : World :=
  {| call_hook := fun f _ => if Nat.eqb f 7 then Some (Thrown (VString "redirect")) else None;
     fetch := fun _ => Resolved unauthorized |}.

(** The server answers [200] with the text [Hello!], which [json()]
    cannot parse. *)
Definition hello : Response :=
  response 200 "OK"
    (fun t =>
       match t with
       | TEXT => inr (VString "Hello!")
       | JSON => inl (JsError "SyntaxError" "Unexpected token H in JSON at position 0")
       | _ => inr VNull
       end).

Definition greeting : World :=
  {| call_hook := fun _ _ => None; fetch := fun _ => Resolved hello |}.

Definition shortcut (defaultOptions : addr) (httpMethod : HTTPMethod) : Shortcut :=
  {| bound_defaultOptions := VRef defaultOptions; bound_httpMethod := httpMethod |}.

(** [defaults = {}], [options = { searchParams: { q: "hello", m: "value" } }] *)
Definition search_store : heap :=
  [OPlain [];
   OPlain [("searchParams", VRef 2)];
   OPlain [("q", VString "hello"); ("m", VString "value")]].

(** [defaults = {}], [options = { body: "hello" }] *)
Definition text_store : heap :=
  [OPlain []; OPlain [("body", VString "hello")]].

(** [options = { body: { title: "new title" } }] *)
Definition put_store : heap :=
  [OPlain [("body", VRef 1)]; OPlain [("title", VString "new title")]].

(** [defaults = {}], [options = { method: "post" }] *)
Definition method_store : heap :=
  [OPlain []; OPlain [("method", VString "post")]].

(** [defaults = {}], [options = { headers: { Authentication: "secret" } }] *)
Definition headers_store : heap :=
  [OPlain [];
   OPlain [("headers", VRef 2)];
   OPlain [("Authentication", VString "secret")]].

(** [defaults = {}], [options = { hooks: { afterResponse: [hook7] } }] *)
Definition hook_store : heap :=
  [OPlain [];
   OPlain [("hooks", VRef 2)];
   OPlain [("afterResponse", VRef 3)];
   OArray [VFunction 7]].

(** [defaults = {}], [options = {}] *)
Definition empty_store : heap := [OPlain []; OPlain []].

(** [defaults = {}], [options = { body: { title: "new title" } }] *)
Definition put_call_store : heap :=
  [OPlain []; OPlain [("body", VRef 2)]; OPlain [("title", VString "new title")]].

(** [defaults = { urlPrefix: "http://site.com" }], [options = {}] *)
Definition prefix_store : heap :=
  [OPlain [("urlPrefix", VString "http://site.com")]; OPlain []].

(** The server answers [400]. *)
Definition bad_request : Response := response 400 "Bad Request" (fun _ => inr VNull).

Definition refusing : World :=
  {| call_hook := fun _ _ => None; fetch := fun _ => Resolved bad_request |}.

(** [defaults = { urlPrefix: "http://site.com", headers: { Accept: "a" },
                  hooks: { beforeRequest: [hook1] } }],
    [options = { headers: { Authentication: "secret" },
                 hooks: { beforeRequest: [hook2] } }] *)
Definition client_store : heap :=
  [OPlain [("urlPrefix", VString "http://site.com"); ("headers", VRef 1);
           ("hooks", VRef 2)];
   OPlain [("Accept", VString "a")];
   OPlain [("beforeRequest", VRef 3)];
   OArray [VFunction 1];
   OPlain [("headers", VRef 5); ("hooks", VRef 6)];
   OPlain [("Authentication", VString "secret")];
   OPlain [("beforeRequest", VRef 7)];
   OArray [VFunction 2]].

End Sample.

(** ** Parts of the definitions above, named for the proofs *)

(** The two locals of [constructURL] once the prefix is known to be
    non-empty. *)
Definition resultURL (url : string) : string :=
  if Str.startsWith_slash url then Str.replace_leading_slash url else url.

Definition resultURLPrefix (urlPrefix : string) : string :=
  if negb (Str.endsWith_slash urlPrefix) then urlPrefix +:+ "/" else urlPrefix.

(** [internalFetch] from [new Request(...)] on: [init] is the object
    literal [{ ...options, signal }], [hooks] and [type] are the
    destructured locals, [abortController] is the controller. *)
Definition dispatch (w : World) (resultURL : string) (hooks type : value)
  (abortController init : addr) (httpMethod : HTTPMethod) : M PendingCall :=
  let* reduced := optionsReducer init httpMethod in
  let* h := get_heap in
  let request := {| request_url := resultURL; request_init := own_props h reduced |} in
  let* beforeRequest := get_member hooks "beforeRequest" in
  run
    (if ToBoolean beforeRequest then
       match runBeforeRequestHooks w h beforeRequest request with
       | Some e => throw e
       | None => ret tt
       end
     else ret tt)
  then
    ret {| cancelRequest := abortController;
           pending_request := request;
           pending_hooks := hooks;
           pending_type := type |}.

(** The store [h4] in which [internalFetch], called on the bag [ps0] in
    the store [h], reaches [dispatch]: the controller, its signal and the
    object literal [init] are new objects, [init] holds the entries of the
    bag other than [type], [urlPrefix] and [hooks], with the controller's
    signal under [signal], and [hooks] is the bag's member or a new empty
    object. *)
Definition prepared (h : heap) (ps0 : props) (hooks : value)
  (signal abortController init : addr) (bag : props) (h4 : heap) : Prop :=
  preserved h h4 /\
  h !! signal = None /\ h !! abortController = None /\ h !! init = None /\
  h4 !! signal = Some (OHost "AbortSignal" []) /\
  h4 !! abortController = Some (OHost "AbortController" [("signal", VRef signal)]) /\
  h4 !! init = Some (OPlain bag) /\
  get_prop "signal" bag = Some (VRef signal) /\
  (forall k, In k ["type"; "urlPrefix"; "hooks"] -> get_prop k bag = None) /\
  (forall k, ~ In k ["type"; "urlPrefix"; "hooks"; "signal"] ->
             get_prop k bag = get_prop k ps0) /\
  NoDup (map fst bag) /\
  match get_prop "hooks" ps0 with
  | None | Some VUndefined =>
      exists a, hooks = VRef a /\ h !! a = None /\ h4 !! a = Some (OPlain [])
  | Some given => hooks = given
  end.

(** The first step of [optionsReducer] on the bag [ps] at [o]: whether
    the header is injected, the headers object it builds, and the bag and
    the store it leaves. *)
Definition injects (h : heap) (o : addr) : bool :=
  isObject (member h (VRef o) "body")
  && negb (ToBoolean (member h (member h (VRef o) "headers") CONTENT_TYPE_HEADER_TITLE)).

Definition injected_headers (h : heap) (o : addr) : props :=
  let headers := member h (VRef o) "headers" in
  spread (spread [] (if ToBoolean headers then own_props h headers else []))
    CONTENT_TYPE_HEADER.

Definition bag_after_headers (h : heap) (o : addr) (ps : props) : props :=
  if injects h o then set_prop "headers" (VRef (length h)) ps else ps.

Definition store_after_headers (h : heap) (o : addr) (ps : props) : heap :=
  if injects h o
  then <[o := OPlain (bag_after_headers h o ps)]> (h ++ [OPlain (injected_headers h o)])
  else h.

(** ** Further sample stores *)

Module Scenario.

(** "sends post request properly":
    [options = { headers: { Authentication: "secret" },
                 body: { title: "some title", description: "some description" } }] *)
Definition post_store : heap :=
  [OPlain [("headers", VRef 1); ("body", VRef 2)];
   OPlain [("Authentication", VString "secret")];
   OPlain [("title", VString "some title"); ("description", VString "some description")]].

(** [options = { headers: { "Content-Type": "text/plain" }, body: { a: 1 } }] *)
Definition typed_store : heap :=
  [OPlain [("headers", VRef 1); ("body", VRef 2)];
   OPlain [("Content-Type", VString "text/plain")];
   OPlain [("a", VNumber 1)]].

(** [options = { hooks: { beforeRequest: [hook1, hook2] } }], as in the
    test "beforeRequest hook updates request properly", with two hooks *)
Definition hooks_store : heap :=
  [OPlain [("hooks", VRef 1)];
   OPlain [("beforeRequest", VRef 2)];
   OArray [VFunction 1; VFunction 2]].


(** [options = { hooks: { afterResponse: [hook1, hook7, hook2] } }] *)
Definition after_store : heap :=
  [OPlain [("hooks", VRef 1)];
   OPlain [("afterResponse", VRef 2)];
   OArray [VFunction 1; VFunction 7; VFunction 2]].

(** [options = { signal: "mine", type: "text", credentials: "include" }] *)
Definition signal_store : heap :=
  [OPlain [("signal", VString "mine"); ("type", VString "text");
           ("credentials", VString "include")]].

(** [options = { urlPrefix: 5 }] *)
Definition number_prefix_store : heap := [OPlain [("urlPrefix", VNumber 5)]].

(** [defaults = {}], [options = { body: new FormData() }] *)
Definition form_store : heap :=
  [OPlain []; OPlain [("body", VRef 2)]; OHost "FormData" []].

End Scenario.

(** ** A sequence of calls

    A caller makes one call after the other, each on a client of its
    choice, going on after a call that throws.  [session] is the store the
    calls leave, or [None] when one of them stops for lack of fuel. *)

Record Call := {
  call_client : FetchData;
  call_name : string;
  call_url : string;
  call_options : value
}.

Fixpoint session (w : World) (fuel : nat) (calls : list Call) (h : heap) : option heap :=
  match calls with
  | [] => Some h
  | c :: calls =>
      match call_method w fuel (call_client c) (call_name c) (call_url c)
              (call_options c) h with
      | Ret _ h' | Exn _ h' => session w fuel calls h'
      | NoFuel => None
      end
  end.

(** The [urlPrefix] a bag gives, when it is a string. *)
Definition given_prefix (ps : props) : option string :=
  match get_prop "urlPrefix" ps with
  | Some (VString x) => Some x
  | _ => None
  end.

(** The error of an exhausted call stack. *)
Definition stack_overflow : exception :=
  Native (JsError "RangeError" "Maximum call stack size exceeded").

(** ** Cancelling

    [abortController.abort()]: the controller's signal becomes aborted; a
    signal is not aborted when it is created.  [call_cancelRequest] is the
    closure [cancelRequest = () => { abortController.abort(); }] of a
    pending call. *)

Definition abort (abortController : addr) : M unit :=
  fun h =>
    match slot h (VRef abortController) "signal" with
    | VRef signal =>
        match h !! signal with
        | Some (OHost class slots) =>
            Ret tt (<[signal := OHost class (set_prop "aborted" (VBool true) slots)]> h)
        | _ => Ret tt h
        end
    | _ => Ret tt h
    end.

Definition call_cancelRequest (p : PendingCall) : M unit := abort (cancelRequest p).

(** [signal.aborted] *)
Definition aborted (h : heap) (signal : value) : bool :=
  ToBoolean (slot h signal "aborted").

(** ** [enumKeys]

    [Number.isNaN(+k)] on a string [k]: the unary plus applies
    [StringToNumber], whose result is [NaN] exactly when [k], with the white
    space at both ends removed, is neither empty nor a [StrNumericLiteral]
    of the standard's grammar.  Strings are read as sequences of code units
    below 256, so the white space is TAB, LF, VT, FF, CR, SP and NBSP. *)

Module ToNumber.

Definition is_digit (c : ascii) : bool :=
  let n := nat_of_ascii c in (48 <=? n) && (n <=? 57).

Definition is_hex_digit (c : ascii) : bool :=
  let n := nat_of_ascii c in
  is_digit c || ((65 <=? n) && (n <=? 70)) || ((97 <=? n) && (n <=? 102)).

Definition is_octal_digit (c : ascii) : bool :=
  let n := nat_of_ascii c in (48 <=? n) && (n <=? 55).

Definition is_binary_digit (c : ascii) : bool :=
  let n := nat_of_ascii c in (48 <=? n) && (n <=? 49).

Definition is_white_space (c : ascii) : bool :=
  existsb (Nat.eqb (nat_of_ascii c)) [9; 10; 11; 12; 13; 32; 160].

Fixpoint trim_start (s : string) : string :=
  match s with
  | String c rest => if is_white_space c then trim_start rest else s
  | EmptyString => EmptyString
  end.

Fixpoint trim_end (s : string) : string :=
  match s with
  | String c rest =>
      match trim_end rest with
      | EmptyString => if is_white_space c then EmptyString else String c EmptyString
      | kept => String c kept
      end
  | EmptyString => EmptyString
  end.

(** What follows the longest run of decimal digits at the start. *)
Fixpoint after_digits (s : string) : string :=
  match s with
  | String c rest => if is_digit c then after_digits rest else s
  | EmptyString => EmptyString
  end.

Definition starts_with_digit (s : string) : bool :=
  match s with
  | String c _ => is_digit c
  | EmptyString => false
  end.

(** One or more digits of the given kind and nothing else. *)
Fixpoint all_digits (digit : ascii -> bool) (s : string) : bool :=
  match s with
  | String c EmptyString => digit c
  | String c rest => digit c && all_digits digit rest
  | EmptyString => false
  end.

Definition is_sign (c : ascii) : bool := Ascii.eqb c "+" || Ascii.eqb c "-".

(** [ExponentPart] or nothing, up to the end of the string. *)
Definition is_exponent_opt (s : string) : bool :=
  match s with
  | EmptyString => true
  | String c rest =>
      (Ascii.eqb c "e" || Ascii.eqb c "E")
      && all_digits is_digit
           (match rest with
            | String sign digits => if is_sign sign then digits else rest
            | EmptyString => rest
            end)
  end.

(** [StrUnsignedDecimalLiteral] *)
Definition is_unsigned_decimal (s : string) : bool :=
  if String.eqb s "Infinity" then true
  else if starts_with_digit s then
    match after_digits s with
    | String c rest =>
        if Ascii.eqb c "." then is_exponent_opt (after_digits rest)
        else is_exponent_opt (String c rest)
    | EmptyString => true
    end
  else
    match s with
    | String c rest =>
        Ascii.eqb c "." && starts_with_digit rest && is_exponent_opt (after_digits rest)
    | EmptyString => false
    end.

(** [NonDecimalIntegerLiteral] *)
Definition is_non_decimal (s : string) : bool :=
  match s with
  | String zero (String x digits) =>
      Ascii.eqb zero "0"
      && (((Ascii.eqb x "x" || Ascii.eqb x "X") && all_digits is_hex_digit digits)
          || ((Ascii.eqb x "o" || Ascii.eqb x "O") && all_digits is_octal_digit digits)
          || ((Ascii.eqb x "b" || Ascii.eqb x "B") && all_digits is_binary_digit digits))
  | _ => false
  end.

(** [StrNumericLiteral] *)
Definition is_numeric_literal (s : string) : bool :=
  is_non_decimal s
  || match s with
     | String c rest => if is_sign c then is_unsigned_decimal rest else is_unsigned_decimal s
     | EmptyString => false
     end.

(** [Number.isNaN(+k)] *)
Definition isNaN (k : string) : bool :=
  let trimmed := trim_end (trim_start k) in
  negb (String.eqb trimmed EmptyString || is_numeric_literal trimmed).

End ToNumber.

(** [Object.keys(obj).filter(k => Number.isNaN(+k))], on the own enumerable
    properties of [obj]. *)
Definition enumKeys (obj : props) : list string :=
  List.filter ToNumber.isNaN (map fst obj).

(** The object the compiler emits for [enum HTTPMethod]: a string enum has
    no reverse mapping. *)
Definition HTTPMethod_enum : props :=
  [("GET", VString "get"); ("PUT", VString "put"); ("POST", VString "post");
   ("PATCH", VString "patch"); ("DELETE", VString "delete")].

Definition HTTPMethod_key (m : HTTPMethod) : string :=
  match m with
  | GET => "GET"
  | PUT => "PUT"
  | POST => "POST"
  | PATCH => "PATCH"
  | DELETE => "DELETE"
  end.

(** A character that can start an enum member's name and no numeric
    literal: a letter other than [I], an underscore or a dollar sign. *)
Definition starts_a_name (c : ascii) : bool :=
  let n := nat_of_ascii c in
  (((65 <=? n) && (n <=? 90)) || ((97 <=? n) && (n <=? 122))
   || Nat.eqb n 95 || Nat.eqb n 36)
  && negb (Nat.eqb n 73).

Definition is_name (k : string) : bool :=
  match k with
  | String c _ => starts_a_name c
  | EmptyString => false
  end.

Definition is_index (k : string) : bool := ToNumber.all_digits ToNumber.is_digit k.


(** * The repository's tests, run on the model *)

Module Tests.

Import Sample.

(** "with url, that starts with /, and url prefix that ends with /" *)
Example urlPrefix_both_slashes :
  constructURL "/products" (Some "http://some-url.com/") = "http://some-url.com/products".
Proof. reflexivity. Qed.

(** "with url, that does not start with /, and url prefix that does not
    end with /" *)
Example urlPrefix_no_slashes :
  constructURL "products" (Some "http://some-url.com") = "http://some-url.com/products".
Proof. reflexivity. Qed.

(** "without prefix" *)
Example urlPrefix_absent :
  constructURL "http://some-url.com/products" None = "http://some-url.com/products".
Proof. reflexivity. Qed.

(** "PUT request is sent properly": the JSON content type and the JSON
    text of the body. *)
Example put_request :
  exists p h' headers,
    call_shortcut quiet 4 (shortcut 0 PUT) "http://some-url.com/products" (VRef 1)
      put_call_store = Ret p h' /\
    get_prop "body" (request_init (pending_request p))
    = Some (VString ("{" +:+ Json.quote "title" +:+ ":" +:+ Json.quote "new title" +:+ "}")) /\
    get_prop "headers" (request_init (pending_request p)) = Some (VRef headers) /\
    member h' (VRef headers) "Content-Type" = VString "application/json;charset=utf-8".
Proof. eexists _, _, _. split; [vm_compute; reflexivity|]. repeat split. Qed.

(** "does not send content-type header without sending body" *)
Example post_without_body :
  exists p h',
    call_shortcut quiet 4 (shortcut 0 POST) "http://some-url.com/products" VUndefined
      [OPlain []] = Ret p h' /\
    get_prop "headers" (request_init (pending_request p)) = None /\
    get_prop "body" (request_init (pending_request p)) = None.
Proof. eexists _, _. split; [vm_compute; reflexivity|]. repeat split. Qed.

(** "allows to set up default options for fetchData" *)
Example createFetchData_urlPrefix :
  exists client p h',
    createFetchData (VRef 0) prefix_store = Ret client prefix_store /\
    call_method quiet 2 client "get" "products" (VRef 1) prefix_store = Ret p h' /\
    request_url (pending_request p) = "http://site.com/products".
Proof. eexists _, _, _. split; [reflexivity|]. split; [vm_compute; reflexivity|]. reflexivity. Qed.

(** "is thrown in case non successful response (non-2xx status)" *)
Example http_error :
  exists p h',
    call_shortcut refusing 2 (shortcut 0 GET) "http://some-url.com/products" (VRef 1)
      empty_store = Ret p h' /\
    request refusing h' p
    = Rejected (CommonHttpError "Request is not resolved successfully" 400 bad_request
                  (pending_request p) "@j.u.p.iter/fetch-data").
Proof. eexists _, _. split; [vm_compute; reflexivity|]. reflexivity. Qed.

(** "resolves body as text" *)
Example type_text :
  exists p h',
    call_shortcut greeting 2 (shortcut 0 POST) "http://some-url.com/products" (VRef 1)
      [OPlain []; OPlain [("type", VString "text")]] = Ret p h' /\
    request greeting h' p
    = Resolved {| cancel := cancelRequest p; status := 200; statusText := "OK";
                  data := VString "Hello!" |}.
Proof. eexists _, _. split; [vm_compute; reflexivity|]. reflexivity. Qed.

End Tests.

(** * Properties *)

(** ** Strings *)

Module StrFacts.

Lemma append_cons (c : ascii) (s t : string) :
  String c s +:+ t = String c (s +:+ t).
Proof. reflexivity. Qed.

Lemma append_assoc (a b c : string) : (a +:+ b) +:+ c = a +:+ (b +:+ c).
Proof.
  induction a as [|x a IH]; [reflexivity|].
  now rewrite !append_cons, IH.
Qed.

Lemma endsWith_slash_snoc (q : string) : Str.endsWith_slash (q +:+ "/") = true.
Proof.
  induction q as [|c q IH]; [reflexivity|].
  rewrite append_cons. simpl. destruct (q +:+ "/") eqn:E; [|exact IH].
  destruct q; discriminate E.
Qed.

Lemma endsWith_slash_false (p : string) :
  Str.endsWith_slash p = false -> forall q, p <> q +:+ "/".
Proof. intros H q ->. rewrite endsWith_slash_snoc in H. discriminate. Qed.

Lemma endsWith_slash_not (p : string) :
  (forall q, p <> q +:+ "/") -> Str.endsWith_slash p = false.
Proof.
  intros H. destruct (Str.endsWith_slash p) eqn:E; [|reflexivity].
  exfalso. revert H E. induction p as [|c p IH]; [discriminate|].
  intros H E. simpl in E. destruct p as [|d p'].
  - apply Ascii.eqb_eq in E. subst c. now apply (H EmptyString).
  - apply IH; [|exact E]. intros q Hq. apply (H (String c q)).
    rewrite append_cons. now rewrite <- Hq.
Qed.

Lemma snoc_not_empty (q : string) : q +:+ "/" <> EmptyString.
Proof. destruct q; discriminate. Qed.

End StrFacts.

(** ** Property lists *)

Lemma get_set_eq (k : string) (v : value) (ps : props) :
  get_prop k (set_prop k v ps) = Some v.
Proof.
  induction ps as [|[k' v'] ps IH]; simpl.
  - now rewrite String.eqb_refl.
  - destruct (String.eqb k k') eqn:E; simpl; rewrite ?String.eqb_refl, ?E; auto.
Qed.

Lemma get_set_ne (k j : string) (v : value) (ps : props) :
  k <> j -> get_prop k (set_prop j v ps) = get_prop k ps.
Proof.
  intros Hne. induction ps as [|[k' v'] ps IH]; simpl.
  - apply String.eqb_neq in Hne. now rewrite Hne.
  - destruct (String.eqb j k') eqn:E; simpl.
    + apply String.eqb_eq in E. subst k'.
      apply String.eqb_neq in Hne. now rewrite Hne.
    + now rewrite IH.
Qed.

Lemma get_set (k j : string) (v : value) (ps : props) :
  get_prop k (set_prop j v ps) = if String.eqb k j then Some v else get_prop k ps.
Proof.
  destruct (String.eqb k j) eqn:E.
  - apply String.eqb_eq in E. subst. apply get_set_eq.
  - apply String.eqb_neq in E. now apply get_set_ne.
Qed.

Lemma get_prop_None (k : string) (ps : props) :
  get_prop k ps = None <-> k ∉ map fst ps.
Proof.
  induction ps as [|[k' v'] ps IH]; simpl.
  - split; [intros _; apply not_elem_of_nil | reflexivity].
  - rewrite not_elem_of_cons. destruct (String.eqb k k') eqn:E.
    + apply String.eqb_eq in E. subst. split; [discriminate|]. tauto.
    + apply String.eqb_neq in E. rewrite IH. tauto.
Qed.

Lemma get_prop_Some_elem (k : string) (v : value) (ps : props) :
  get_prop k ps = Some v -> k ∈ map fst ps.
Proof.
  intros H. destruct (decide (k ∈ map fst ps)) as [|N]; [assumption|].
  apply get_prop_None in N. congruence.
Qed.

Lemma get_spread_absent (k : string) (dst src : props) :
  get_prop k src = None -> get_prop k (spread dst src) = get_prop k dst.
Proof.
  unfold spread. revert dst.
  induction src as [|[k' v'] src IH]; intros dst H; simpl in *; [reflexivity|].
  destruct (String.eqb k k') eqn:E; [discriminate|].
  rewrite IH by assumption. apply get_set_ne. now apply String.eqb_neq.
Qed.

Lemma get_spread_single (k j : string) (v : value) (dst : props) :
  get_prop k (spread dst [(j, v)]) = if String.eqb k j then Some v else get_prop k dst.
Proof. apply get_set. Qed.

Lemma get_spread (dst src : props) (k : string) :
  NoDup (map fst src) ->
  get_prop k (spread dst src)
  = match get_prop k src with Some v => Some v | None => get_prop k dst end.
Proof.
  unfold spread. revert dst.
  induction src as [|[k' v'] src IH]; intros dst Hnd; simpl; [reflexivity|].
  apply NoDup_cons in Hnd as [Hnotin Hnd']. simpl in Hnotin.
  rewrite IH by assumption.
  destruct (String.eqb k k') eqn:E.
  - apply String.eqb_eq in E. subst k'.
    apply get_prop_None in Hnotin. rewrite Hnotin. apply get_set_eq.
  - destruct (get_prop k src); [reflexivity|].
    apply get_set_ne. now apply String.eqb_neq.
Qed.

Lemma get_spread_nil (src : props) (k : string) :
  NoDup (map fst src) -> get_prop k (spread [] src) = get_prop k src.
Proof.
  intros Hnd. rewrite get_spread by assumption. now destruct (get_prop k src).
Qed.

Lemma get_rest_props (k : string) (taken : list string) (ps : props) :
  get_prop k (rest_props taken ps)
  = if existsb (String.eqb k) taken then None else get_prop k ps.
Proof.
  unfold rest_props. induction ps as [|[k' v'] ps IH]; simpl.
  - now destruct (existsb _ taken).
  - destruct (String.eqb k k') eqn:E.
    + apply String.eqb_eq in E. subst k'.
      destruct (existsb (String.eqb k) taken) eqn:T; simpl.
      * rewrite IH. reflexivity.
      * now rewrite String.eqb_refl.
    + destruct (existsb (String.eqb k') taken); simpl; rewrite ?E; exact IH.
Qed.

Lemma get_prop_In (k : string) (e : value) (ps : props) :
  get_prop k ps = Some e -> In e (map snd ps).
Proof.
  induction ps as [|[k' e'] ps IH]; [discriminate|].
  cbn [get_prop map snd]. destruct (String.eqb k k').
  - intros [= ->]. now left.
  - intros H. right. now apply IH.
Qed.

Lemma set_prop_keys (k : string) (v : value) (ps : props) :
  NoDup (map fst ps) -> NoDup (map fst (set_prop k v ps)).
Proof.
  induction ps as [|[k' v'] ps IH]; intros Hnd; cbn [set_prop].
  - apply NoDup_singleton.
  - destruct (String.eqb k k') eqn:E.
    + apply String.eqb_eq in E. subst k'. exact Hnd.
    + cbn [map fst] in *. apply NoDup_cons in Hnd as [Hnot Hnd].
      apply NoDup_cons. split; [|now apply IH].
      intros Hin. apply Hnot.
      destruct (get_prop k' (set_prop k v ps)) as [x|] eqn:G.
      * rewrite get_set_ne in G by (intros ->; now rewrite String.eqb_refl in E).
        eapply get_prop_Some_elem, G.
      * apply get_prop_None in G. contradiction.
Qed.

Lemma spread_keys (dst src : props) :
  NoDup (map fst dst) -> NoDup (map fst (spread dst src)).
Proof.
  unfold spread. revert dst. induction src as [|[k v] src IH]; intros dst Hnd; simpl.
  - exact Hnd.
  - apply IH. now apply set_prop_keys.
Qed.

Lemma rest_props_keys (taken : list string) (ps : props) :
  NoDup (map fst ps) -> NoDup (map fst (rest_props taken ps)).
Proof.
  unfold rest_props. induction ps as [|[k v] ps IH]; intros Hnd; simpl; [exact Hnd|].
  cbn [map fst] in Hnd. apply NoDup_cons in Hnd as [Hnot Hnd].
  destruct (negb (existsb (String.eqb k) taken)); [|now apply IH].
  cbn [map fst]. apply NoDup_cons. split; [|now apply IH].
  intros Hin. apply Hnot. apply list_elem_of_In in Hin. apply list_elem_of_In.
  apply in_map_iff in Hin as (kv & E & Hin). apply filter_In in Hin as [Hin _].
  apply in_map_iff. eauto.
Qed.


(** ** Computations *)

Lemma bind_Ret {A B} (m : M A) (f : A -> M B) (h : heap) (b : B) (h2 : heap) :
  bind m f h = Ret b h2 -> exists a h1, m h = Ret a h1 /\ f a h1 = Ret b h2.
Proof.
  unfold bind. destruct (m h) as [a h1|e h1|]; try discriminate. eauto.
Qed.

Lemma bind_eq {A B} (m : M A) (f : A -> M B) (h : heap) (a : A) (h1 : heap) :
  m h = Ret a h1 -> bind m f h = f a h1.
Proof. unfold bind. now intros ->. Qed.

(** ** The store *)

Lemma valid_lookup (h : heap) (a : addr) :
  valid h (VRef a) = true -> exists o, h !! a = Some o.
Proof.
  simpl. intros H. apply Nat.ltb_lt in H.
  destruct (lookup_lt_is_Some_2 h a H) as [o Ho]. eauto.
Qed.

Lemma wf_children (h : heap) (a : addr) (o : object) (v : value) :
  wf_heap h = true -> h !! a = Some o -> In v (children o) -> valid h v = true.
Proof.
  unfold wf_heap. rewrite forallb_forall. intros Hwf Ho Hin.
  assert (Hmem : In o h).
  { apply list_elem_of_In. eapply list_elem_of_lookup_2. exact Ho. }
  specialize (Hwf o Hmem). rewrite forallb_forall in Hwf. now apply Hwf.
Qed.

Lemma preserved_refl (h : heap) : preserved h h.
Proof. intros a o H. exact H. Qed.

Lemma preserved_trans (h1 h2 h3 : heap) :
  preserved h1 h2 -> preserved h2 h3 -> preserved h1 h3.
Proof. intros H12 H23 a o H. apply H23, H12, H. Qed.

Lemma preserved_alloc (h : heap) (o : object) : preserved h (h ++ [o]).
Proof. intros a x H. rewrite lookup_app_l; [exact H|]. eapply lookup_lt_Some, H. Qed.

Lemma preserved_length (h h' : heap) : preserved h h' -> length h <= length h'.
Proof.
  intros H. destruct (Nat.le_gt_cases (length h) (length h')) as [|Hlt]; [assumption|].
  destruct (lookup_lt_is_Some_2 h (length h') Hlt) as [o Ho].
  apply H in Ho. apply lookup_lt_Some in Ho. lia.
Qed.

Lemma preserved_but_refl (d : addr) (h : heap) : preserved_but d h h.
Proof. intros a o _ H. exact H. Qed.

Lemma preserved_but_trans (d : addr) (h1 h2 h3 : heap) :
  preserved_but d h1 h2 -> preserved_but d h2 h3 -> preserved_but d h1 h3.
Proof. intros H12 H23 a o Hne H. apply H23, H12; assumption. Qed.

Lemma preserved_is_but (d : addr) (h h' : heap) : preserved h h' -> preserved_but d h h'.
Proof. intros H a o _ Ha. now apply H. Qed.

Lemma preserved_but_fresh (d : addr) (h0 h h' : heap) :
  h0 !! d = None -> preserved h0 h -> preserved_but d h h' -> preserved h0 h'.
Proof.
  intros Hd H0 Hb a o Ha. apply Hb; [|now apply H0].
  intros ->. congruence.
Qed.

Lemma write_prop_Ret (d : addr) (k : string) (v : value) (h : heap) :
  exists h', write_prop d k v h = Ret tt h' /\ preserved_but d h h' /\
    length h' = length h /\
    forall ps, h !! d = Some (OPlain ps) -> h' !! d = Some (OPlain (set_prop k v ps)).
Proof.
  unfold write_prop. destruct (h !! d) as [[ps|es|c sl]|] eqn:E.
  - eexists. split; [reflexivity|]. split; [|split].
    + intros a o Hne Ha. now rewrite list_lookup_insert_ne.
    + apply length_insert.
    + intros ps' [= <-]. apply list_lookup_insert_eq. eapply lookup_lt_Some, E.
  - exists h. split; [reflexivity|]. split; [apply preserved_but_refl|].
    split; [reflexivity|]. intros ps [=].
  - exists h. split; [reflexivity|]. split; [apply preserved_but_refl|].
    split; [reflexivity|]. intros ps [=].
  - exists h. split; [reflexivity|]. split; [apply preserved_but_refl|].
    split; [reflexivity|]. intros ps [=].
Qed.

(** ** [JSON.stringify] *)

Module JsonFacts.

Lemma escape_length (c : ascii) : 1 <= String.length (Json.escape c).
Proof.
  unfold Json.escape.
  repeat match goal with |- context [if ?b then _ else _] => destruct b end;
    simpl; lia.
Qed.

Lemma append_length (a b : string) :
  String.length (a +:+ b) = String.length a + String.length b.
Proof.
  induction a as [|c a IH]; [reflexivity|].
  rewrite StrFacts.append_cons. simpl. now rewrite IH.
Qed.

Lemma escape_all_length (s : string) :
  String.length s <= String.length (Json.escape_all s).
Proof.
  induction s as [|c s IH]; simpl; [lia|].
  rewrite append_length. pose proof (escape_length c). lia.
Qed.

Lemma quote_length (s : string) :
  String.length s + 2 <= String.length (Json.quote s).
Proof.
  unfold Json.quote. simpl. rewrite append_length. simpl.
  pose proof (escape_all_length s). lia.
Qed.

(** Quoting never returns the string it was given. *)
Lemma quote_changes (s : string) : Json.quote s <> s.
Proof.
  intros E. pose proof (quote_length s) as L. rewrite E in L. lia.
Qed.

Lemma fields_fails (rec : value -> exception + option string) (k : string)
  (e : value) (ps : props) :
  get_prop k ps = Some e -> (exists x, rec e = inl x) ->
  exists y, Json.fields rec ps = inl y.
Proof.
  intros Hget [x Hx]. induction ps as [|[k' e'] ps IH]; [discriminate|].
  simpl in *. destruct (String.eqb k k').
  - injection Hget as ->. rewrite Hx. eauto.
  - destruct (rec e') as [y|o]; [eauto|].
    destruct (IH Hget) as [y Hy]. rewrite Hy. eauto.
Qed.

Lemma items_agree (rec rec' : value -> exception + option string) (es : list value) :
  (forall e r, In e es -> rec e = inr r -> rec' e = inr r) ->
  forall l, Json.items rec es = inr l -> Json.items rec' es = inr l.
Proof.
  induction es as [|e es IH]; intros H l; simpl; [auto|].
  destruct (rec e) as [x|o] eqn:E; [discriminate|].
  rewrite (H e o (or_introl eq_refl) E).
  destruct (Json.items rec es) as [x|l0] eqn:El; [discriminate|].
  rewrite (IH (fun e' r Hin => H e' r (or_intror Hin)) l0 eq_refl). auto.
Qed.

Lemma fields_agree (rec rec' : value -> exception + option string) (ps : props) :
  (forall e r, In e (map snd ps) -> rec e = inr r -> rec' e = inr r) ->
  forall l, Json.fields rec ps = inr l -> Json.fields rec' ps = inr l.
Proof.
  induction ps as [|[k e] ps IH]; intros H l; simpl; [auto|].
  destruct (rec e) as [x|o] eqn:E; [discriminate|].
  rewrite (H e o (or_introl eq_refl) E).
  destruct (Json.fields rec ps) as [x|l0] eqn:El; [discriminate|].
  rewrite (IH (fun e' r Hin => H e' r (or_intror Hin)) l0 eq_refl). auto.
Qed.

Lemma serialize_on_stack (d : nat) (stack : list addr) (h : heap) (a : addr) :
  existsb (Nat.eqb a) stack = true ->
  Json.serialize d stack h (VRef a)
  = inl (TypeError "Converting circular structure to JSON").
Proof. intros E. destruct d; simpl; now rewrite E. Qed.

(** A body that serializes in [h] serializes to the same text once the
    bag [o] that holds it has been updated and objects have been added:
    the serializer cannot have visited [o], whose [body] leads back to the
    value being serialized. *)
Lemma serialize_stable (h h1 : heap) (o b : addr) (ps : props) :
  wf_heap h = true ->
  h !! o = Some (OPlain ps) ->
  get_prop "body" ps = Some (VRef b) ->
  (forall a, a < length h -> a <> o -> h1 !! a = h !! a) ->
  forall d d' stack v r,
    d <= d' -> valid h v = true -> (In b stack \/ v = VRef b) ->
    Json.serialize d stack h v = inr r -> Json.serialize d' stack h1 v = inr r.
Proof.
  intros Hwf Ho Hbody Hagree.
  induction d as [|d IH]; intros d' stack v r Hle Hval Hinv Hser.
  - destruct v; simpl in *; try (destruct d'; exact Hser).
    destruct (existsb (Nat.eqb a) stack); discriminate.
  - destruct d' as [|d']; [lia|].
    destruct v; simpl in *; try exact Hser.
    destruct (existsb (Nat.eqb a) stack) eqn:Est; [discriminate|].
    destruct (valid_lookup h a Hval) as [obj Hobj].
    assert (Hb : In b (a :: stack)).
    { destruct Hinv as [?|[= ->]]; [now right | now left]. }
    destruct (Nat.eq_dec a o) as [->|Hne].
    + exfalso. rewrite Ho in Hser.
      destruct (fields_fails (Json.serialize d (o :: stack) h) "body" (VRef b) ps Hbody)
        as [y Hy].
      * eexists. apply serialize_on_stack.
        apply existsb_exists. exists b. split; [exact Hb | apply Nat.eqb_refl].
      * rewrite Hy in Hser. discriminate.
    + rewrite Hagree by (try assumption; eapply lookup_lt_Some, Hobj).
      rewrite Hobj in *.
      assert (Hkids : forall e r0, In e (children obj) ->
                Json.serialize d (a :: stack) h e = inr r0 ->
                Json.serialize d' (a :: stack) h1 e = inr r0).
      { intros e r0 Hin. apply IH; [lia | | now left].
        eapply wf_children; eauto. }
      destruct obj as [ps'|es|c sl]; [| |exact Hser].
      * destruct (Json.fields (Json.serialize d (a :: stack) h) ps') as [x|l] eqn:El;
          [discriminate|].
        now rewrite (fields_agree _ _ ps' Hkids l El).
      * destruct (Json.items (Json.serialize d (a :: stack) h) es) as [x|l] eqn:El;
          [discriminate|].
        now rewrite (items_agree _ _ es Hkids l El).
Qed.

End JsonFacts.

(** The depth [JSON.stringify] starts with is never exhausted: the stack
    holds distinct objects of the store, so it cannot grow past their
    number. *)

Module JsonDepth.

Lemma items_fails (rec : value -> exception + option string) (es : list value)
  (x : exception) :
  Json.items rec es = inl x -> exists e, In e es /\ rec e = inl x.
Proof.
  induction es as [|e es IH]; [discriminate|]. cbn [Json.items].
  destruct (rec e) as [y|o] eqn:E.
  - intros [= <-]. exists e. split; [now left | exact E].
  - destruct (Json.items rec es) as [y|l]; [|discriminate].
    intros [= <-]. destruct (IH eq_refl) as (e' & Hin & He').
    exists e'. split; [now right | exact He'].
Qed.

Lemma fields_fails_at (rec : value -> exception + option string) (ps : props)
  (x : exception) :
  Json.fields rec ps = inl x -> exists e, In e (map snd ps) /\ rec e = inl x.
Proof.
  induction ps as [|[k e] ps IH]; [discriminate|]. cbn [Json.fields].
  destruct (rec e) as [y|o] eqn:E.
  - intros [= <-]. exists e. split; [now left | exact E].
  - destruct (Json.fields rec ps) as [y|l]; [|discriminate].
    intros [= <-]. destruct (IH eq_refl) as (e' & Hin & He').
    exists e'. split; [now right | exact He'].
Qed.

Lemma stack_bound (n : nat) (stack : list nat) :
  List.NoDup stack -> (forall x, In x stack -> x < n) -> length stack <= n.
Proof.
  intros Hnd Hlt.
  assert (H : length stack <= length (seq 0 n)).
  { apply List.NoDup_incl_length; [exact Hnd|].
    intros x Hx. apply in_seq. specialize (Hlt x Hx). lia. }
  now rewrite List.length_seq in H.
Qed.

Lemma serialize_never_overflows (h : heap) :
  wf_heap h = true ->
  forall depth stack v,
    valid h v = true -> List.NoDup stack -> (forall x, In x stack -> x < length h) ->
    length h < depth + length stack ->
    Json.serialize depth stack h v <> inl stack_overflow.
Proof.
  intros Hwf. induction depth as [|depth IH]; intros stack v Hv Hnd Hlt Hdepth.
  - pose proof (stack_bound _ _ Hnd Hlt).
    destruct v; simpl; try discriminate. lia.
  - destruct v; simpl; try discriminate.
    destruct (existsb (Nat.eqb a) stack) eqn:Est; [discriminate|].
    assert (Hnot : ~ In a stack).
    { intros Hin. assert (E : existsb (Nat.eqb a) stack = true).
      { apply existsb_exists. exists a. split; [exact Hin | apply Nat.eqb_refl]. }
      congruence. }
    assert (Hkid : forall e, In e (match h !! a with Some o => children o | None => [] end) ->
                             Json.serialize depth (a :: stack) h e <> inl stack_overflow).
    { intros e Hin. destruct (h !! a) as [o|] eqn:Ho; [|destruct Hin].
      apply IH.
      - eapply wf_children; eauto.
      - now constructor.
      - intros x [<-|Hx]; [|now apply Hlt]. eapply lookup_lt_Some, Ho.
      - simpl. lia. }
    destruct (h !! a) as [[ps|es|c sl]|]; try discriminate.
    + destruct (Json.fields _ ps) as [x|l] eqn:E; [|discriminate].
      intros [= ->]. apply fields_fails_at in E as (e & Hin & He).
      exact (Hkid e Hin He).
    + destruct (Json.items _ es) as [x|l] eqn:E; [|discriminate].
      intros [= ->]. apply items_fails in E as (e & Hin & He).
      exact (Hkid e Hin He).
Qed.

Lemma stringify_never_overflows (h : heap) (v : value) (h' : heap) :
  wf_heap h = true -> valid h v = true -> Json.stringify v h <> Exn stack_overflow h'.
Proof.
  intros Hwf Hv. unfold Json.stringify.
  pose proof (serialize_never_overflows h Hwf (S (length h)) [] v Hv
                (List.NoDup_nil _) (fun x (H : In x []) => match H with end)) as Hs.
  destruct (Json.serialize _ _ _ _) as [x|[t|]]; try discriminate.
  intros [= -> _]. apply Hs; [simpl; lia | reflexivity].
Qed.

End JsonDepth.

(** ** [optionsReducer] *)

Lemma member_plain (h : heap) (o : addr) (ps : props) (k : string) :
  h !! o = Some (OPlain ps) ->
  member h (VRef o) k = match get_prop k ps with Some x => x | None => VUndefined end.
Proof. intros H. unfold member. simpl. now rewrite H. Qed.


(** What [optionsReducer] does to a bag whose body is a string: an empty
    body is falsy and stays; any other string is replaced by its quoted
    form; the headers are not touched. *)
Lemma optionsReducer_string (h : heap) (o : addr) (ps : props) (s : string)
  (m : HTTPMethod) :
  h !! o = Some (OPlain ps) ->
  get_prop "body" ps = Some (VString s) ->
  sends_body m = true ->
  optionsReducer o m h
  = Ret (VRef o)
      (if String.eqb s EmptyString then h
       else <[o := OPlain (set_prop "body" (VString (Json.quote s)) ps)]> h).
Proof.
  intros Ho Hbody Hm. unfold optionsReducer. rewrite Hm.
  unfold bind at 1. unfold bind at 1. unfold get_heap at 1.
  rewrite (member_plain h o ps "body" Ho), Hbody.
  cbn [isObject typeof is_null andb String.eqb Ascii.eqb Bool.eqb].
  unfold bind at 1. unfold ret at 1. unfold bind at 1. unfold get_heap at 1.
  rewrite (member_plain h o ps "body" Ho), Hbody.
  cbn [ToBoolean]. destruct (String.eqb s EmptyString) eqn:E; cbn [negb].
  - reflexivity.
  - unfold bind, Json.stringify, write_prop. cbn [Json.serialize].
    rewrite Ho. reflexivity.
Qed.

Lemma optionsReducer_no_body_method (h : heap) (o : addr) (m : HTTPMethod) :
  sends_body m = false -> optionsReducer o m h = Ret (VRef o) h.
Proof. intros Hm. unfold optionsReducer. now rewrite Hm. Qed.


(** ** Reading old values in a later store *)

Lemma preserved_ref (h h' : heap) (a : addr) :
  valid h (VRef a) = true -> preserved h h' -> h' !! a = h !! a.
Proof.
  intros Hv Hp. destruct (valid_lookup h a Hv) as [o Ho].
  rewrite Ho. now apply Hp.
Qed.

Lemma valid_preserved (h h' : heap) (v : value) :
  valid h v = true -> preserved h h' -> valid h' v = true.
Proof.
  destruct v; simpl; auto. intros H Hp.
  apply Nat.ltb_lt in H. apply Nat.ltb_lt.
  apply preserved_length in Hp. lia.
Qed.

Lemma own_props_preserved (h h' : heap) (v : value) :
  valid h v = true -> preserved h h' -> own_props h' v = own_props h v.
Proof.
  intros Hv Hp. destruct v; try reflexivity.
  simpl. now rewrite (preserved_ref h h' a Hv Hp).
Qed.

Lemma member_preserved (h h' : heap) (v : value) (k : string) :
  valid h v = true -> preserved h h' -> member h' v k = member h v k.
Proof. intros Hv Hp. unfold member. now rewrite (own_props_preserved h h' v Hv Hp). Qed.

Lemma isArray_preserved (h h' : heap) (v : value) :
  valid h v = true -> preserved h h' -> isArray h' v = isArray h v.
Proof.
  intros Hv Hp. destruct v; try reflexivity.
  simpl. now rewrite (preserved_ref h h' a Hv Hp).
Qed.

Lemma elements_preserved (h h' : heap) (v : value) :
  valid h v = true -> preserved h h' -> elements h' v = elements h v.
Proof.
  intros Hv Hp. destruct v; try reflexivity.
  simpl. now rewrite (preserved_ref h h' a Hv Hp).
Qed.

Module DeepmergeFacts.

Import Deepmerge.

Lemma isMergeableObject_preserved (h h' : heap) (v : value) :
  valid h v = true -> preserved h h' -> isMergeableObject h' v = isMergeableObject h v.
Proof.
  intros Hv Hp. destruct v; try reflexivity.
  unfold isMergeableObject, isSpecial. now rewrite (preserved_ref h h' a Hv Hp).
Qed.

Lemma propertyIsOnObject_preserved (h h' : heap) (v : value) (k : string) :
  valid h v = true -> preserved h h' ->
  propertyIsOnObject h' v k = propertyIsOnObject h v k.
Proof.
  intros Hv Hp. unfold propertyIsOnObject, hasOwnEnumerable.
  now rewrite (own_props_preserved h h' v Hv Hp).
Qed.

Lemma propertyIsUnsafe_preserved (h h' : heap) (v : value) (k : string) :
  valid h v = true -> preserved h h' ->
  propertyIsUnsafe h' v k = propertyIsUnsafe h v k.
Proof.
  intros Hv Hp. unfold propertyIsUnsafe, hasOwnEnumerable.
  rewrite (propertyIsOnObject_preserved h h' v k Hv Hp).
  now rewrite (own_props_preserved h h' v Hv Hp).
Qed.

(** *** [deepmerge] only adds objects *)

Lemma emptyTarget_Ret (v : value) (h : heap) :
  emptyTarget v h
  = Ret (VRef (length h)) (h ++ [if isArray h v then OArray [] else OPlain []]).
Proof. reflexivity. Qed.

Section Frame.

Variable rec : value -> value -> M value.
Hypothesis rec_frames : forall t s, frames (rec t s).

Lemma clone_frames (v : value) : frames (cloneUnlessOtherwiseSpecified rec v).
Proof.
  intros h r h' H. unfold cloneUnlessOtherwiseSpecified in H.
  apply bind_Ret in H as (h0 & h1 & [= <- <-] & H).
  destruct (isMergeableObject h v).
  - apply bind_Ret in H as (t & h2 & Ht & H).
    rewrite emptyTarget_Ret in Ht. injection Ht as <- <-.
    eapply preserved_trans; [apply preserved_alloc|]. eapply rec_frames, H.
  - injection H as <- <-. apply preserved_refl.
Qed.

Lemma cloneAll_frames (es : list value) : frames (cloneAll rec es).
Proof.
  induction es as [|e es IH]; intros h r h' H; simpl in H.
  - injection H as <- <-. apply preserved_refl.
  - apply bind_Ret in H as (v & h1 & Hv & H).
    apply bind_Ret in H as (vs & h2 & Hvs & H).
    injection H as <- <-.
    eapply preserved_trans; [eapply clone_frames, Hv | eapply IH, Hvs].
Qed.

Lemma defaultArrayMerge_frames (t s : value) : frames (defaultArrayMerge rec t s).
Proof.
  intros h r h' H. unfold defaultArrayMerge in H.
  apply bind_Ret in H as (h0 & h1 & [= <- <-] & H).
  apply bind_Ret in H as (vs & h2 & Hvs & H).
  apply bind_Ret in H as (a & h3 & [= <- <-] & [= <- <-]).
  eapply preserved_trans; [eapply cloneAll_frames, Hvs | apply preserved_alloc].
Qed.

Lemma write_prop_but (d : addr) (k : string) (v : value) (h : heap) (u : unit)
  (h' : heap) :
  write_prop d k v h = Ret u h' -> preserved_but d h h'.
Proof.
  intros H. destruct (write_prop_Ret d k v h) as (h2 & E & Hb & _).
  rewrite E in H. injection H as _ <-. exact Hb.
Qed.

Lemma copyTargetKeys_but (d : addr) (t : value) (keys : list string) :
  forall h u h', copyTargetKeys rec d t keys h = Ret u h' -> preserved_but d h h'.
Proof.
  induction keys as [|k keys IH]; intros h u h' H; simpl in H.
  - injection H as _ <-. apply preserved_but_refl.
  - apply bind_Ret in H as (h0 & h1 & [= <- <-] & H).
    apply bind_Ret in H as (v & h2 & Hv & H).
    apply bind_Ret in H as (u1 & h3 & Hw & H).
    eapply preserved_but_trans; [eapply preserved_is_but, clone_frames, Hv|].
    eapply preserved_but_trans; [eapply write_prop_but, Hw | eapply IH, H].
Qed.

Lemma mergeSourceKeys_but (d : addr) (t s : value) (keys : list string) :
  forall h u h', mergeSourceKeys rec d t s keys h = Ret u h' -> preserved_but d h h'.
Proof.
  induction keys as [|k keys IH]; intros h u h' H; simpl in H.
  - injection H as _ <-. apply preserved_but_refl.
  - apply bind_Ret in H as (h0 & h1 & [= <- <-] & H).
    apply bind_Ret in H as (u1 & h2 & Hstep & H).
    eapply preserved_but_trans; [|eapply IH, H].
    destruct (propertyIsUnsafe h t k).
    + injection Hstep as _ <-. apply preserved_but_refl.
    + destruct (propertyIsOnObject h t k && isMergeableObject h (member h s k)).
      * apply bind_Ret in Hstep as (v & h3 & Hv & Hw).
        eapply preserved_but_trans;
          [eapply preserved_is_but, rec_frames, Hv | eapply write_prop_but, Hw].
      * apply bind_Ret in Hstep as (v & h3 & Hv & Hw).
        eapply preserved_but_trans;
          [eapply preserved_is_but, clone_frames, Hv | eapply write_prop_but, Hw].
Qed.

Lemma getKeys_Ret (v : value) (h : heap) (ks : list string) (h' : heap) :
  getKeys v h = Ret ks h' -> h' = h /\ ks = map fst (own_props h v).
Proof.
  unfold getKeys. destruct v; try discriminate;
    intros H; apply bind_Ret in H as (h0 & h1 & [= <- <-] & [= <- <-]); auto.
Qed.

Lemma mergeObject_frames (t s : value) : frames (mergeObject rec t s).
Proof.
  intros h r h' H. unfold mergeObject in H.
  apply bind_Ret in H as (d & h1 & [= <- <-] & H).
  apply bind_Ret in H as (h0 & h2 & [= <- <-] & H).
  apply bind_Ret in H as (u & h3 & Hcopy & H).
  apply bind_Ret in H as (ks & h4 & Hks & H).
  apply getKeys_Ret in Hks as [-> ->].
  apply bind_Ret in H as (u2 & h5 & Hmerge & [= <- <-]).
  apply mergeSourceKeys_but in Hmerge.
  assert (Hc : preserved_but (length h) (h ++ [OPlain []]) h3).
  { destruct (isMergeableObject (h ++ [OPlain []]) t).
    - apply bind_Ret in Hcopy as (ks & h6 & Hks & Hcopy).
      apply getKeys_Ret in Hks as [-> ->].
      eapply copyTargetKeys_but, Hcopy.
    - injection Hcopy as _ <-. apply preserved_but_refl. }
  eapply preserved_but_fresh with (d := length h) (h := h ++ [OPlain []]).
  - apply lookup_ge_None. lia.
  - apply preserved_alloc.
  - eapply preserved_but_trans; eassumption.
Qed.

End Frame.

Lemma deepmerge_frames (fuel : nat) : forall t s, frames (deepmerge fuel t s).
Proof.
  induction fuel as [|fuel IH]; intros t s h r h' H; simpl in H; [discriminate|].
  apply bind_Ret in H as (h0 & h1 & [= <- <-] & H).
  destruct (negb (Bool.eqb (isArray h s) (isArray h t))).
  - eapply clone_frames; eauto.
  - destruct (isArray h s).
    + eapply defaultArrayMerge_frames; eauto.
    + eapply mergeObject_frames; eauto.
Qed.

End DeepmergeFacts.

(** ** Bounded values *)

Lemma bounded_ref (n : nat) (h : heap) (a : addr) :
  bounded (S n) h (VRef a)
  = match h !! a with
    | Some (OPlain ps) => forallb (fun kv => bounded n h (snd kv)) ps
    | Some (OArray es) => forallb (bounded n h) es
    | Some (OHost _ _) => true
    | None => false
    end.
Proof. reflexivity. Qed.

Lemma bounded_valid (n : nat) (h : heap) (v : value) :
  bounded n h v = true -> valid h v = true.
Proof.
  destruct v; try reflexivity. destruct n; [intros [=]|].
  rewrite bounded_ref. destruct (h !! a) eqn:E; [|intros [=]]. intros _.
  apply Nat.ltb_lt. eapply lookup_lt_Some, E.
Qed.

Lemma bounded_preserved (n : nat) (h h' : heap) (v : value) :
  preserved h h' -> bounded n h v = true -> bounded n h' v = true.
Proof.
  intros Hp. revert v. induction n as [|n IH]; intros v; destruct v; try reflexivity.
  - intros [=].
  - rewrite !bounded_ref.
    destruct (h !! a) as [o|] eqn:E; [|intros [=]].
    rewrite (Hp a o E). destruct o as [ps|es|c sl]; auto.
    + rewrite !forallb_forall. intros H kv Hin. apply IH, H, Hin.
    + rewrite !forallb_forall. intros H e Hin. apply IH, H, Hin.
Qed.

Lemma bounded_S (n : nat) (h : heap) (v : value) :
  bounded n h v = true -> bounded (S n) h v = true.
Proof.
  revert v. induction n as [|n IH]; intros v; destruct v; try reflexivity.
  - intros [=].
  - rewrite !bounded_ref. destruct (h !! a) as [[ps|es|c sl]|]; auto.
    + rewrite !forallb_forall. intros H kv Hin. apply IH, H, Hin.
    + rewrite !forallb_forall. intros H e Hin. apply IH, H, Hin.
Qed.

Lemma get_index_props_In (k : string) (x : value) (es : list value) :
  get_prop k (index_props es) = Some x -> In x es.
Proof.
  intros H. apply get_prop_In in H. unfold index_props in H.
  apply in_map_iff in H as ((k' & x') & E & Hin). simpl in E. subst x'.
  apply list_elem_of_In in Hin. apply elem_of_lookup_imap in Hin
    as (i & y & Hy & Hl). inversion Hy; subst.
  apply list_elem_of_In. eapply list_elem_of_lookup_2, Hl.
Qed.

Lemma bounded_member (n : nat) (h : heap) (v : value) (k : string) :
  bounded (S n) h v = true -> bounded n h (member h v k) = true.
Proof.
  unfold member. destruct v; cbn [own_props get_prop];
    try (intros _; destruct n; reflexivity).
  - intros _. destruct (get_prop k _) as [x|] eqn:E; [|destruct n; reflexivity].
    apply get_index_props_In in E. apply in_map_iff in E as (c & <- & _).
    destruct n; reflexivity.
  - rewrite bounded_ref.
    destruct (h !! a) as [[ps|es|c sl]|]; [| | |intros [=]].
    + rewrite forallb_forall. intros H.
      destruct (get_prop k ps) as [x|] eqn:E; [|destruct n; reflexivity].
      apply get_prop_In in E. apply in_map_iff in E as (kv & <- & Hin).
      apply H, Hin.
    + rewrite forallb_forall. intros H.
      destruct (get_prop k (index_props es)) as [x|] eqn:E; [|destruct n; reflexivity].
      apply get_index_props_In in E. apply H, E.
    + intros _. simpl. destruct n; reflexivity.
Qed.

Lemma bounded_elements (n : nat) (h : heap) (v : value) :
  bounded (S n) h v = true -> forall e, In e (elements h v) -> bounded n h e = true.
Proof.
  destruct v; try (intros _ e []). rewrite bounded_ref. cbn [elements].
  destruct (h !! a) as [[ps|es|c sl]|]; try (intros _ e []).
  rewrite forallb_forall. auto.
Qed.

Lemma bounded_prim (n : nat) (h : heap) (v : value) :
  isObject v = false -> bounded n h v = true.
Proof.
  destruct v; intros H; try (destruct n; reflexivity).
  vm_compute in H. discriminate H.
Qed.

Lemma isObject_ref (v : value) : isObject v = true -> exists a, v = VRef a.
Proof. destruct v; intros H; try (vm_compute in H; discriminate H). eauto. Qed.

(** ** [deepmerge] returns on bounded values *)

Module DeepmergeTermination.

Import Deepmerge DeepmergeFacts.

Lemma mergeable_ref (h : heap) (v : value) :
  isMergeableObject h v = true -> exists a, v = VRef a.
Proof.
  unfold isMergeableObject. intros H. apply andb_prop in H as [H _].
  now apply isObject_ref.
Qed.

Lemma bounded_empty (n : nat) (h : heap) (o : object) :
  children o = [] -> bounded (S n) (h ++ [o]) (VRef (length h)) = true.
Proof.
  intros Ho. rewrite bounded_ref, lookup_app_r by lia.
  rewrite Nat.sub_diag. simpl. destruct o as [ps|es|c sl]; simpl in Ho; subst; auto.
  destruct ps; [reflexivity | discriminate Ho].
Qed.

Section Level.

Variable rec : value -> value -> M value.
Variable n : nat.
Hypothesis rec_frames : forall t s, frames (rec t s).
Hypothesis rec_finishes :
  forall t s h, bounded n h t = true -> bounded n h s = true -> isObject s = true ->
                finishes (rec t s) h.

Lemma clone_finishes (v : value) (h : heap) :
  bounded n h v = true -> finishes (cloneUnlessOtherwiseSpecified rec v) h.
Proof.
  intros Hb. unfold finishes, cloneUnlessOtherwiseSpecified.
  rewrite (bind_eq get_heap _ h h h eq_refl).
  destruct (isMergeableObject h v) eqn:Em; [|eexists _, _; reflexivity].
  rewrite (bind_eq _ _ _ _ _ (emptyTarget_Ret v h)).
  destruct (mergeable_ref h v Em) as [a ->].
  apply rec_finishes; [| |reflexivity].
  - destruct n as [|n']; [discriminate Hb|].
    apply bounded_empty. now destruct (isArray h (VRef a)).
  - eapply bounded_preserved; [apply preserved_alloc | exact Hb].
Qed.

Lemma cloneAll_finishes (es : list value) :
  forall h, (forall e, In e es -> bounded n h e = true) ->
            finishes (cloneAll rec es) h.
Proof.
  induction es as [|e es IH]; intros h Hb; unfold finishes; simpl.
  - eexists _, _. reflexivity.
  - destruct (clone_finishes e h (Hb e (or_introl eq_refl))) as (v & h1 & Hv).
    rewrite (bind_eq _ _ _ _ _ Hv).
    pose proof (clone_frames rec rec_frames e h v h1 Hv) as Hp.
    assert (Hb1 : forall e', In e' es -> bounded n h1 e' = true).
    { intros e' Hin. eapply bounded_preserved; [exact Hp|]. apply Hb. now right. }
    destruct (IH h1 Hb1) as (vs & h2 & Hvs).
    rewrite (bind_eq _ _ _ _ _ Hvs). eexists _, _. reflexivity.
Qed.

Lemma defaultArrayMerge_finishes (t s : value) (h : heap) :
  bounded (S n) h t = true -> bounded (S n) h s = true ->
  finishes (defaultArrayMerge rec t s) h.
Proof.
  intros Ht Hs. unfold defaultArrayMerge.
  unfold finishes. rewrite (bind_eq get_heap _ h h h eq_refl).
  assert (Hb : forall e, In e (elements h t ++ elements h s) -> bounded n h e = true).
  { intros e Hin. apply in_app_or in Hin as [Hin|Hin];
      [apply (bounded_elements n h t Ht e Hin) | apply (bounded_elements n h s Hs e Hin)]. }
  destruct (cloneAll_finishes _ h Hb) as (vs & h1 & Hvs).
  rewrite (bind_eq _ _ _ _ _ Hvs). eexists _, _. reflexivity.
Qed.

Section Loops.

Variable h0 : heap.
Variable d : addr.
Variables t s : value.
Hypothesis d_fresh : h0 !! d = None.
Hypothesis t_bounded : bounded (S n) h0 t = true.
Hypothesis s_bounded : bounded (S n) h0 s = true.

Lemma copyTargetKeys_finishes (keys : list string) :
  forall h, preserved h0 h -> finishes (copyTargetKeys rec d t keys) h.
Proof.
  induction keys as [|k keys IH]; intros h Hp; unfold finishes; simpl.
  - eexists _, _. reflexivity.
  - rewrite (bind_eq get_heap _ h h h eq_refl).
    assert (Hmt : bounded n h (member h t k) = true).
    { rewrite (member_preserved h0 h t k (bounded_valid _ _ _ t_bounded) Hp).
      eapply bounded_preserved; [exact Hp|]. now apply bounded_member. }
    destruct (clone_finishes (member h t k) h Hmt) as (v & h1 & Hv).
    rewrite (bind_eq _ _ _ _ _ Hv).
    destruct (write_prop_Ret d k v h1) as (h2 & Hw & Hb & _).
    rewrite (bind_eq _ _ _ _ _ Hw).
    apply IH. eapply preserved_but_fresh; [exact d_fresh | | exact Hb].
    eapply preserved_trans; [exact Hp|]. eapply clone_frames; eauto.
Qed.

Lemma mergeSourceKeys_finishes (keys : list string) :
  forall h, preserved h0 h -> finishes (mergeSourceKeys rec d t s keys) h.
Proof.
  induction keys as [|k keys IH]; intros h Hp; unfold finishes; simpl.
  - eexists _, _. reflexivity.
  - rewrite (bind_eq get_heap _ h h h eq_refl).
    assert (Hms : bounded n h (member h s k) = true).
    { rewrite (member_preserved h0 h s k (bounded_valid _ _ _ s_bounded) Hp).
      eapply bounded_preserved; [exact Hp|]. now apply bounded_member. }
    assert (Hmt : bounded n h (member h t k) = true).
    { rewrite (member_preserved h0 h t k (bounded_valid _ _ _ t_bounded) Hp).
      eapply bounded_preserved; [exact Hp|]. now apply bounded_member. }
    assert (Hstep : exists u h2,
               (if propertyIsUnsafe h t k then ret tt
                else if propertyIsOnObject h t k && isMergeableObject h (member h s k)
                     then let* v := rec (member h t k) (member h s k) in
                          write_prop d k v
                     else let* v := cloneUnlessOtherwiseSpecified rec (member h s k) in
                          write_prop d k v) h = Ret u h2 /\ preserved h0 h2).
    { destruct (propertyIsUnsafe h t k); [eexists _, _; split; [reflexivity|exact Hp]|].
      destruct (propertyIsOnObject h t k && isMergeableObject h (member h s k)) eqn:E.
      - apply andb_prop in E as [_ E]. apply mergeable_ref in E as [a Ea].
        assert (Hobj : isObject (member h s k) = true) by now rewrite Ea.
        destruct (rec_finishes (member h t k) (member h s k) h Hmt Hms Hobj)
          as (v & h1 & Hv).
        rewrite (bind_eq _ _ _ _ _ Hv).
        destruct (write_prop_Ret d k v h1) as (h2 & Hw & Hb & _).
        exists tt, h2. split; [exact Hw|].
        eapply preserved_but_fresh; [exact d_fresh | | exact Hb].
        eapply preserved_trans; [exact Hp|]. eapply rec_frames; eauto.
      - destruct (clone_finishes (member h s k) h Hms) as (v & h1 & Hv).
        rewrite (bind_eq _ _ _ _ _ Hv).
        destruct (write_prop_Ret d k v h1) as (h2 & Hw & Hb & _).
        exists tt, h2. split; [exact Hw|].
        eapply preserved_but_fresh; [exact d_fresh | | exact Hb].
        eapply preserved_trans; [exact Hp|]. eapply clone_frames; eauto. }
    destruct Hstep as (u & h2 & Hstep & Hp2).
    rewrite (bind_eq _ _ _ _ _ Hstep). now apply IH.
Qed.

End Loops.

Lemma mergeObject_finishes (t s : value) (h : heap) :
  bounded (S n) h t = true -> bounded (S n) h s = true -> isObject s = true ->
  finishes (mergeObject rec t s) h.
Proof.
  intros Ht Hs Hobj. apply isObject_ref in Hobj as [b ->].
  unfold mergeObject, finishes.
  rewrite (bind_eq (alloc (OPlain [])) _ h (length h) (h ++ [OPlain []]) eq_refl).
  rewrite (bind_eq get_heap _ _ _ _ eq_refl).
  assert (Hfresh : h !! length h = None) by (apply lookup_ge_None; lia).
  assert (Hcopy : exists u h2,
             (if isMergeableObject (h ++ [OPlain []]) t
              then let* keys := getKeys t in copyTargetKeys rec (length h) t keys
              else ret tt) (h ++ [OPlain []]) = Ret u h2 /\ preserved h h2).
  { destruct (isMergeableObject (h ++ [OPlain []]) t) eqn:Em.
    - destruct (mergeable_ref _ _ Em) as [a ->].
      unfold getKeys. rewrite (bind_eq (let* h1 := get_heap in ret _) _ _ _ _ eq_refl).
      destruct (copyTargetKeys_finishes h (length h) (VRef a) Hfresh Ht
                  (map fst (own_props (h ++ [OPlain []]) (VRef a)))
                  (h ++ [OPlain []]) (preserved_alloc _ _)) as (u & h2 & Hc).
      exists u, h2. split; [exact Hc|].
      eapply preserved_but_fresh; [exact Hfresh | apply preserved_alloc|].
      eapply copyTargetKeys_but; eauto.
    - exists tt, (h ++ [OPlain []]). split; [reflexivity | apply preserved_alloc]. }
  destruct Hcopy as (u & h2 & Hcopy & Hp2).
  rewrite (bind_eq _ _ _ _ _ Hcopy).
  unfold getKeys. rewrite (bind_eq (let* h1 := get_heap in ret _) _ _ _ _ eq_refl).
  destruct (mergeSourceKeys_finishes h (length h) t (VRef b) Hfresh Ht Hs
              (map fst (own_props h2 (VRef b))) h2 Hp2) as (u2 & h3 & Hm).
  rewrite (bind_eq _ _ _ _ _ Hm). eexists _, _. reflexivity.
Qed.

End Level.

Lemma deepmerge_finishes (n : nat) :
  forall fuel t s h,
    2 * n <= fuel -> bounded n h t = true -> bounded n h s = true ->
    isObject s = true -> finishes (deepmerge fuel t s) h.
Proof.
  induction n as [|n IH]; intros fuel t s h Hfuel Ht Hs Hobj.
  - apply isObject_ref in Hobj as [a ->]. discriminate Hs.
  - destruct fuel as [|[|fuel]]; try lia.
    assert (Hrec1 : forall t s h, bounded n h t = true -> bounded n h s = true ->
              isObject s = true -> finishes (deepmerge (S fuel) t s) h).
    { intros; apply IH; auto; lia. }
    assert (Hrec0 : forall t s h, bounded n h t = true -> bounded n h s = true ->
              isObject s = true -> finishes (deepmerge fuel t s) h).
    { intros; apply IH; auto; lia. }
    change (deepmerge (S (S fuel)) t s) with
      (let* h := get_heap in
       if negb (Bool.eqb (isArray h s) (isArray h t))
       then cloneUnlessOtherwiseSpecified (deepmerge (S fuel)) s
       else if isArray h s then defaultArrayMerge (deepmerge (S fuel)) t s
            else mergeObject (deepmerge (S fuel)) t s).
    unfold finishes. rewrite (bind_eq get_heap _ h h h eq_refl).
    destruct (negb (Bool.eqb (isArray h s) (isArray h t))) eqn:Emis.
    + unfold cloneUnlessOtherwiseSpecified.
      rewrite (bind_eq get_heap _ h h h eq_refl).
      destruct (isMergeableObject h s) eqn:Em; [|eexists _, _; reflexivity].
      rewrite (bind_eq _ _ _ _ _ (emptyTarget_Ret s h)).
      set (e := if isArray h s then OArray [] else OPlain []).
      assert (He : bounded (S n) (h ++ [e]) (VRef (length h)) = true).
      { apply bounded_empty. unfold e. now destruct (isArray h s). }
      assert (Hs1 : bounded (S n) (h ++ [e]) s = true).
      { eapply bounded_preserved; [apply preserved_alloc | exact Hs]. }
      change (deepmerge (S fuel) (VRef (length h)) s) with
        (let* h1 := get_heap in
         if negb (Bool.eqb (isArray h1 s) (isArray h1 (VRef (length h))))
         then cloneUnlessOtherwiseSpecified (deepmerge fuel) s
         else if isArray h1 s then defaultArrayMerge (deepmerge fuel) (VRef (length h)) s
              else mergeObject (deepmerge fuel) (VRef (length h)) s).
      rewrite (bind_eq get_heap _ _ _ _ eq_refl).
      rewrite (isArray_preserved h (h ++ [e]) s (bounded_valid _ _ _ Hs)
                 (preserved_alloc _ _)).
      assert (Ee : isArray (h ++ [e]) (VRef (length h)) = isArray h s).
      { simpl. rewrite lookup_app_r by lia. rewrite Nat.sub_diag. simpl.
        unfold e. now destruct (isArray h s). }
      rewrite Ee. rewrite eqb_reflx. cbn [negb].
      destruct (isArray h s).
      * apply (defaultArrayMerge_finishes (deepmerge fuel) n
                 (deepmerge_frames fuel) Hrec0); auto.
      * apply (mergeObject_finishes (deepmerge fuel) n
                 (deepmerge_frames fuel) Hrec0); auto.
    + destruct (isArray h s).
      * apply (defaultArrayMerge_finishes (deepmerge (S fuel)) n
                 (deepmerge_frames (S fuel)) Hrec1); auto.
      * apply (mergeObject_finishes (deepmerge (S fuel)) n
                 (deepmerge_frames (S fuel)) Hrec1); auto.
Qed.

End DeepmergeTermination.

(** ** What [deepmerge] returns *)

Module DeepmergeResult.

Import Deepmerge DeepmergeFacts.

Lemma made_later (m : M value) (d : addr) (h0 h1 h2 : heap) (v : value) :
  made m d h0 h1 v -> preserved_but d h1 h2 -> made m d h0 h2 v.
Proof.
  intros (ha & hb & Hp & Hd & Hm & Hb) H12.
  exists ha, hb. repeat split; auto. eapply preserved_but_trans; eauto.
Qed.

Section Loops.

Variable rec : value -> value -> M value.
Hypothesis rec_frames : forall t s, frames (rec t s).

Variable h0 : heap.
Variable d : addr.
Variables t s : value.
Hypothesis d_fresh : h0 !! d = None.
Hypothesis t_valid : valid h0 t = true.
Hypothesis s_valid : valid h0 s = true.

Lemma plain_kept (h h' : heap) (ps : props) :
  preserved h h' -> h !! d = Some (OPlain ps) -> h' !! d = Some (OPlain ps).
Proof. intros Hp H. now apply Hp. Qed.

(** The destination keeps distinct keys. *)
Lemma copyTargetKeys_keys (keys : list string) :
  forall h1 u h2 ps1,
    copyTargetKeys rec d t keys h1 = Ret u h2 ->
    h1 !! d = Some (OPlain ps1) -> NoDup (map fst ps1) ->
    exists ps2, h2 !! d = Some (OPlain ps2) /\ NoDup (map fst ps2).
Proof.
  induction keys as [|key keys IH]; intros h1 u h2 ps1 H Hd Hnd; simpl in H.
  - injection H as _ <-. eauto.
  - apply bind_Ret in H as (hx & hy & [= <- <-] & H).
    apply bind_Ret in H as (v & ha & Hv & H).
    apply bind_Ret in H as (u1 & hw & Hw & H).
    pose proof (clone_frames rec rec_frames _ _ _ _ Hv) as Hfa.
    destruct (write_prop_Ret d key v ha) as (hw' & Ew & _ & _ & Hset).
    rewrite Ew in Hw. assert (E : hw' = hw) by congruence. subst hw'.
    eapply IH; [exact H | apply Hset, Hfa, Hd | now apply set_prop_keys].
Qed.

Lemma mergeSourceKeys_keys (keys : list string) :
  forall h1 u h2 ps1,
    mergeSourceKeys rec d t s keys h1 = Ret u h2 ->
    h1 !! d = Some (OPlain ps1) -> NoDup (map fst ps1) ->
    exists ps2, h2 !! d = Some (OPlain ps2) /\ NoDup (map fst ps2).
Proof.
  induction keys as [|key keys IH]; intros h1 u h2 ps1 H Hd Hnd; simpl in H.
  - injection H as _ <-. eauto.
  - apply bind_Ret in H as (hx & hy & [= <- <-] & H).
    apply bind_Ret in H as (u1 & hw & Hstep & H).
    destruct (propertyIsUnsafe h1 t key).
    + assert (E : hw = h1) by (unfold ret in Hstep; congruence). subst hw.
      eapply IH; eauto.
    + assert (Hone : exists v, hw !! d = Some (OPlain (set_prop key v ps1))).
      { destruct (propertyIsOnObject h1 t key
                  && isMergeableObject h1 (member h1 s key)).
        - apply bind_Ret in Hstep as (v & ha & Hv & Hw).
          pose proof (rec_frames _ _ _ _ _ Hv) as Hfa.
          destruct (write_prop_Ret d key v ha) as (hw' & Ew & _ & _ & Hset).
          rewrite Ew in Hw. assert (E : hw' = hw) by congruence. subst hw'.
          exists v. apply Hset, Hfa, Hd.
        - apply bind_Ret in Hstep as (v & ha & Hv & Hw).
          pose proof (clone_frames rec rec_frames _ _ _ _ Hv) as Hfa.
          destruct (write_prop_Ret d key v ha) as (hw' & Ew & _ & _ & Hset).
          rewrite Ew in Hw. assert (E : hw' = hw) by congruence. subst hw'.
          exists v. apply Hset, Hfa, Hd. }
      destruct Hone as (v & Hdw).
      eapply IH; [exact H | exact Hdw | now apply set_prop_keys].
Qed.


Lemma copyTargetKeys_result (keys : list string) :
  forall h1 u h2 ps1,
    copyTargetKeys rec d t keys h1 = Ret u h2 ->
    preserved h0 h1 -> h1 !! d = Some (OPlain ps1) ->
    exists ps2, h2 !! d = Some (OPlain ps2) /\
      forall k,
        (k ∉ keys -> get_prop k ps2 = get_prop k ps1) /\
        (k ∈ keys -> exists v, get_prop k ps2 = Some v /\
           made (cloneUnlessOtherwiseSpecified rec (member h0 t k)) d h0 h2 v).
Proof.
  induction keys as [|key keys IH]; intros h1 u h2 ps1 H Hp Hd; simpl in H.
  - injection H as _ <-. exists ps1. split; [exact Hd|]. intros k. split; [auto|].
    intros Hin. now apply elem_of_nil in Hin.
  - apply bind_Ret in H as (hx & hy & [= <- <-] & H).
    apply bind_Ret in H as (v & ha & Hv & H).
    apply bind_Ret in H as (u1 & hw & Hw & H).
    rewrite (member_preserved h0 h1 t key t_valid Hp) in Hv.
    pose proof (clone_frames rec rec_frames _ _ _ _ Hv) as Hfa.
    destruct (write_prop_Ret d key v ha) as (hw' & Ew & Hbw & _ & Hset).
    rewrite Ew in Hw. injection Hw as _ <-.
    specialize (Hset ps1 (Hfa _ _ Hd)).
    assert (Hpw : preserved h0 hw').
    { eapply preserved_but_fresh; [exact d_fresh | | exact Hbw].
      eapply preserved_trans; eauto. }
    destruct (IH hw' u h2 _ H Hpw Hset) as (ps2 & Hd2 & Hk).
    exists ps2. split; [exact Hd2|]. intros k. split.
    + intros Hnot. apply not_elem_of_cons in Hnot as [Hne Hnot].
      rewrite (proj1 (Hk k) Hnot). now apply get_set_ne.
    + intros Hin. destruct (decide (k ∈ keys)) as [Hin'|Hnot].
      * exact (proj2 (Hk k) Hin').
      * apply elem_of_cons in Hin as [->|Hin]; [|contradiction].
        exists v. split.
        -- rewrite (proj1 (Hk key) Hnot). apply get_set_eq.
        -- exists h1, ha. repeat split; auto.
           ++ eapply lookup_lt_Some, Hd.
           ++ eapply preserved_but_trans; [exact Hbw|].
              eapply copyTargetKeys_but; eauto.
Qed.

Lemma assigned_later (k : string) (h1 h2 : heap) (v : value) :
  assigned rec h0 d t s k h1 v -> preserved_but d h1 h2 ->
  assigned rec h0 d t s k h2 v.
Proof.
  unfold assigned. destruct (_ && _); intros; eapply made_later; eauto.
Qed.

Lemma member_valid (h : heap) (v : value) (k : string) :
  wf_heap h = true -> valid h v = true -> valid h (member h v k) = true.
Proof.
  intros Hwf Hv. unfold member. destruct (get_prop k (own_props h v)) as [x|] eqn:E;
    [|reflexivity].
  destruct v; simpl in E; try discriminate E.
  - apply get_index_props_In in E. apply in_map_iff in E as (c & <- & _). reflexivity.
  - destruct (h !! a) as [[ps|es|c sl]|] eqn:Ea; try discriminate E.
    + eapply wf_children; eauto. simpl. eapply get_prop_In, E.
    + eapply wf_children; eauto. simpl. eapply get_index_props_In, E.
Qed.

Hypothesis s_members : forall k, valid h0 (member h0 s k) = true.

Lemma mergeSourceKeys_result (keys : list string) :
  forall h1 u h2 ps1,
    mergeSourceKeys rec d t s keys h1 = Ret u h2 ->
    preserved h0 h1 -> h1 !! d = Some (OPlain ps1) ->
    exists ps2, h2 !! d = Some (OPlain ps2) /\
      forall k,
        (k ∉ keys \/ propertyIsUnsafe h0 t k = true ->
         get_prop k ps2 = get_prop k ps1) /\
        (k ∈ keys -> propertyIsUnsafe h0 t k = false ->
         exists v, get_prop k ps2 = Some v /\ assigned rec h0 d t s k h2 v).
Proof.
  induction keys as [|key keys IH]; intros h1 u h2 ps1 H Hp Hd; simpl in H.
  - injection H as _ <-. exists ps1. split; [exact Hd|]. intros k. split; [auto|].
    intros Hin. now apply elem_of_nil in Hin.
  - apply bind_Ret in H as (hx & hy & [= <- <-] & H).
    apply bind_Ret in H as (u1 & hw & Hstep & H).
    rewrite (propertyIsUnsafe_preserved h0 h1 t key t_valid Hp) in Hstep.
    rewrite (propertyIsOnObject_preserved h0 h1 t key t_valid Hp) in Hstep.
    rewrite (member_preserved h0 h1 t key t_valid Hp) in Hstep.
    rewrite (member_preserved h0 h1 s key s_valid Hp) in Hstep.
    rewrite (isMergeableObject_preserved h0 h1 (member h0 s key)
               (s_members key) Hp) in Hstep.
    destruct (propertyIsUnsafe h0 t key) eqn:Eun.
    + injection Hstep as _ <-.
      destruct (IH h1 u h2 ps1 H Hp Hd) as (ps2 & Hd2 & Hk).
      exists ps2. split; [exact Hd2|]. intros k. split.
      * intros [Hnot|Hun]; [|apply (proj1 (Hk k)); now right].
        apply not_elem_of_cons in Hnot as [_ Hnot]. apply (proj1 (Hk k)). now left.
      * intros Hin Hsafe. apply elem_of_cons in Hin as [->|Hin]; [congruence|].
        exact (proj2 (Hk k) Hin Hsafe).
    + assert (Hone : exists v ha,
                 hw = <[d := OPlain (set_prop key v ps1)]> ha /\
                 ha !! d = Some (OPlain ps1) /\ preserved h1 ha /\
                 (forall hN, preserved_but d ha hN -> assigned rec h0 d t s key hN v)).
      { unfold assigned.
        destruct (propertyIsOnObject h0 t key
                  && isMergeableObject h0 (member h0 s key)).
        - apply bind_Ret in Hstep as (v & ha & Hv & Hw).
          pose proof (rec_frames _ _ _ _ _ Hv) as Hfa.
          unfold write_prop in Hw. rewrite (Hfa _ _ Hd) in Hw. injection Hw as <-.
          exists v, ha. repeat split; auto.
          intros hN HN. exists h1, ha. repeat split; auto.
          eapply lookup_lt_Some, Hd.
        - apply bind_Ret in Hstep as (v & ha & Hv & Hw).
          pose proof (clone_frames rec rec_frames _ _ _ _ Hv) as Hfa.
          unfold write_prop in Hw. rewrite (Hfa _ _ Hd) in Hw. injection Hw as <-.
          exists v, ha. repeat split; auto.
          intros hN HN. exists h1, ha. repeat split; auto.
          eapply lookup_lt_Some, Hd. }
      destruct Hone as (v & ha & -> & Hda & Hfa & Hass).
      assert (Hbw : preserved_but d ha (<[d := OPlain (set_prop key v ps1)]> ha)).
      { intros a o Hne Ha. now rewrite list_lookup_insert_ne. }
      assert (Hset : (<[d := OPlain (set_prop key v ps1)]> ha) !! d
                     = Some (OPlain (set_prop key v ps1))).
      { apply list_lookup_insert_eq. eapply lookup_lt_Some, Hda. }
      assert (Hpw : preserved h0 (<[d := OPlain (set_prop key v ps1)]> ha)).
      { eapply preserved_but_fresh; [exact d_fresh | | exact Hbw].
        eapply preserved_trans; eauto. }
      destruct (IH _ u h2 _ H Hpw Hset) as (ps2 & Hd2 & Hk).
      exists ps2. split; [exact Hd2|]. intros k. split.
      * intros [Hnot|Hun].
        -- apply not_elem_of_cons in Hnot as [Hne Hnot].
           rewrite (proj1 (Hk k) (or_introl Hnot)). now apply get_set_ne.
        -- rewrite (proj1 (Hk k) (or_intror Hun)). apply get_set_ne.
           intros ->. congruence.
      * intros Hin Hsafe. destruct (decide (k ∈ keys)) as [Hin'|Hnot].
        -- exact (proj2 (Hk k) Hin' Hsafe).
        -- apply elem_of_cons in Hin as [->|Hin]; [|contradiction].
           exists v. split.
           ++ rewrite (proj1 (Hk key) (or_introl Hnot)). apply get_set_eq.
           ++ apply Hass. eapply preserved_but_trans; [exact Hbw|].
              eapply mergeSourceKeys_but; eauto.
Qed.

End Loops.


Section Object.

Variable rec : value -> value -> M value.
Hypothesis rec_frames : forall t s, frames (rec t s).

(** The fresh object [mergeObject] returns, key by key. *)
Lemma mergeObject_result (t s : value) (h : heap) (r : value) (h' : heap) :
  (forall k, valid h (member h s k) = true) ->
  valid h t = true -> valid h s = true ->
  mergeObject rec t s h = Ret r h' ->
  r = VRef (length h) /\
  exists ps, h' !! length h = Some (OPlain ps) /\ NoDup (map fst ps) /\
    forall k,
      (k ∈ map fst (own_props h s) -> propertyIsUnsafe h t k = false ->
       exists v, get_prop k ps = Some v /\ assigned rec h (length h) t s k h' v) /\
      (k ∉ map fst (own_props h s) \/ propertyIsUnsafe h t k = true ->
       (isMergeableObject h t = true -> k ∈ map fst (own_props h t) ->
        exists v, get_prop k ps = Some v /\
          made (cloneUnlessOtherwiseSpecified rec (member h t k)) (length h) h h' v) /\
       (isMergeableObject h t = false \/ k ∉ map fst (own_props h t) ->
        get_prop k ps = None)).
Proof.
  intros Hwf Ht Hs H. unfold mergeObject in H.
  apply bind_Ret in H as (d & h1 & [= <- <-] & H).
  apply bind_Ret in H as (hx & hy & [= <- <-] & H).
  apply bind_Ret in H as (u & h2 & Hcopy & H).
  apply bind_Ret in H as (ks & h3 & Hks & H).
  apply getKeys_Ret in Hks as [-> ->].
  apply bind_Ret in H as (u2 & h4 & Hmerge & [= <- <-]).
  split; [reflexivity|].
  assert (Hfresh : h !! length h = None) by (apply lookup_ge_None; lia).
  assert (Hp1 : preserved h (h ++ [OPlain []])) by apply preserved_alloc.
  assert (Hd1 : (h ++ [OPlain []]) !! length h = Some (OPlain [])).
  { rewrite lookup_app_r by lia. now rewrite Nat.sub_diag. }
  rewrite (isMergeableObject_preserved h _ t Ht Hp1) in Hcopy.
  assert (Hc : exists psc, h2 !! length h = Some (OPlain psc) /\ preserved h h2 /\
             NoDup (map fst psc) /\
             forall k,
               (isMergeableObject h t = true -> k ∈ map fst (own_props h t) ->
                exists v, get_prop k psc = Some v /\
                  made (cloneUnlessOtherwiseSpecified rec (member h t k))
                    (length h) h h2 v) /\
               (isMergeableObject h t = false \/ k ∉ map fst (own_props h t) ->
                get_prop k psc = None)).
  { destruct (isMergeableObject h t) eqn:Em.
    - apply bind_Ret in Hcopy as (ks & h5 & Hks & Hcopy).
      apply getKeys_Ret in Hks as [-> ->].
      rewrite (own_props_preserved h _ t Ht Hp1) in Hcopy.
      destruct (copyTargetKeys_result rec rec_frames h (length h) t Hfresh Ht
                  _ _ _ _ [] Hcopy Hp1 Hd1) as (psc & Hdc & Hk).
      exists psc. split; [exact Hdc|]. split; [|split].
      + eapply preserved_but_fresh; [exact Hfresh | exact Hp1|].
        eapply copyTargetKeys_but; eauto.
      + destruct (copyTargetKeys_keys rec rec_frames (length h) t _ _ _ _ []
                    Hcopy Hd1 (NoDup_nil_2 (A:=string))) as (psc' & Hdc' & Hnd).
        rewrite Hdc in Hdc'. now injection Hdc' as <-.
      + intros k. split.
        * intros _ Hin. exact (proj2 (Hk k) Hin).
        * intros [Hf|Hnot]; [discriminate Hf|]. now rewrite (proj1 (Hk k) Hnot).
    - injection Hcopy as _ <-. exists []. split; [exact Hd1|]. split; [exact Hp1|].
      split; [apply NoDup_nil_2|].
      intros k. split; [intros Hf; discriminate Hf | reflexivity]. }
  destruct Hc as (psc & Hdc & Hp2 & Hndc & Hkc).
  rewrite (own_props_preserved h _ s Hs Hp2) in Hmerge.
  destruct (mergeSourceKeys_result rec rec_frames h (length h) t s Hfresh Ht Hs Hwf
              _ _ _ _ psc Hmerge Hp2 Hdc) as (ps & Hd & Hk).
  exists ps. split; [exact Hd|]. split.
  { destruct (mergeSourceKeys_keys rec rec_frames (length h) t s _ _ _ _ psc
                Hmerge Hdc Hndc) as (ps' & Hd' & Hnd).
    rewrite Hd in Hd'. now injection Hd' as <-. }
  intros k. split.
  - intros Hin Hsafe. exact (proj2 (Hk k) Hin Hsafe).
  - intros Hskip. rewrite (proj1 (Hk k) Hskip). split.
    + intros Em Hin. destruct (proj1 (Hkc k) Em Hin) as (v & Hv & Hmade).
      exists v. split; [exact Hv|]. eapply made_later; [exact Hmade|].
      eapply mergeSourceKeys_but; eauto.
    + exact (proj2 (Hkc k)).
Qed.

(** A value that is not an object is returned as it is. *)
Lemma clone_prim (v : value) (h : heap) :
  isObject v = false -> cloneUnlessOtherwiseSpecified rec v h = Ret v h.
Proof.
  intros Hv. unfold cloneUnlessOtherwiseSpecified, isMergeableObject.
  rewrite (bind_eq get_heap _ h h h eq_refl). now rewrite Hv.
Qed.

Lemma made_clone_prim (v v' : value) (d : addr) (h0 hN : heap) :
  isObject v = false ->
  made (cloneUnlessOtherwiseSpecified rec v) d h0 hN v' -> v' = v.
Proof.
  intros Hv (ha & hb & _ & _ & Hm & _). rewrite (clone_prim v ha Hv) in Hm.
  now injection Hm as <- _.
Qed.

Lemma cloneAll_prims (es : list value) (h : heap) :
  (forall e, In e es -> isObject e = false) -> cloneAll rec es h = Ret es h.
Proof.
  induction es as [|e es IH]; intros Hes; [reflexivity|].
  cbn [cloneAll]. rewrite (bind_eq _ _ _ _ _ (clone_prim e h (Hes e (or_introl eq_refl)))).
  rewrite (bind_eq _ _ _ _ _ (IH (fun e' Hin => Hes e' (or_intror Hin)))).
  reflexivity.
Qed.


Lemma own_key_safe (h : heap) (t : value) (k : string) :
  hasOwnEnumerable h t k = true -> propertyIsUnsafe h t k = false.
Proof. unfold propertyIsUnsafe. intros ->. apply andb_false_r. Qed.

Lemma plain_name_safe (h : heap) (t : value) (k : string) :
  ~ In k Object_prototype_members -> propertyIsUnsafe h t k = false.
Proof.
  intros Hk. unfold propertyIsUnsafe, propertyIsOnObject.
  assert (E : existsb (String.eqb k) Object_prototype_members = false).
  { destruct (existsb _ _) eqn:E; [|reflexivity].
    apply existsb_exists in E as (x & Hin & Ex). apply String.eqb_eq in Ex.
    subst x. contradiction. }
  rewrite E. destruct t; try reflexivity;
    destruct (hasOwnEnumerable _ _ _); reflexivity.
Qed.

Lemma plain_mergeable (h : heap) (a : addr) (ps : props) :
  h !! a = Some (OPlain ps) -> isMergeableObject h (VRef a) = true.
Proof. intros H. unfold isMergeableObject, isSpecial. now rewrite H. Qed.

Lemma array_mergeable (h : heap) (a : addr) (es : list value) :
  h !! a = Some (OArray es) -> isMergeableObject h (VRef a) = true.
Proof. intros H. unfold isMergeableObject, isSpecial. now rewrite H. Qed.

Lemma prim_not_mergeable (h : heap) (v : value) :
  isObject v = false -> isMergeableObject h v = false.
Proof. intros H. unfold isMergeableObject. now rewrite H. Qed.

(** [mergeObject] on two plain objects, read key by key. *)
Lemma mergeObject_plain (ta sa : addr) (pst pss : props) (h : heap) (r : value)
  (h' : heap) :
  h !! ta = Some (OPlain pst) -> h !! sa = Some (OPlain pss) ->
  (forall k, valid h (member h (VRef sa) k) = true) ->
  mergeObject rec (VRef ta) (VRef sa) h = Ret r h' ->
  r = VRef (length h) /\
  exists psm, h' !! length h = Some (OPlain psm) /\ NoDup (map fst psm) /\
    (forall k v, get_prop k pss = Some v -> isObject v = false ->
                 propertyIsUnsafe h (VRef ta) k = false -> get_prop k psm = Some v) /\
    (forall k v, get_prop k pss = None -> get_prop k pst = Some v ->
                 isObject v = false -> get_prop k psm = Some v) /\
    (forall k, get_prop k pss = None -> get_prop k pst = None ->
               get_prop k psm = None) /\
    (forall k vt vs, get_prop k pst = Some vt -> get_prop k pss = Some vs ->
                     isMergeableObject h vs = true ->
                     exists v, get_prop k psm = Some v /\
                       made (rec vt vs) (length h) h h' v).
Proof.
  intros Hta Hsa Hsm H.
  assert (Hvt : valid h (VRef ta) = true).
  { simpl. apply Nat.ltb_lt. eapply lookup_lt_Some, Hta. }
  assert (Hvs : valid h (VRef sa) = true).
  { simpl. apply Nat.ltb_lt. eapply lookup_lt_Some, Hsa. }
  destruct (mergeObject_result _ _ _ _ _ Hsm Hvt Hvs H) as (-> & psm & Hm & Hnd & Hk).
  split; [reflexivity|]. exists psm. split; [exact Hm|]. split; [exact Hnd|].
  assert (Eot : own_props h (VRef ta) = pst) by (simpl; now rewrite Hta).
  assert (Eos : own_props h (VRef sa) = pss) by (simpl; now rewrite Hsa).
  rewrite Eot, Eos in Hk.
  assert (Emt : forall k, member h (VRef ta) k
                          = match get_prop k pst with Some x => x | None => VUndefined end).
  { intros k. unfold member. now rewrite Eot. }
  assert (Ems : forall k, member h (VRef sa) k
                          = match get_prop k pss with Some x => x | None => VUndefined end).
  { intros k. unfold member. now rewrite Eos. }
  split; [|split; [|split]].
  - intros k v Hs Hprim Hsafe.
    destruct (proj1 (Hk k) (get_prop_Some_elem _ _ _ Hs) Hsafe) as (v' & Hv' & Hass).
    unfold assigned in Hass. rewrite Ems, Hs in Hass.
    rewrite (prim_not_mergeable h v Hprim), andb_false_r in Hass.
    now rewrite (made_clone_prim v v' _ _ _ Hprim Hass) in Hv'.
  - intros k v Hs Ht Hprim.
    assert (Hskip : k ∉ map fst pss \/ propertyIsUnsafe h (VRef ta) k = true).
    { left. now apply get_prop_None. }
    destruct (proj1 (proj2 (Hk k) Hskip) (plain_mergeable _ _ _ Hta)
                (get_prop_Some_elem _ _ _ Ht)) as (v' & Hv' & Hmade).
    rewrite Emt, Ht in Hmade.
    now rewrite (made_clone_prim v v' _ _ _ Hprim Hmade) in Hv'.
  - intros k Hs Ht.
    apply (proj2 (proj2 (Hk k) (or_introl (proj1 (get_prop_None _ _) Hs)))).
    right. now apply get_prop_None.
  - intros k vt vs Ht Hs Hmerge.
    assert (Hown : hasOwnEnumerable h (VRef ta) k = true).
    { unfold hasOwnEnumerable. now rewrite Eot, Ht. }
    destruct (proj1 (Hk k) (get_prop_Some_elem _ _ _ Hs) (own_key_safe _ _ _ Hown))
      as (v' & Hv' & Hass).
    exists v'. split; [exact Hv'|].
    unfold assigned in Hass. rewrite Ems, Emt, Hs, Ht, Hmerge in Hass.
    unfold propertyIsOnObject in Hass. now rewrite Hown in Hass.
Qed.

End Object.

Lemma deepmerge_objects (fuel : nat) (t s : value) (h : heap) :
  isArray h t = false -> isArray h s = false ->
  deepmerge (S fuel) t s h = mergeObject (deepmerge fuel) t s h.
Proof.
  intros Ht Hs. cbn [deepmerge].
  rewrite (bind_eq get_heap _ h h h eq_refl). now rewrite Ht, Hs.
Qed.

Lemma deepmerge_arrays (fuel : nat) (t s : value) (h : heap) :
  isArray h t = true -> isArray h s = true ->
  deepmerge (S fuel) t s h = defaultArrayMerge (deepmerge fuel) t s h.
Proof.
  intros Ht Hs. cbn [deepmerge].
  rewrite (bind_eq get_heap _ h h h eq_refl). now rewrite Ht, Hs.
Qed.

(** Two arrays of values that are not objects merge into a fresh array
    holding the target's elements followed by the source's. *)
Lemma deepmerge_arrays_concat (fuel : nat) (ta sa : addr) (es1 es2 : list value)
  (h : heap) :
  h !! ta = Some (OArray es1) -> h !! sa = Some (OArray es2) ->
  (forall e, In e (es1 ++ es2) -> isObject e = false) ->
  deepmerge (S fuel) (VRef ta) (VRef sa) h
  = Ret (VRef (length h)) (h ++ [OArray (es1 ++ es2)]).
Proof.
  intros Hta Hsa Hprim. rewrite deepmerge_arrays by (simpl; now rewrite ?Hta, ?Hsa).
  unfold defaultArrayMerge. rewrite (bind_eq get_heap _ h h h eq_refl).
  simpl elements. rewrite Hta, Hsa.
  rewrite (bind_eq _ _ _ _ _ (cloneAll_prims (deepmerge fuel) (es1 ++ es2) h Hprim)).
  reflexivity.
Qed.

End DeepmergeResult.

(** ** The dispatch pipeline *)

Lemma stringify_Ret (v x : value) (h h' : heap) :
  Json.stringify v h = Ret x h' -> h' = h.
Proof.
  unfold Json.stringify. destruct (Json.serialize _ _ _ _) as [e|[t|]];
    intros H; try discriminate H; now injection H as _ <-.
Qed.

Lemma constructURL_of_Ret (url : string) (v : value) (h : heap) (u : string)
  (h' : heap) :
  constructURL_of url v h = Ret u h' ->
  h' = h /\ forall g, constructURL_of url v g = Ret u g.
Proof.
  unfold constructURL_of. destruct v; try destruct (ToBoolean _);
    intros H; try discriminate H; injection H as <- <-; auto.
Qed.

Lemma get_member_Ret (v : value) (k : string) (h : heap) (x : value) (h' : heap) :
  get_member v k h = Ret x h' -> h' = h /\ x = member h v k.
Proof.
  unfold get_member. destruct v; intros H; try discriminate H;
    apply bind_Ret in H as (hx & hy & [= <- <-] & [= <- <-]); auto.
Qed.

(** [optionsReducer] writes to the bag it is given and to nothing else,
    and in the bag to [headers] and [body] only. *)
Lemma optionsReducer_effect (o : addr) (m : HTTPMethod) (h : heap) (ps : props)
  (r : value) (h' : heap) :
  h !! o = Some (OPlain ps) ->
  optionsReducer o m h = Ret r h' ->
  r = VRef o /\ preserved_but o h h' /\
  exists ps', h' !! o = Some (OPlain ps') /\
    forall k, k <> "headers" -> k <> "body" -> get_prop k ps' = get_prop k ps.
Proof.
  intros Ho H. unfold optionsReducer in H.
  apply bind_Ret in H as (u & h1 & H & [= <- <-]).
  split; [reflexivity|].
  destruct (sends_body m).
  2:{ injection H as _ <-. split; [apply preserved_but_refl|]. eauto. }
  apply bind_Ret in H as (hx & hy & [= <- <-] & H).
  apply bind_Ret in H as (u1 & h2 & Hhdr & H).
  apply bind_Ret in H as (hx & hy & [= <- <-] & H).
  assert (Hh : preserved_but o h h2 /\
               exists ps2, h2 !! o = Some (OPlain ps2) /\
                 forall k, k <> "headers" -> get_prop k ps2 = get_prop k ps).
  { destruct (isObject _ && negb _).
    - apply bind_Ret in Hhdr as (a & h3 & Ha & Hw).
      unfold alloc in Ha.
      match type of Ha with Ret _ (h ++ [?x]) = _ => set (obj := x) in * end.
      injection Ha as <- <-.
      assert (Ho3 : (h ++ [obj]) !! o = Some (OPlain ps)).
      { now apply preserved_alloc. }
      destruct (write_prop_Ret o "headers" (VRef (length h)) (h ++ [obj]))
        as (h4 & Ew & Hb & _ & Hset).
      rewrite Ew in Hw. assert (E4 : h4 = h2) by congruence. subst h4. split.
      + eapply preserved_but_trans; [|exact Hb].
        apply preserved_is_but, preserved_alloc.
      + eexists. split; [apply Hset, Ho3|]. intros k Hk. now apply get_set_ne.
    - injection Hhdr as _ <-. split; [apply preserved_but_refl|]. eauto. }
  destruct Hh as (Hb2 & ps2 & Ho2 & Hk2).
  destruct (ToBoolean (member h2 (VRef o) "body")).
  - apply bind_Ret in H as (text & h3 & Hj & Hw).
    apply stringify_Ret in Hj as ->.
    destruct (write_prop_Ret o "body" text h2) as (h4 & Ew & Hb & _ & Hset).
    rewrite Ew in Hw. assert (E4 : h4 = h1) by congruence. subst h4. split.
    + eapply preserved_but_trans; eauto.
    + eexists. split; [apply Hset, Ho2|]. intros k Hk1 Hk3.
      rewrite get_set_ne by assumption. now apply Hk2.
  - injection H as _ <-. split; [exact Hb2|]. exists ps2. split; [exact Ho2|].
    intros k Hk1 _. now apply Hk2.
Qed.

(** The request [internalFetch] builds from the bag [ps0] it receives. *)
Lemma internalFetch_request (w : World) (url : string) (oo : addr) (ps0 : props)
  (m : HTTPMethod) (h : heap) (p : PendingCall) (h' : heap) :
  h !! oo = Some (OPlain ps0) ->
  NoDup (map fst ps0) ->
  internalFetch w url (VRef oo) m h = Ret p h' ->
  preserved h h' /\
  constructURL_of url (member h (VRef oo) "urlPrefix") h = Ret (request_url (pending_request p)) h /\
  pending_type p = member h (VRef oo) "type" /\
  (forall k, k ∉ ["type"; "urlPrefix"; "hooks"; "signal"; "headers"; "body"] ->
             get_prop k (request_init (pending_request p)) = get_prop k ps0) /\
  get_prop "signal" (request_init (pending_request p))
  = Some (slot h' (VRef (cancelRequest p)) "signal").
Proof.
  intros Hoo Hnd H. unfold internalFetch in H.
  apply bind_Ret in H as (hx & hy & [= <- <-] & H).
  apply bind_Ret in H as (hooks & h1 & Hhooks & H).
  assert (Hp1 : preserved h h1).
  { destruct (member h (VRef oo) "hooks");
      try (injection Hhooks as _ <-; apply preserved_refl).
    apply bind_Ret in Hhooks as (a & h2 & [= <- <-] & [= <- <-]).
    apply preserved_alloc. }
  clear Hhooks.
  apply bind_Ret in H as (options & h2 & [= <- <-] & H).
  apply bind_Ret in H as (resultURL & h3 & Hurl & H).
  destruct (constructURL_of_Ret _ _ _ _ _ Hurl) as [-> Hurl'].
  apply bind_Ret in H as (signal & h4 & [= <- <-] & H).
  apply bind_Ret in H as (ctl & h5 & [= <- <-] & H).
  apply bind_Ret in H as (hx & hy & [= <- <-] & H).
  apply bind_Ret in H as (init & h6 & [= <- <-] & H).
  apply bind_Ret in H as (reduced & h7 & Hred & H).
  apply bind_Ret in H as (hx & hy & [= <- <-] & H).
  apply bind_Ret in H as (beforeRequest & h8 & Hbr & H).
  apply get_member_Ret in Hbr as [-> ->].
  apply bind_Ret in H as (u & h9 & Hrun & [= <- <-]).
  assert (h9 = h7) as ->.
  { destruct (ToBoolean _); [|unfold ret in Hrun; congruence].
    destruct (runBeforeRequestHooks _ _ _ _); [discriminate Hrun|].
    unfold ret in Hrun. congruence. }
  clear Hrun. cbn [pending_request pending_type request_url request_init cancelRequest].
  set (rest := rest_props ["type"; "urlPrefix"; "hooks"] (own_props h (VRef oo))) in *.
  set (ha := h1 ++ [OPlain rest]) in *.
  set (hb := (ha ++ [OHost "AbortSignal" []])
               ++ [OHost "AbortController" [("signal", VRef (length ha))]]) in *.
  set (bag := spread (spread [] (own_props hb (VRef (length h1))))
                [("signal", slot hb (VRef (length (ha ++ [OHost "AbortSignal" []]))) "signal")])
    in *.
  assert (Hrest : own_props hb (VRef (length h1)) = rest).
  { simpl. unfold hb, ha. rewrite <- !app_assoc.
    rewrite lookup_app_r by lia. now rewrite Nat.sub_diag. }
  assert (Hinit : (hb ++ [OPlain bag]) !! length hb = Some (OPlain bag)).
  { rewrite lookup_app_r by lia. now rewrite Nat.sub_diag. }
  destruct (optionsReducer_effect _ _ _ _ _ _ Hinit Hred) as (-> & Hb7 & bag' & Hbag' & Hkeep).
  assert (Hpb : preserved h hb).
  { eapply preserved_trans; [exact Hp1|]. unfold hb, ha.
    eapply preserved_trans; [apply preserved_alloc|].
    eapply preserved_trans; apply preserved_alloc. }
  split; [|split; [|split; [|split]]].
  - eapply preserved_but_fresh with (d := length hb) (h := hb ++ [OPlain bag]).
    + apply lookup_ge_None. apply preserved_length in Hpb. lia.
    + eapply preserved_trans; [exact Hpb | apply preserved_alloc].
    + exact Hb7.
  - apply Hurl'.
  - reflexivity.
  - intros k Hk. simpl own_props. rewrite Hbag'.
    assert (Hk' : forall j, j ∈ ["type"; "urlPrefix"; "hooks"; "signal"; "headers"; "body"]
                            -> k <> j).
    { intros j Hj ->. contradiction. }
    rewrite Hkeep by (apply Hk'; apply list_elem_of_In; simpl; auto 10).
    unfold bag. rewrite get_spread_single.
    assert (Es : String.eqb k "signal" = false).
    { apply String.eqb_neq, Hk'. apply list_elem_of_In; simpl; auto 10. }
    rewrite Es, Hrest.
    assert (Hndr : NoDup (map fst rest)).
    { unfold rest. apply rest_props_keys. simpl. now rewrite Hoo. }
    rewrite (get_spread_nil rest k Hndr). unfold rest.
    rewrite get_rest_props. simpl own_props. rewrite Hoo.
    assert (Et : existsb (String.eqb k) ["type"; "urlPrefix"; "hooks"] = false).
    { cbn [existsb].
      rewrite (proj2 (String.eqb_neq k "type")) by (apply Hk'; apply list_elem_of_In; simpl; auto 10).
      rewrite (proj2 (String.eqb_neq k "urlPrefix")) by (apply Hk'; apply list_elem_of_In; simpl; auto 10).
      rewrite (proj2 (String.eqb_neq k "hooks")) by (apply Hk'; apply list_elem_of_In; simpl; auto 10).
      reflexivity. }
    now rewrite Et.
  - assert (Hown : own_props h7 (VRef (length hb)) = bag').
    { cbn [own_props]. now rewrite Hbag'. }
    rewrite Hown.
    rewrite Hkeep by discriminate. unfold bag. rewrite get_spread_single.
    rewrite String.eqb_refl. f_equal.
    assert (Hctl : hb !! length (ha ++ [OHost "AbortSignal" []])
                   = Some (OHost "AbortController" [("signal", VRef (length ha))])).
    { unfold hb. rewrite lookup_app_r by lia. now rewrite Nat.sub_diag. }
    assert (Hne : length (ha ++ [OHost "AbortSignal" []]) <> length hb).
    { unfold hb. rewrite (length_app (ha ++ _)). simpl. lia. }
    pose proof (Hb7 _ _ Hne (preserved_alloc hb (OPlain bag) _ _ Hctl)) as Hctl7.
    change (slot hb (VRef (length (ha ++ [OHost "AbortSignal" []]))) "signal"
            = slot h7 (VRef (length (ha ++ [OHost "AbortSignal" []]))) "signal").
    unfold slot. now rewrite Hctl, Hctl7.
Qed.

(** A rejection of the transport, an abort included, is the rejection of
    the promise: the function has no [catch]. *)
Lemma request_transport_rejection (w : World) (h : heap) (p : PendingCall)
  (e : exception) :
  fetch w (pending_request p) = Rejected e -> request w h p = Rejected e.
Proof. intros H. unfold request. now rewrite H. Qed.

(** ** The merge of two option bags *)

Module MergedOptions.

Import Deepmerge DeepmergeFacts DeepmergeResult.

Lemma deepmerge_plain (fuel : nat) (dflt opt : addr) (psd pso : props) (h : heap)
  (r : value) (hm : heap) :
  wf_heap h = true ->
  h !! dflt = Some (OPlain psd) -> h !! opt = Some (OPlain pso) ->
  deepmerge fuel (VRef dflt) (VRef opt) h = Ret r hm ->
  r = VRef (length h) /\ preserved h hm /\
  exists psm, hm !! length h = Some (OPlain psm) /\ NoDup (map fst psm) /\
    flat_merge (fun k => propertyIsUnsafe h (VRef dflt) k = false) psd pso psm /\
    (forall k dk ok psdk psok,
        get_prop k psd = Some (VRef dk) -> get_prop k pso = Some (VRef ok) ->
        h !! dk = Some (OPlain psdk) -> h !! ok = Some (OPlain psok) ->
        exists mk psmk,
          get_prop k psm = Some (VRef mk) /\ h !! mk = None /\
          hm !! mk = Some (OPlain psmk) /\
          flat_merge (fun j => propertyIsUnsafe h (VRef dk) j = false) psdk psok psmk) /\
    (forall k da oa es1 es2,
        get_prop k psd = Some (VRef da) -> get_prop k pso = Some (VRef oa) ->
        h !! da = Some (OArray es1) -> h !! oa = Some (OArray es2) ->
        (forall e, In e (es1 ++ es2) -> isObject e = false) ->
        exists ma,
          get_prop k psm = Some (VRef ma) /\ h !! ma = None /\
          hm !! ma = Some (OArray (es1 ++ es2))).
Proof.
  intros Hwf Hd Ho H.
  split; [|split].
  2:{ eapply deepmerge_frames, H. }
  { destruct fuel as [|f]; [discriminate H|].
    rewrite deepmerge_objects in H by (simpl; now rewrite ?Hd, ?Ho).
    assert (Hvo : valid h (VRef opt) = true).
    { simpl. apply Nat.ltb_lt. eapply lookup_lt_Some, Ho. }
    now destruct (mergeObject_plain (deepmerge f) (deepmerge_frames f) _ _ _ _ _ _ _
                    Hd Ho (fun k => member_valid h _ k Hwf Hvo) H) as [-> _]. }
  destruct fuel as [|f]; [discriminate H|].
  rewrite deepmerge_objects in H by (simpl; now rewrite ?Hd, ?Ho).
  assert (Hvo : valid h (VRef opt) = true).
  { simpl. apply Nat.ltb_lt. eapply lookup_lt_Some, Ho. }
  destruct (mergeObject_plain (deepmerge f) (deepmerge_frames f) _ _ _ _ _ _ _
              Hd Ho (fun k => member_valid h _ k Hwf Hvo) H)
    as (_ & psm & Hm & Hnd & L2 & L3 & L1 & L4).
  exists psm. split; [exact Hm|]. split; [exact Hnd|].
  split; [repeat split; assumption|]. split.
  - intros k dk ok psdk psok Hkd Hko Hdk Hok.
    destruct (L4 k _ _ Hkd Hko (plain_mergeable _ _ _ Hok))
      as (v & Hv & ha & hb & Hpa & Hlt & Hrun & Hpb).
    destruct f as [|f']; [discriminate Hrun|].
    rewrite deepmerge_objects in Hrun
      by (simpl; now rewrite ?(Hpa _ _ Hdk), ?(Hpa _ _ Hok)).
    assert (Hvok : valid h (VRef ok) = true).
    { simpl. apply Nat.ltb_lt. eapply lookup_lt_Some, Hok. }
    assert (Hvdk : valid h (VRef dk) = true).
    { simpl. apply Nat.ltb_lt. eapply lookup_lt_Some, Hdk. }
    assert (Hmem : forall j, valid ha (member ha (VRef ok) j) = true).
    { intros j. rewrite (member_preserved h ha _ j Hvok Hpa).
      eapply valid_preserved; [|exact Hpa]. now apply member_valid. }
    destruct (mergeObject_plain (deepmerge f') (deepmerge_frames f') _ _ _ _ _ _ _
                (Hpa _ _ Hdk) (Hpa _ _ Hok) Hmem Hrun)
      as (-> & psmk & Hmk & _ & M2 & M3 & M1 & _).
    exists (length ha), psmk. split; [exact Hv|]. split; [|split].
    + apply lookup_ge_None. apply preserved_length in Hpa. lia.
    + apply Hpb; [lia | exact Hmk].
    + split; [|split; assumption].
      intros j v Hj Hprim Hsafe. apply (M2 j v Hj Hprim).
      now rewrite (propertyIsUnsafe_preserved h ha _ j Hvdk Hpa).
  - intros k da oa es1 es2 Hkd Hko Hda Hoa Hprim.
    destruct (L4 k _ _ Hkd Hko (array_mergeable _ _ _ Hoa))
      as (v & Hv & ha & hb & Hpa & Hlt & Hrun & Hpb).
    destruct f as [|f']; [discriminate Hrun|].
    rewrite (deepmerge_arrays_concat f' da oa es1 es2 ha (Hpa _ _ Hda) (Hpa _ _ Hoa) Hprim)
      in Hrun.
    injection Hrun as <- <-.
    exists (length ha). split; [exact Hv|]. split.
    + apply lookup_ge_None. apply preserved_length in Hpa. lia.
    + apply Hpb; [lia|]. rewrite lookup_app_r by lia. now rewrite Nat.sub_diag.
Qed.

End MergedOptions.

(** ** Calls never stop for lack of fuel once the merge has returned *)

Lemma fueled_bind {A B} (m : M A) (f : A -> M B) :
  fueled m -> (forall a, fueled (f a)) -> fueled (bind m f).
Proof.
  intros Hm Hf h. unfold bind. specialize (Hm h).
  destruct (m h) as [a h1|e h1|]; [apply Hf | discriminate | contradiction].
Qed.

Lemma fueled_ret {A} (a : A) : fueled (ret a).
Proof. intros h. discriminate. Qed.

Lemma fueled_throw {A} (e : exception) : fueled (@throw A e).
Proof. intros h. discriminate. Qed.

Lemma fueled_get_heap : fueled get_heap.
Proof. intros h. discriminate. Qed.

Lemma fueled_alloc (o : object) : fueled (alloc o).
Proof. intros h. discriminate. Qed.

Lemma fueled_write_prop (a : addr) (k : string) (v : value) :
  fueled (write_prop a k v).
Proof. intros h. unfold write_prop. destruct (h !! a) as [[| |]|]; discriminate. Qed.

Lemma fueled_stringify (v : value) : fueled (Json.stringify v).
Proof.
  intros h. unfold Json.stringify.
  destruct (Json.serialize _ _ _ _) as [e|[t|]]; discriminate.
Qed.

Lemma fueled_get_member (v : value) (k : string) : fueled (get_member v k).
Proof.
  unfold get_member. destruct v; try apply fueled_throw;
    (apply fueled_bind; [apply fueled_get_heap | intros; apply fueled_ret]).
Qed.

Lemma fueled_constructURL_of (url : string) (v : value) :
  fueled (constructURL_of url v).
Proof.
  unfold constructURL_of. destruct v; try destruct (ToBoolean _);
    first [apply fueled_ret | apply fueled_throw].
Qed.

Ltac fueled_step :=
  first
    [ apply fueled_ret | apply fueled_throw | apply fueled_get_heap
    | apply fueled_alloc | apply fueled_write_prop | apply fueled_stringify
    | apply fueled_get_member | apply fueled_constructURL_of
    | apply fueled_bind; [|intro]
    | match goal with
      | |- fueled (if ?b then _ else _) => destruct b
      | |- fueled (match ?x with _ => _ end) => destruct x
      end ].

Lemma fueled_optionsReducer (o : addr) (m : HTTPMethod) : fueled (optionsReducer o m).
Proof. unfold optionsReducer. repeat fueled_step. Qed.

Lemma fueled_internalFetch (w : World) (url : string) (oo : value) (m : HTTPMethod) :
  fueled (internalFetch w url oo m).
Proof.
  unfold internalFetch.
  repeat first [apply fueled_optionsReducer | fueled_step].
Qed.

(** ** [call_shortcut] *)

Lemma call_shortcut_request (w : World) (fuel : nat) (d : value) (m : HTTPMethod)
  (url : string) (opt : addr) (h : heap) (p : PendingCall) (h' : heap) :
  call_shortcut w fuel {| bound_defaultOptions := d; bound_httpMethod := m |}
    url (VRef opt) h = Ret p h' ->
  exists mv hm,
    Deepmerge.deepmerge fuel d (VRef opt) h = Ret mv hm /\
    preserved h h' /\
    let bag := spread [("method", VString (HTTPMethod_value m))] (own_props hm mv) in
    constructURL_of url
      (match get_prop "urlPrefix" bag with Some x => x | None => VUndefined end) h
    = Ret (request_url (pending_request p)) h /\
    pending_type p = match get_prop "type" bag with Some x => x | None => VUndefined end /\
    (forall k, k ∉ ["type"; "urlPrefix"; "hooks"; "signal"; "headers"; "body"] ->
               get_prop k (request_init (pending_request p)) = get_prop k bag).
Proof.
  intros H. unfold call_shortcut in H. cbn [bound_defaultOptions bound_httpMethod] in H.
  apply bind_Ret in H as (o1 & h1 & [= <- <-] & H).
  apply bind_Ret in H as (mv & hm & Hmerge & H).
  apply bind_Ret in H as (hx & hy & [= <- <-] & H).
  apply bind_Ret in H as (wm & h2 & Halloc & H).
  unfold alloc in Halloc.
  match type of Halloc with Ret _ (hm ++ [OPlain ?x]) = _ => set (bag := x) in * end.
  injection Halloc as <- <-.
  assert (Hbag : (hm ++ [OPlain bag]) !! length hm = Some (OPlain bag)).
  { rewrite lookup_app_r by lia. now rewrite Nat.sub_diag. }
  assert (Hnd : NoDup (map fst bag)).
  { unfold bag. apply spread_keys. apply NoDup_singleton. }
  destruct (internalFetch_request w url _ bag m _ p h' Hbag Hnd H)
    as (Hp & Hurl & Hty & Hk & _).
  exists mv, hm. split; [exact Hmerge|]. split.
  { eapply preserved_trans; [eapply DeepmergeFacts.deepmerge_frames, Hmerge|].
    eapply preserved_trans; [apply preserved_alloc | exact Hp]. }
  cbn zeta. fold bag.
  rewrite (member_plain _ _ _ "urlPrefix" Hbag) in Hurl.
  rewrite (member_plain _ _ _ "type" Hbag) in Hty.
  split; [|split; assumption].
  destruct (constructURL_of_Ret _ _ _ _ _ Hurl) as [_ Hany]. apply Hany.
Qed.

Lemma call_shortcut_fueled (w : World) (fuel : nat) (s : Shortcut) (url : string)
  (opt : addr) (h : heap) :
  finishes (Deepmerge.deepmerge fuel (bound_defaultOptions s) (VRef opt)) h ->
  call_shortcut w fuel s url (VRef opt) h <> NoFuel.
Proof.
  intros (mv & hm & Hm). unfold call_shortcut.
  rewrite (bind_eq (ret (VRef opt)) _ h (VRef opt) h eq_refl).
  rewrite (bind_eq _ _ _ _ _ Hm).
  rewrite (bind_eq get_heap _ hm hm hm eq_refl).
  apply fueled_bind; [apply fueled_alloc | intros; apply fueled_internalFetch].
Qed.

Lemma get_entry_set (k j : string) (s : Shortcut) (t : FetchData) :
  get_entry k (set_entry j s t) = if String.eqb k j then Some s else get_entry k t.
Proof.
  induction t as [|[k' s'] t IH]; cbn [set_entry get_entry].
  - reflexivity.
  - destruct (String.eqb j k') eqn:E; cbn [get_entry].
    + apply String.eqb_eq in E. subst k'. now destruct (String.eqb k j).
    + rewrite IH. destruct (String.eqb k j) eqn:E2; [|reflexivity].
      apply String.eqb_eq in E2. subst k. now rewrite E.
Qed.

(** ** The store after a call, returned or thrown *)

Lemma keeps_bind (R : heap -> heap -> Prop) {A B} (m : M A) (f : A -> M B) :
  (forall h1 h2 h3, R h1 h2 -> R h2 h3 -> R h1 h3) ->
  keeps R m -> (forall a, keeps R (f a)) -> keeps R (bind m f).
Proof.
  intros Htrans Hm Hf h. unfold bind. specialize (Hm h).
  destruct (m h) as [a h1|e h1|]; [|exact Hm|exact I].
  specialize (Hf a h1). destruct (f a h1) as [b h2|e h2|]; eauto.
Qed.

Lemma keeps_weaken (R R' : heap -> heap -> Prop) {A} (m : M A) :
  (forall h h', R h h' -> R' h h') -> keeps R m -> keeps R' m.
Proof.
  intros HR Hm h. specialize (Hm h). destruct (m h); auto.
Qed.

Lemma keeps_alloc_but {A} (o : object) (f : addr -> M A) :
  (forall d, keeps (preserved_but d) (f d)) ->
  keeps preserved (bind (alloc o) f).
Proof.
  intros Hf h. unfold bind, alloc. specialize (Hf (length h) (h ++ [o])).
  assert (Hfresh : h !! length h = None) by (apply lookup_ge_None; lia).
  destruct (f (length h) (h ++ [o])) as [a h'|e h'|]; [| |exact I];
    (eapply preserved_but_fresh; [exact Hfresh | apply preserved_alloc | exact Hf]).
Qed.

Section Keeps.

Variable R : heap -> heap -> Prop.
Hypothesis R_refl : forall h, R h h.
Hypothesis R_grows : forall h o, R h (h ++ [o]).

Lemma keeps_ret {A} (a : A) : keeps R (ret a).
Proof. intros h. apply R_refl. Qed.

Lemma keeps_throw {A} (e : exception) : keeps R (@throw A e).
Proof. intros h. apply R_refl. Qed.

Lemma keeps_get_heap : keeps R get_heap.
Proof. intros h. apply R_refl. Qed.

Lemma keeps_alloc (o : object) : keeps R (alloc o).
Proof. intros h. apply R_grows. Qed.

Lemma keeps_stringify (v : value) : keeps R (Json.stringify v).
Proof.
  intros h. unfold Json.stringify.
  destruct (Json.serialize _ _ _ _) as [e|[t|]]; apply R_refl.
Qed.

Lemma keeps_get_member (v : value) (k : string) : keeps R (get_member v k).
Proof. intros h. unfold get_member. destruct v; apply R_refl. Qed.

Lemma keeps_constructURL_of (url : string) (v : value) : keeps R (constructURL_of url v).
Proof.
  intros h. unfold constructURL_of. destruct v; try destruct (ToBoolean _); apply R_refl.
Qed.

Lemma keeps_getKeys (v : value) : keeps R (Deepmerge.getKeys v).
Proof. intros h. unfold Deepmerge.getKeys. destruct v; apply R_refl. Qed.

End Keeps.

Lemma keeps_write_prop (d : addr) (k : string) (v : value) :
  keeps (preserved_but d) (write_prop d k v).
Proof.
  intros h. destruct (write_prop_Ret d k v h) as (h' & E & Hb & _).
  now rewrite E.
Qed.

Lemma preserved_but_alloc (d : addr) (h : heap) (o : object) :
  preserved_but d h (h ++ [o]).
Proof. apply preserved_is_but, preserved_alloc. Qed.

Ltac keeps_preserved :=
  repeat first
    [ apply keeps_ret; apply preserved_refl
    | apply keeps_throw; apply preserved_refl
    | apply keeps_get_heap; apply preserved_refl
    | apply keeps_alloc; apply preserved_alloc
    | apply keeps_stringify; apply preserved_refl
    | apply keeps_get_member; apply preserved_refl
    | apply keeps_constructURL_of; apply preserved_refl
    | apply keeps_getKeys; apply preserved_refl
    | apply keeps_bind; [apply preserved_trans| |intro]
    | match goal with
      | |- keeps _ (if ?b then _ else _) => destruct b
      | |- keeps _ (match ?x with _ => _ end) => destruct x
      end ].

Ltac keeps_but :=
  repeat first
    [ apply keeps_ret; apply preserved_but_refl
    | apply keeps_throw; apply preserved_but_refl
    | apply keeps_get_heap; apply preserved_but_refl
    | apply keeps_alloc; apply preserved_but_alloc
    | apply keeps_stringify; apply preserved_but_refl
    | apply keeps_get_member; apply preserved_but_refl
    | apply keeps_constructURL_of; apply preserved_but_refl
    | apply keeps_getKeys; apply preserved_but_refl
    | apply keeps_write_prop
    | apply keeps_bind; [apply preserved_but_trans| |intro]
    | match goal with
      | |- keeps _ (if ?b then _ else _) => destruct b
      | |- keeps _ (match ?x with _ => _ end) => destruct x
      end ].

Module DeepmergeKeeps.

Import Deepmerge.

Section Level.

Variable rec : value -> value -> M value.
Hypothesis rec_keeps : forall t s, keeps preserved (rec t s).

Lemma clone_keeps (v : value) : keeps preserved (cloneUnlessOtherwiseSpecified rec v).
Proof.
  unfold cloneUnlessOtherwiseSpecified, emptyTarget.
  keeps_preserved. apply rec_keeps.
Qed.

Lemma cloneAll_keeps (es : list value) : keeps preserved (cloneAll rec es).
Proof.
  induction es as [|e es IH]; cbn [cloneAll].
  - keeps_preserved.
  - apply keeps_bind; [apply preserved_trans | apply clone_keeps | intro].
    apply keeps_bind; [apply preserved_trans | apply IH | intro]. keeps_preserved.
Qed.

Lemma defaultArrayMerge_keeps (t s : value) : keeps preserved (defaultArrayMerge rec t s).
Proof.
  unfold defaultArrayMerge.
  apply keeps_bind; [apply preserved_trans | keeps_preserved | intro].
  apply keeps_bind; [apply preserved_trans | apply cloneAll_keeps | intro].
  keeps_preserved.
Qed.

Lemma copyTargetKeys_keeps (d : addr) (t : value) (keys : list string) :
  keeps (preserved_but d) (copyTargetKeys rec d t keys).
Proof.
  induction keys as [|k keys IH]; cbn [copyTargetKeys].
  - keeps_but.
  - apply keeps_bind; [apply preserved_but_trans | keeps_but | intro].
    apply keeps_bind; [apply preserved_but_trans | | intro].
    + eapply keeps_weaken; [apply preserved_is_but | apply clone_keeps].
    + apply keeps_bind; [apply preserved_but_trans | apply keeps_write_prop | intro].
      apply IH.
Qed.

Lemma mergeSourceKeys_keeps (d : addr) (t s : value) (keys : list string) :
  keeps (preserved_but d) (mergeSourceKeys rec d t s keys).
Proof.
  induction keys as [|k keys IH]; cbn [mergeSourceKeys].
  - keeps_but.
  - apply keeps_bind; [apply preserved_but_trans | keeps_but | intro].
    apply keeps_bind; [apply preserved_but_trans | | intro; apply IH].
    destruct (propertyIsUnsafe _ _ _); [keeps_but|].
    destruct (_ && _).
    + apply keeps_bind; [apply preserved_but_trans | | intro; apply keeps_write_prop].
      eapply keeps_weaken; [apply preserved_is_but | apply rec_keeps].
    + apply keeps_bind; [apply preserved_but_trans | | intro; apply keeps_write_prop].
      eapply keeps_weaken; [apply preserved_is_but | apply clone_keeps].
Qed.

Lemma mergeObject_keeps (t s : value) : keeps preserved (mergeObject rec t s).
Proof.
  unfold mergeObject. apply keeps_alloc_but. intros d.
  apply keeps_bind; [apply preserved_but_trans | keeps_but | intro].
  apply keeps_bind; [apply preserved_but_trans | | intro].
  - destruct (isMergeableObject _ _); [|keeps_but].
    apply keeps_bind; [apply preserved_but_trans | keeps_but | intro].
    apply copyTargetKeys_keeps.
  - apply keeps_bind; [apply preserved_but_trans | keeps_but | intro].
    apply keeps_bind; [apply preserved_but_trans | apply mergeSourceKeys_keeps | intro].
    keeps_but.
Qed.

End Level.

Lemma deepmerge_keeps (fuel : nat) :
  forall t s, keeps preserved (deepmerge fuel t s).
Proof.
  induction fuel as [|fuel IH]; intros t s; [intros h; exact I|].
  cbn [deepmerge].
  apply keeps_bind; [apply preserved_trans | keeps_preserved | intro].
  destruct (negb _); [now apply clone_keeps|].
  destruct (isArray _ _); [now apply defaultArrayMerge_keeps | now apply mergeObject_keeps].
Qed.

End DeepmergeKeeps.

Lemma optionsReducer_keeps (o : addr) (m : HTTPMethod) :
  keeps (preserved_but o) (optionsReducer o m).
Proof. unfold optionsReducer. keeps_but. Qed.

Lemma internalFetch_keeps (w : World) (url : string) (oo : value) (m : HTTPMethod) :
  keeps preserved (internalFetch w url oo m).
Proof.
  unfold internalFetch.
  apply keeps_bind; [apply preserved_trans | keeps_preserved | intro].
  apply keeps_bind; [apply preserved_trans | keeps_preserved | intro].
  apply keeps_bind; [apply preserved_trans | keeps_preserved | intro].
  apply keeps_bind; [apply preserved_trans | keeps_preserved | intro].
  apply keeps_bind; [apply preserved_trans | keeps_preserved | intro].
  apply keeps_bind; [apply preserved_trans | keeps_preserved | intro].
  apply keeps_bind; [apply preserved_trans | keeps_preserved | intro].
  apply keeps_alloc_but. intros init.
  apply keeps_bind; [apply preserved_but_trans | apply optionsReducer_keeps | intro].
  keeps_but.
Qed.

Lemma call_shortcut_keeps (w : World) (fuel : nat) (s : Shortcut) (url : string)
  (options : value) :
  keeps preserved (call_shortcut w fuel s url options).
Proof.
  unfold call_shortcut.
  apply keeps_bind; [apply preserved_trans | keeps_preserved | intro].
  apply keeps_bind; [apply preserved_trans | apply DeepmergeKeeps.deepmerge_keeps | intro].
  apply keeps_bind; [apply preserved_trans | keeps_preserved | intro].
  apply keeps_bind; [apply preserved_trans | keeps_preserved | intro].
  apply internalFetch_keeps.
Qed.

(** * The claims *)

(** ** URL composition *)

Lemma constructURL_prefixed (url p : string) :
  p <> EmptyString ->
  constructURL url (Some p)
  = (if negb (Str.endsWith_slash p) then p +:+ "/" else p)
    +:+ (if Str.startsWith_slash url then Str.replace_leading_slash url else url).
Proof. intros Hp. destruct p; [contradiction | reflexivity]. Qed.

Lemma startsWith_slash_not (url : string) :
  (forall r, url <> "/" +:+ r) -> Str.startsWith_slash url = false.
Proof.
  intros H. destruct url as [|c url]; [reflexivity|]. simpl.
  destruct (Ascii.eqb c "/") eqn:E; [|reflexivity].
  apply Ascii.eqb_eq in E. subst c. now destruct (H url).
Qed.

(** C5. [constructURL] is a function of its two string arguments alone (it
    is total and reads nothing else).  Without a prefix it returns the path
    unchanged.  With a prefix [P] and a path [/R] the result is [P + R] when
    [P] ends with a slash and [P + "/" + R] when it does not: one leading
    slash is removed from the path, whatever follows it is kept, and a slash
    is added to the prefix only when it has none at its end.  A path with no
    leading slash is appended as it is. *)
Theorem constructURL_contract :
  (forall url, constructURL url None = url) /\
  (forall q r, constructURL ("/" +:+ r) (Some (q +:+ "/")) = (q +:+ "/") +:+ r) /\
  (forall p r, (forall q, p <> q +:+ "/") ->
               constructURL ("/" +:+ r) (Some p) = p +:+ "/" +:+ r) /\
  (forall q url, (forall r, url <> "/" +:+ r) ->
                 constructURL url (Some (q +:+ "/")) = (q +:+ "/") +:+ url) /\
  (forall p url, p <> EmptyString -> (forall q, p <> q +:+ "/") ->
                 (forall r, url <> "/" +:+ r) ->
                 constructURL url (Some p) = p +:+ "/" +:+ url).
Proof.
  split; [reflexivity|]. split; [|split; [|split]].
  - intros q r. rewrite constructURL_prefixed by apply StrFacts.snoc_not_empty.
    now rewrite StrFacts.endsWith_slash_snoc.
  - intros p r Hp. destruct (string_dec p EmptyString) as [->|Hne]; [reflexivity|].
    rewrite constructURL_prefixed by assumption.
    rewrite (StrFacts.endsWith_slash_not p Hp). cbn [negb].
    now rewrite StrFacts.append_assoc.
  - intros q url Hu. rewrite constructURL_prefixed by apply StrFacts.snoc_not_empty.
    now rewrite StrFacts.endsWith_slash_snoc, (startsWith_slash_not url Hu).
  - intros p url Hne Hp Hu. rewrite constructURL_prefixed by assumption.
    rewrite (StrFacts.endsWith_slash_not p Hp), (startsWith_slash_not url Hu).
    cbn [negb]. now rewrite StrFacts.append_assoc.
Qed.

Lemma constructURL_contract_witness :
  (forall q, "http://some-url.com" <> q +:+ "/") /\
  constructURL "/products" (Some "http://some-url.com")
  = "http://some-url.com" +:+ "/" +:+ "products".
Proof.
  assert (H : forall q, "http://some-url.com" <> q +:+ "/").
  { apply StrFacts.endsWith_slash_false. reflexivity. }
  split; [exact H|].
  exact (proj1 (proj2 (proj2 constructURL_contract)) "http://some-url.com" "products" H).
Defined.

(** C10. An empty-string [urlPrefix] is treated as no prefix at all: the
    path is returned unchanged, whether [constructURL] is called directly or
    with the [urlPrefix] member of an option bag. *)
Theorem constructURL_empty_prefix :
  forall url : string,
    constructURL url (Some EmptyString) = url /\
    constructURL url (Some EmptyString) = constructURL url None /\
    forall h, constructURL_of url (VString EmptyString) h = Ret url h.
Proof. intros url. repeat split. Qed.

(** ** Body encoding *)



(** C2, at the input [post(url, { body: "hello" })]: the request is built
    with the body [JSON.stringify("hello")], the five letters between two
    quote characters, not with the string [hello] itself; no header is
    added. *)
Theorem string_body_is_quoted :
  exists p h',
    call_shortcut Sample.quiet 2 (Sample.shortcut 0 POST)
      "http://some-url.com/products" (VRef 1) Sample.text_store = Ret p h' /\
    get_prop "body" (request_init (pending_request p))
    = Some (VString (Json.quote "hello")) /\
    Json.quote "hello" <> "hello" /\
    get_prop "headers" (request_init (pending_request p)) = None.
Proof.
  eexists _, _. split; [vm_compute; reflexivity|].
  split; [reflexivity|]. split; [apply JsonFacts.quote_changes | reflexivity].
Qed.

(** ** Query parameters *)

(** C1, at the input of the repository's test "rewrites the original query
    string": [searchParams] is carried into the request options as an inert
    member and the request goes to the URL as given, old query string
    included. *)
Theorem searchParams_ignored :
  exists p h',
    call_shortcut Sample.quiet 4 (Sample.shortcut 0 GET)
      "http://some-url.com/products?v=someValue&z=anotherValue" (VRef 1)
      Sample.search_store = Ret p h' /\
    request_url (pending_request p)
    = "http://some-url.com/products?v=someValue&z=anotherValue" /\
    exists copy,
      get_prop "searchParams" (request_init (pending_request p)) = Some (VRef copy) /\
      h' !! copy = Some (OPlain [("q", VString "hello"); ("m", VString "value")]).
Proof.
  eexists _, _. split; [vm_compute; reflexivity|].
  split; [reflexivity|]. eexists. split; reflexivity.
Qed.

(** ** The method of a shortcut *)

Lemma createFetchData_entry (d : value) (m : HTTPMethod) (h : heap) :
  d <> VUndefined ->
  exists client,
    createFetchData d h = Ret client h /\
    get_entry (HTTPMethod_value m) client
    = Some {| bound_defaultOptions := d; bound_httpMethod := m |}.
Proof.
  intros Hd. eexists. split.
  - unfold createFetchData. destruct d; try reflexivity. contradiction.
  - destruct m; reflexivity.
Qed.

(** C4 as stated fails: [get(url, { method: "post" })] builds a request
    whose method is [post]. *)
Lemma shortcut_method_overridden :
  exists client p h',
    createFetchData (VRef 0) Sample.method_store = Ret client Sample.method_store /\
    call_method Sample.quiet 2 client (HTTPMethod_value GET)
      "http://some-url.com/products" (VRef 1) Sample.method_store = Ret p h' /\
    get_prop "method" (request_init (pending_request p)) = Some (VString "post") /\
    get_prop "method" (request_init (pending_request p))
    <> Some (VString (HTTPMethod_value GET)).
Proof.
  eexists _, _, _. split; [reflexivity|]. split; [vm_compute; reflexivity|].
  split; [reflexivity | discriminate].
Qed.

(** C4, amended.  A client built over [defaults] has, under the name of
    each method [m], a shortcut bound to [m].  The request that shortcut
    builds has method [m] when neither the defaults nor the per-call options
    carry a [method] entry, and has the method the per-call options give
    when they give one.  (The call is made on bags that nest at most [n]
    deep, with fuel for that depth; it then never stops for lack of
    fuel.) *)
Theorem shortcut_method :
  forall (w : World) (n fuel : nat) (dflt opt : addr) (psd pso : props)
         (m : HTTPMethod) (url : string) (h : heap),
    wf_heap h = true ->
    h !! dflt = Some (OPlain psd) -> h !! opt = Some (OPlain pso) ->
    bounded n h (VRef dflt) = true -> bounded n h (VRef opt) = true ->
    2 * n <= fuel ->
    exists client,
      createFetchData (VRef dflt) h = Ret client h /\
      get_entry (HTTPMethod_value m) client
      = Some {| bound_defaultOptions := VRef dflt; bound_httpMethod := m |} /\
      call_method w fuel client (HTTPMethod_value m) url (VRef opt) h <> NoFuel /\
      forall p h',
        call_method w fuel client (HTTPMethod_value m) url (VRef opt) h = Ret p h' ->
        (get_prop "method" psd = None -> get_prop "method" pso = None ->
         get_prop "method" (request_init (pending_request p))
         = Some (VString (HTTPMethod_value m))) /\
        (forall given, get_prop "method" pso = Some (VString given) ->
         get_prop "method" (request_init (pending_request p))
         = Some (VString given)).
Proof.
  intros w n fuel dflt opt psd pso m url h Hwf Hd Ho Hbd Hbo Hfuel.
  destruct (createFetchData_entry (VRef dflt) m h) as (client & Hc & He);
    [discriminate|].
  exists client. split; [exact Hc|]. split; [exact He|].
  unfold call_method. rewrite He. split.
  - apply call_shortcut_fueled.
    now apply (DeepmergeTermination.deepmerge_finishes n).
  - intros p h' Hcall.
    destruct (call_shortcut_request _ _ _ _ _ _ _ _ _ Hcall)
      as (mv & hm & Hmerge & _ & _ & _ & Hk).
    destruct (MergedOptions.deepmerge_plain _ _ _ _ _ _ _ _ Hwf Hd Ho Hmerge)
      as (-> & _ & psm & Hm & Hnd & (Hcall_wins & _ & Habsent) & _).
    rewrite Hk by (intros Hin; apply list_elem_of_In in Hin; simpl in Hin;
                   repeat destruct Hin as [Hin|Hin]; try discriminate Hin; exact Hin).
    simpl own_props. rewrite Hm. split.
    + intros Hmd Hmo. rewrite get_spread_absent by (apply Habsent; assumption).
      reflexivity.
    + intros given Hgiven. rewrite (get_spread _ psm "method" Hnd).
      rewrite (Hcall_wins "method" (VString given) Hgiven eq_refl); [reflexivity|].
      apply DeepmergeResult.plain_name_safe. simpl.
      intros Hin. repeat destruct Hin as [Hin|Hin]; try discriminate Hin; exact Hin.
Qed.

Lemma shortcut_method_witness :
  exists client,
    createFetchData (VRef 0) Sample.headers_store = Ret client Sample.headers_store /\
    get_entry (HTTPMethod_value PATCH) client = Some (Sample.shortcut 0 PATCH) /\
    call_method Sample.quiet 4 client (HTTPMethod_value PATCH)
      "http://some-url.com/products" (VRef 1) Sample.headers_store <> NoFuel /\
    forall p h',
      call_method Sample.quiet 4 client (HTTPMethod_value PATCH)
        "http://some-url.com/products" (VRef 1) Sample.headers_store = Ret p h' ->
      (get_prop "method" (@nil (string * value)) = None ->
       get_prop "method" [("headers", VRef 2)] = None ->
       get_prop "method" (request_init (pending_request p))
       = Some (VString (HTTPMethod_value PATCH))) /\
      (forall given, get_prop "method" [("headers", VRef 2)] = Some (VString given) ->
       get_prop "method" (request_init (pending_request p)) = Some (VString given)).
Proof.
  apply (shortcut_method Sample.quiet 2 4 0 1 [] [("headers", VRef 2)] PATCH
           "http://some-url.com/products" Sample.headers_store);
    first [reflexivity | simpl; lia].
Defined.

(** ** How the promise settles *)

(** C6 as stated fails: with an after-response hook that throws, a [401]
    response rejects the promise with what the hook threw, not with the
    HTTP error. *)
Lemma error_status_with_throwing_hook :
  exists p h',
    call_shortcut Sample.throwing 4 (Sample.shortcut 0 GET)
      "http://site.com/products" (VRef 1) Sample.hook_store = Ret p h' /\
    fetch Sample.throwing (pending_request p) = Resolved Sample.unauthorized /\
    response_status Sample.unauthorized = 401%Z /\
    request Sample.throwing h' p = Rejected (Thrown (VString "redirect")) /\
    forall message code response req context,
      request Sample.throwing h' p
      <> Rejected (CommonHttpError message code response req context).
Proof.
  eexists _, _. split; [vm_compute; reflexivity|].
  split; [reflexivity|]. split; [reflexivity|]. split; [reflexivity|].
  intros message code response req context. discriminate.
Qed.

(** C6, amended.  When the response arrives with a status outside 200-299
    the promise rejects and never resolves: with the HTTP error made from
    the response's status code, the response and the request when every
    after-response hook returns, and with what the hook threw when one of
    them throws. *)
Theorem error_status_rejects :
  forall (w : World) (h : heap) (p : PendingCall) (response : Response),
    fetch w (pending_request p) = Resolved response ->
    (response_status response < 200 \/ 299 < response_status response)%Z ->
    let afterResponse := member h (pending_hooks p) "afterResponse" in
    ((ToBoolean afterResponse = true ->
      runAfterResponseHooks w h afterResponse response = None) ->
     request w h p
     = Rejected (CommonHttpError "Request is not resolved successfully"
                   (response_status response) response (pending_request p)
                   "@j.u.p.iter/fetch-data")) /\
    (forall e, ToBoolean afterResponse = true ->
               runAfterResponseHooks w h afterResponse response = Some e ->
               request w h p = Rejected e).
Proof.
  intros w h p response Hfetch Hstatus afterResponse. unfold request.
  rewrite Hfetch. fold afterResponse. split.
  - intros Hhooks.
    assert (Hrun : (if ToBoolean afterResponse
                    then runAfterResponseHooks w h afterResponse response
                    else None) = None).
    { destruct (ToBoolean afterResponse); [now apply Hhooks | reflexivity]. }
    rewrite Hrun.
    assert (Hok : response_ok response = false).
    { unfold response_ok. apply andb_false_iff.
      destruct Hstatus; [left; apply Z.leb_gt | right; apply Z.leb_gt]; lia. }
    now rewrite Hok.
  - intros e Htrue Hthrow. now rewrite Htrue, Hthrow.
Qed.

Lemma error_status_rejects_witness :
  request Sample.throwing Sample.empty_store
    {| cancelRequest := 0;
       pending_request := {| request_url := "http://some-url.com/products";
                             request_init := [] |};
       pending_hooks := VRef 1;
       pending_type := VUndefined |}
  = Rejected (CommonHttpError "Request is not resolved successfully" 401
                Sample.unauthorized
                {| request_url := "http://some-url.com/products"; request_init := [] |}
                "@j.u.p.iter/fetch-data").
Proof.
  refine (proj1 (error_status_rejects Sample.throwing Sample.empty_store
                   {| cancelRequest := 0;
                      pending_request := {| request_url := "http://some-url.com/products";
                                            request_init := [] |};
                      pending_hooks := VRef 1;
                      pending_type := VUndefined |}
                   Sample.unauthorized eq_refl _) _).
  - right. reflexivity.
  - intros H. discriminate H.
Defined.

(** C8 as stated fails: a [200] response whose body is the text [Hello!]
    rejects the promise of a call made with the default type, because
    [json()] rejects. *)
Lemma success_status_with_unreadable_body :
  exists p h',
    call_shortcut Sample.greeting 4 (Sample.shortcut 0 POST)
      "http://some-url.com/products" (VRef 1) Sample.empty_store = Ret p h' /\
    fetch Sample.greeting (pending_request p) = Resolved Sample.hello /\
    response_status Sample.hello = 200%Z /\
    request Sample.greeting h' p
    = Rejected (Native (JsError "SyntaxError" "Unexpected token H in JSON at position 0")) /\
    forall envelope, request Sample.greeting h' p <> Resolved envelope.
Proof.
  eexists _, _. split; [vm_compute; reflexivity|].
  split; [reflexivity|]. split; [reflexivity|]. split; [reflexivity|].
  intros envelope. discriminate.
Qed.

(** C8, amended.  When the response arrives with a status within 200-299
    and every after-response hook returns, the promise settles as the body
    accessor named by the call's [type] does ([json] when no type is
    given): it resolves with the envelope of the response's status and
    status text, the accessor's value as data and the call's cancel handle,
    or rejects with the accessor's error. *)
Theorem success_status_resolves :
  forall (w : World) (h : heap) (p : PendingCall) (response : Response)
         (t : ResponseBodyType),
    fetch w (pending_request p) = Resolved response ->
    (ToBoolean (member h (pending_hooks p) "afterResponse") = true ->
     runAfterResponseHooks w h (member h (pending_hooks p) "afterResponse") response
     = None) ->
    (200 <= response_status response <= 299)%Z ->
    (pending_type p = VUndefined /\ t = JSON
     \/ pending_type p = VString (ResponseBodyType_value t)) ->
    (forall d, response_bodyAs response t = inr d ->
               request w h p
               = Resolved {| cancel := cancelRequest p;
                             status := response_status response;
                             statusText := response_statusText response;
                             data := d |}) /\
    (forall e, response_bodyAs response t = inl e ->
               request w h p = Rejected (Native e)).
Proof.
  intros w h p response t Hfetch Hhooks Hstatus Htype.
  unfold request. rewrite Hfetch.
  assert (Hrun : (if ToBoolean (member h (pending_hooks p) "afterResponse")
                  then runAfterResponseHooks w h
                         (member h (pending_hooks p) "afterResponse") response
                  else None) = None).
  { destruct (ToBoolean _); [now apply Hhooks | reflexivity]. }
  rewrite Hrun.
  assert (Hok : response_ok response = true).
  { unfold response_ok. apply andb_true_iff. split; apply Z.leb_le; lia. }
  rewrite Hok. cbn [negb].
  assert (Hacc : body_accessor
                   (if ToBoolean (pending_type p) then pending_type p
                    else VString DEFAULT_EXPECTED_DATA_TYPE) = Some t).
  { destruct Htype as [[-> ->]| ->]; [reflexivity|]. destruct t; reflexivity. }
  rewrite Hacc. split; intros x Hbody; now rewrite Hbody.
Qed.

Lemma success_status_resolves_witness :
  request Sample.greeting Sample.empty_store
    {| cancelRequest := 0;
       pending_request := {| request_url := "http://some-url.com/products";
                             request_init := [] |};
       pending_hooks := VRef 1;
       pending_type := VString "text" |}
  = Resolved {| cancel := 0; status := 200; statusText := "OK";
                data := VString "Hello!" |}.
Proof.
  refine (proj1 (success_status_resolves Sample.greeting Sample.empty_store
                   {| cancelRequest := 0;
                      pending_request := {| request_url := "http://some-url.com/products";
                                            request_init := [] |};
                      pending_hooks := VRef 1;
                      pending_type := VString "text" |}
                   Sample.hello TEXT eq_refl _ _ _) (VString "Hello!") eq_refl).
  - intros H. discriminate H.
  - simpl. lia.
  - right. reflexivity.
Defined.

(** ** The merged options *)





(** * Further properties *)

(** ** [constructURL]: prefixes compose *)

Module URLFacts.

Lemma append_nil_r (s : string) : s +:+ EmptyString = s.
Proof. induction s as [|c s IH]; [reflexivity|]. rewrite StrFacts.append_cons. now rewrite IH. Qed.

Lemma append_empty (s t : string) : s +:+ t = EmptyString -> s = EmptyString /\ t = EmptyString.
Proof. destruct s; [now split | discriminate]. Qed.

Lemma endsWith_slash_app (s t : string) :
  t <> EmptyString -> Str.endsWith_slash (s +:+ t) = Str.endsWith_slash t.
Proof.
  intros Ht. induction s as [|c s IH]; [reflexivity|].
  rewrite StrFacts.append_cons. cbn [Str.endsWith_slash].
  destruct (s +:+ t) eqn:E; [|exact IH].
  apply append_empty in E as [_ E]. contradiction.
Qed.

Lemma prefix_not_empty (p : string) : resultURLPrefix p <> EmptyString.
Proof.
  unfold resultURLPrefix. destruct (Str.endsWith_slash p) eqn:E; cbn [negb].
  - destruct p; [discriminate E | discriminate].
  - apply StrFacts.snoc_not_empty.
Qed.

Lemma endsWith_slash_prefix (p : string) : Str.endsWith_slash (resultURLPrefix p) = true.
Proof.
  unfold resultURLPrefix. destruct (Str.endsWith_slash p) eqn:E; cbn [negb]; [exact E|].
  apply StrFacts.endsWith_slash_snoc.
Qed.

Lemma prefix_app (u v : string) : v <> EmptyString -> resultURLPrefix (u +:+ v) = u +:+ resultURLPrefix v.
Proof.
  intros Hv. unfold resultURLPrefix. rewrite (endsWith_slash_app u v Hv).
  destruct (Str.endsWith_slash v); cbn [negb]; [reflexivity|].
  now rewrite StrFacts.append_assoc.
Qed.

Lemma resultURL_app (u v : string) : u <> EmptyString -> resultURL (u +:+ v) = resultURL u +:+ v.
Proof.
  intros Hu. destruct u as [|c u]; [contradiction|].
  unfold resultURL. rewrite StrFacts.append_cons. cbn [Str.startsWith_slash Str.replace_leading_slash].
  destruct (Ascii.eqb c "/"); reflexivity.
Qed.

Lemma resultURL_of_prefix (b : string) : resultURL b <> EmptyString -> resultURL (resultURLPrefix b) = resultURLPrefix (resultURL b).
Proof.
  intros Hb. destruct b as [|c b]; [now destruct Hb|].
  unfold resultURL in *. cbn [Str.startsWith_slash Str.replace_leading_slash] in *.
  destruct (Ascii.eqb c "/") eqn:Ec.
  - unfold resultURLPrefix. cbn [Str.endsWith_slash].
    destruct b as [|c' b]; [now destruct Hb|].
    destruct (Str.endsWith_slash (String c' b)); cbn [negb].
    + cbn [Str.startsWith_slash Str.replace_leading_slash]. now rewrite Ec.
    + rewrite StrFacts.append_cons.
      cbn [Str.startsWith_slash Str.replace_leading_slash]. now rewrite Ec.
  - unfold resultURLPrefix. destruct (Str.endsWith_slash (String c b)); cbn [negb].
    + cbn [Str.startsWith_slash Str.replace_leading_slash]. now rewrite Ec.
    + rewrite StrFacts.append_cons.
      cbn [Str.startsWith_slash Str.replace_leading_slash]. now rewrite Ec.
Qed.

Lemma constructURL_parts (url p : string) :
  p <> EmptyString -> constructURL url (Some p) = resultURLPrefix p +:+ resultURL url.
Proof. intros Hp. destruct p; [contradiction | reflexivity]. Qed.

Lemma prefix_idem (p : string) : resultURLPrefix (resultURLPrefix p) = resultURLPrefix p.
Proof. unfold resultURLPrefix at 1. now rewrite endsWith_slash_prefix. Qed.

End URLFacts.

(** X1. Prefixing composes: prefixing a path with [b] and the result with
    [a] gives the same URL as prefixing the path with the URL that [a] and
    [b] compose to.  It holds for all strings, the empty ones and those
    with slashes at their ends included. *)
Theorem constructURL_composes :
  forall a b c : string,
    constructURL c (Some (constructURL b (Some a)))
    = constructURL (constructURL c (Some b)) (Some a).
Proof.
  intros a b c. destruct (string_dec a EmptyString) as [->|Ha]; [reflexivity|].
  destruct (string_dec b EmptyString) as [->|Hb].
  - change (constructURL c (Some EmptyString)) with c.
    rewrite (URLFacts.constructURL_parts EmptyString a Ha).
    change (resultURL EmptyString) with EmptyString. rewrite URLFacts.append_nil_r.
    rewrite !URLFacts.constructURL_parts by (auto using URLFacts.prefix_not_empty).
    now rewrite URLFacts.prefix_idem.
  - rewrite (URLFacts.constructURL_parts b a Ha).
    rewrite (URLFacts.constructURL_parts c b Hb).
    assert (Hnb : resultURLPrefix b <> EmptyString) by apply URLFacts.prefix_not_empty.
    rewrite (URLFacts.constructURL_parts _ a Ha).
    rewrite (URLFacts.resultURL_app _ _ Hnb).
    destruct (string_dec (resultURL b) EmptyString) as [E|Hs].
    + rewrite E, URLFacts.append_nil_r.
      rewrite (URLFacts.constructURL_parts c _ (URLFacts.prefix_not_empty a)).
      rewrite URLFacts.prefix_idem. f_equal.
      assert (b = "/") as ->.
      { destruct b as [|x b]; [contradiction|]. unfold resultURL in E.
        cbn [Str.startsWith_slash Str.replace_leading_slash] in E.
        destruct (Ascii.eqb x "/") eqn:Ex; [|discriminate E].
        apply Ascii.eqb_eq in Ex. now subst. }
      reflexivity.
    + assert (Hne : resultURLPrefix a +:+ resultURL b <> EmptyString).
      { intros E. apply URLFacts.append_empty in E as [_ E]. contradiction. }
      rewrite (URLFacts.constructURL_parts c _ Hne).
      rewrite (URLFacts.prefix_app _ _ Hs), (URLFacts.resultURL_of_prefix b Hs).
      now rewrite StrFacts.append_assoc.
Qed.

(** ** [enumKeys] *)

Module ToNumberFacts.

Import ToNumber.

Lemma digit_not_white_space (c : ascii) : is_digit c = true -> is_white_space c = false.
Proof.
  unfold is_digit, is_white_space. cbn zeta. intros H.
  apply andb_true_iff in H as [H1 H2]. apply Nat.leb_le in H1, H2.
  cbn [existsb]. repeat (rewrite (proj2 (Nat.eqb_neq _ _)) by lia). reflexivity.
Qed.

Lemma trim_start_digits (s : string) : starts_with_digit s = true -> trim_start s = s.
Proof.
  destruct s as [|c s]; [discriminate|]. cbn [starts_with_digit trim_start].
  intros H. now rewrite (digit_not_white_space c H).
Qed.

Lemma all_digits_cons (digit : ascii -> bool) (c : ascii) (s : string) :
  all_digits digit (String c s) = true ->
  digit c = true /\ (s = EmptyString \/ all_digits digit s = true).
Proof.
  cbn [all_digits]. destruct s as [|c' s]; [auto|].
  intros H. apply andb_true_iff in H as [H1 H2]. auto.
Qed.

Lemma trim_end_digits (s : string) : all_digits is_digit s = true -> trim_end s = s.
Proof.
  induction s as [|c s IH]; [reflexivity|]. intros H.
  apply all_digits_cons in H as [Hc [->|Hs]].
  - cbn [trim_end]. now rewrite (digit_not_white_space c Hc).
  - cbn [trim_end]. rewrite (IH Hs). destruct s; [discriminate Hs | reflexivity].
Qed.

Lemma after_all_digits (s : string) : all_digits is_digit s = true -> after_digits s = EmptyString.
Proof.
  induction s as [|c s IH]; [reflexivity|]. intros H.
  apply all_digits_cons in H as [Hc [->|Hs]]; cbn [after_digits]; rewrite Hc; auto.
Qed.

Lemma eqb_by_code (c d : ascii) (n : nat) :
  nat_of_ascii d = n -> nat_of_ascii c <> n -> Ascii.eqb c d = false.
Proof. intros <- H. apply Ascii.eqb_neq. intros ->. now apply H. Qed.

Lemma digit_not_sign (c : ascii) : is_digit c = true -> is_sign c = false.
Proof.
  unfold is_digit, is_sign. cbn zeta. intros H.
  apply andb_true_iff in H as [H1 H2]. apply Nat.leb_le in H1, H2.
  rewrite (eqb_by_code c "+" 43 eq_refl) by lia.
  rewrite (eqb_by_code c "-" 45 eq_refl) by lia. reflexivity.
Qed.

(** A string of decimal digits is a number. *)
Lemma isNaN_index (k : string) : all_digits is_digit k = true -> isNaN k = false.
Proof.
  intros H. unfold isNaN. cbn zeta.
  assert (Hs : starts_with_digit k = true).
  { destruct k as [|c k]; [discriminate H|]. now apply all_digits_cons in H as [Hc _]. }
  rewrite (trim_start_digits k Hs), (trim_end_digits k H).
  assert (Hnum : is_numeric_literal k = true).
  { unfold is_numeric_literal. destruct k as [|c k]; [discriminate H|].
    cbn [starts_with_digit] in Hs. rewrite (digit_not_sign c Hs).
    unfold is_unsigned_decimal.
    destruct (String.eqb (String c k) "Infinity"); [apply orb_true_r|].
    cbn [starts_with_digit]. rewrite Hs, (after_all_digits _ H). apply orb_true_r. }
  rewrite Hnum. now rewrite orb_true_r.
Qed.

Lemma name_start_facts (c : ascii) :
  starts_a_name c = true ->
  is_white_space c = false /\ is_digit c = false /\ is_sign c = false /\
  Ascii.eqb c "." = false /\ Ascii.eqb c "I" = false /\ Ascii.eqb c "0" = false.
Proof.
  unfold starts_a_name. cbn zeta. intros H.
  apply andb_true_iff in H as [H HI]. apply negb_true_iff, Nat.eqb_neq in HI.
  assert (Hn : 65 <= nat_of_ascii c <= 90 \/ 97 <= nat_of_ascii c <= 122
               \/ nat_of_ascii c = 95 \/ nat_of_ascii c = 36).
  { apply orb_true_iff in H as [H|H]; [|apply Nat.eqb_eq in H; auto].
    apply orb_true_iff in H as [H|H]; [|apply Nat.eqb_eq in H; auto].
    apply orb_true_iff in H as [H|H]; apply andb_true_iff in H as [H1 H2];
      apply Nat.leb_le in H1, H2; auto. }
  repeat split.
  - unfold is_white_space. cbn [existsb].
    repeat (rewrite (proj2 (Nat.eqb_neq _ _)) by lia). reflexivity.
  - unfold is_digit. cbn zeta. apply andb_false_iff.
    destruct (Nat.le_gt_cases 48 (nat_of_ascii c));
      [right; apply Nat.leb_gt; lia | left; apply Nat.leb_gt; lia].
  - unfold is_sign. rewrite (eqb_by_code c "+" 43 eq_refl) by lia.
    rewrite (eqb_by_code c "-" 45 eq_refl) by lia. reflexivity.
  - apply (eqb_by_code c "." 46 eq_refl). lia.
  - apply (eqb_by_code c "I" 73 eq_refl). exact HI.
  - apply (eqb_by_code c "0" 48 eq_refl). lia.
Qed.

Lemma trim_end_name (c : ascii) (rest : string) :
  is_white_space c = false -> exists kept, trim_end (String c rest) = String c kept.
Proof.
  intros Hc. cbn [trim_end]. rewrite Hc. destruct (trim_end rest); eauto.
Qed.

(** A name is not a number. *)
Lemma isNaN_name (k : string) : is_name k = true -> isNaN k = true.
Proof.
  destruct k as [|c rest]; [discriminate|]. cbn [is_name]. intros H.
  destruct (name_start_facts c H) as (Hw & Hd & Hs & Hdot & HI & H0).
  unfold isNaN. cbn zeta. cbn [trim_start]. rewrite Hw.
  destruct (trim_end_name c rest Hw) as [kept ->].
  cbn [String.eqb]. unfold is_numeric_literal, is_non_decimal.
  rewrite Hs. unfold is_unsigned_decimal.
  cbn [String.eqb starts_with_digit]. rewrite HI, Hd, Hdot, H0.
  now destruct kept.
Qed.

End ToNumberFacts.

Lemma index_is_no_name (k : string) : is_index k = true -> is_name k = false.
Proof.
  destruct k as [|c k]; [discriminate|]. unfold is_index. intros H.
  apply ToNumberFacts.all_digits_cons in H as [Hc _]. cbn [is_name].
  destruct (starts_a_name c) eqn:E; [|reflexivity].
  destruct (ToNumberFacts.name_start_facts c E) as (_ & Hd & _). congruence.
Qed.

(** X2. [enumKeys] returns keys of the object, keeps every key that
    starts like a name (a letter other than [I], an underscore or a dollar
    sign) and drops every key made of decimal digits, so that of an enum
    object with reverse-mapping entries it returns the member names, in the
    order of [Object.keys].  Of [HTTPMethod] it returns the five keys in
    declaration order, and [HTTPMethod[key]] is the method's value. *)
Theorem enumKeys_keeps_names_drops_indices :
  (forall obj k, In k (enumKeys obj) -> In k (map fst obj)) /\
  (forall obj k, is_index k = true -> ~ In k (enumKeys obj)) /\
  (forall obj k, is_name k = true -> In k (map fst obj) -> In k (enumKeys obj)) /\
  (forall obj,
      Forall (fun k => is_index k = true \/ is_name k = true) (map fst obj) ->
      enumKeys obj = List.filter is_name (map fst obj)) /\
  enumKeys HTTPMethod_enum = map HTTPMethod_key enumKeys_HTTPMethod /\
  (forall m, get_prop (HTTPMethod_key m) HTTPMethod_enum
             = Some (VString (HTTPMethod_value m))).
Proof.
  split; [|split; [|split; [|split; [|split]]]].
  - intros obj k H. unfold enumKeys in H. now apply filter_In in H as [H _].
  - intros obj k Hk H. unfold enumKeys in H. apply filter_In in H as [_ H].
    rewrite (ToNumberFacts.isNaN_index k Hk) in H. discriminate H.
  - intros obj k Hk Hin. unfold enumKeys. apply filter_In. split; [exact Hin|].
    now apply ToNumberFacts.isNaN_name.
  - intros obj. unfold enumKeys. induction (map fst obj) as [|k ks IH]; [reflexivity|].
    intros H. apply Forall_cons in H as [Hk Hks]. cbn [List.filter].
    rewrite (IH Hks). destruct Hk as [Hk|Hk].
    + now rewrite (ToNumberFacts.isNaN_index k Hk), (index_is_no_name k Hk).
    + now rewrite (ToNumberFacts.isNaN_name k Hk), Hk.
  - reflexivity.
  - intros m. destruct m; reflexivity.
Qed.

(** ** [internalFetch] and [optionsReducer], step by step *)

Lemma alloc_eq (o : object) (h : heap) : alloc o h = Ret (length h) (h ++ [o]).
Proof. reflexivity. Qed.

Lemma get_heap_eq (h : heap) : get_heap h = Ret h h.
Proof. reflexivity. Qed.

Lemma ret_eq {A} (a : A) (h : heap) : ret a h = Ret a h.
Proof. reflexivity. Qed.

Lemma default_object_eq (h : heap) :
  (let* a := alloc (OPlain []) in ret (VRef a)) h = Ret (VRef (length h)) (h ++ [OPlain []]).
Proof. reflexivity. Qed.

Ltac step E := rewrite (bind_eq _ _ _ _ _ E); cbv beta.

Lemma internalFetch_prepared (w : World) (url : string) (oo : addr) (ps0 : props)
  (m : HTTPMethod) (h : heap) (u : string) :
  h !! oo = Some (OPlain ps0) ->
  NoDup (map fst ps0) ->
  (forall g, constructURL_of url (member h (VRef oo) "urlPrefix") g = Ret u g) ->
  exists hooks signal ctl init bag h4,
    internalFetch w url (VRef oo) m h
    = dispatch w u hooks (member h (VRef oo) "type") ctl init m h4 /\
    prepared h ps0 hooks signal ctl init bag h4.
Proof.
  intros Hoo Hnd Hurl.
  assert (Hh : exists hooks h1,
             (match member h (VRef oo) "hooks" with
              | VUndefined => let* a := alloc (OPlain []) in ret (VRef a)
              | x => ret x
              end) h = Ret hooks h1 /\ preserved h h1 /\
             (member h (VRef oo) "hooks" = VUndefined ->
              hooks = VRef (length h) /\ h1 = h ++ [OPlain []]) /\
             (member h (VRef oo) "hooks" <> VUndefined ->
              hooks = member h (VRef oo) "hooks" /\ h1 = h)).
  { destruct (member h (VRef oo) "hooks") eqn:E;
      try (eexists _, h; split; [reflexivity|];
           split; [apply preserved_refl|]; split; [discriminate | now intros _]).
    exists (VRef (length h)), (h ++ [OPlain []]). split; [reflexivity|].
    split; [apply preserved_alloc|]. split; [now intros _ | now intros []]. }
  destruct Hh as (hooks & h1 & Hhooks & Hp1 & Hundef & Hgiven).
  set (rest := rest_props ["type"; "urlPrefix"; "hooks"] ps0).
  set (h2 := h1 ++ [OPlain rest]).
  set (h3 := (h2 ++ [OHost "AbortSignal" []])
               ++ [OHost "AbortController" [("signal", VRef (length h2))]]).
  set (bag := spread (spread [] rest) [("signal", VRef (length h2))]).
  assert (Hown : own_props h (VRef oo) = ps0) by (simpl; now rewrite Hoo).
  assert (Hrest : own_props h3 (VRef (length h1)) = rest).
  { simpl. unfold h3, h2. rewrite <- !app_assoc.
    rewrite lookup_app_r by lia. now rewrite Nat.sub_diag. }
  assert (Hctl : h3 !! length (h2 ++ [OHost "AbortSignal" []])
                 = Some (OHost "AbortController" [("signal", VRef (length h2))])).
  { unfold h3. rewrite lookup_app_r by lia. now rewrite Nat.sub_diag. }
  assert (Hslot : slot h3 (VRef (length (h2 ++ [OHost "AbortSignal" []]))) "signal"
                  = VRef (length h2)).
  { unfold slot. now rewrite Hctl. }
  exists hooks, (length h2), (length (h2 ++ [OHost "AbortSignal" []])), (length h3), bag,
    (h3 ++ [OPlain bag]).
  split.
  { unfold internalFetch.
    step (get_heap_eq h). step Hhooks. rewrite Hown. fold rest.
    step (alloc_eq (OPlain rest) h1). fold h2.
    step (Hurl h2).
    step (alloc_eq (OHost "AbortSignal" []) h2).
    step (alloc_eq (OHost "AbortController" [("signal", VRef (length h2))])
            (h2 ++ [OHost "AbortSignal" []])).
    fold h3. step (get_heap_eq h3). rewrite Hrest, Hslot. fold bag.
    step (alloc_eq (OPlain bag) h3). reflexivity. }
  assert (Hl1 : length h <= length h1) by now apply preserved_length.
  assert (Hl2 : length h2 = S (length h1)) by (unfold h2; rewrite length_app; simpl; lia).
  assert (Hl3 : length h3 = S (S (length h2))).
  { unfold h3. rewrite !length_app. simpl. lia. }
  assert (Hndr : NoDup (map fst rest)) by (unfold rest; now apply rest_props_keys).
  unfold prepared.
  split; [|split; [|split; [|split; [|split; [|split; [|split; [|split; [|split; [|split; [|split]]]]]]]]]].
  - eapply preserved_trans; [exact Hp1|]. unfold h3, h2.
    do 3 (eapply preserved_trans; [apply preserved_alloc|]). apply preserved_alloc.
  - apply lookup_ge_None. lia.
  - apply lookup_ge_None. rewrite length_app. simpl. lia.
  - apply lookup_ge_None. lia.
  - rewrite lookup_app_l by lia. unfold h3. rewrite lookup_app_l by (rewrite length_app; simpl; lia).
    rewrite lookup_app_r by lia. now rewrite Nat.sub_diag.
  - rewrite lookup_app_l by (rewrite length_app; simpl; lia). exact Hctl.
  - rewrite lookup_app_r by lia. now rewrite Nat.sub_diag.
  - unfold bag. rewrite get_spread_single. now rewrite String.eqb_refl.
  - intros k Hk. unfold bag. rewrite get_spread_single.
    assert (Es : String.eqb k "signal" = false).
    { simpl in Hk. destruct Hk as [<-|[<-|[<-|[]]]]; reflexivity. }
    rewrite Es, (get_spread_nil rest k Hndr). unfold rest. rewrite get_rest_props.
    simpl in Hk. destruct Hk as [<-|[<-|[<-|[]]]]; reflexivity.
  - intros k Hk. unfold bag. rewrite get_spread_single.
    assert (Hne : forall j, In j ["type"; "urlPrefix"; "hooks"; "signal"] -> k <> j).
    { intros j Hj ->. contradiction. }
    rewrite (proj2 (String.eqb_neq k "signal")) by (apply Hne; simpl; auto).
    rewrite (get_spread_nil rest k Hndr). unfold rest. rewrite get_rest_props.
    cbn [existsb].
    rewrite (proj2 (String.eqb_neq k "type")) by (apply Hne; simpl; auto).
    rewrite (proj2 (String.eqb_neq k "urlPrefix")) by (apply Hne; simpl; auto).
    rewrite (proj2 (String.eqb_neq k "hooks")) by (apply Hne; simpl; auto).
    reflexivity.
  - unfold bag. apply spread_keys, spread_keys. constructor.
  - assert (Hmem : member h (VRef oo) "hooks"
                   = match get_prop "hooks" ps0 with Some x => x | None => VUndefined end)
      by apply (member_plain h oo ps0 "hooks" Hoo).
    assert (Hfresh : member h (VRef oo) "hooks" = VUndefined ->
                     exists a, hooks = VRef a /\ h !! a = None /\
                               (h3 ++ [OPlain bag]) !! a = Some (OPlain [])).
    { intros Hu. destruct (Hundef Hu) as [-> ->]. exists (length h).
      split; [reflexivity|]. split; [apply lookup_ge_None; lia|].
      rewrite lookup_app_l by lia. unfold h3.
      rewrite lookup_app_l by (rewrite length_app; simpl; lia).
      rewrite lookup_app_l by lia. unfold h2.
      rewrite lookup_app_l by (rewrite length_app; simpl; lia).
      rewrite lookup_app_r by lia. now rewrite Nat.sub_diag. }
    destruct (get_prop "hooks" ps0) as [v|]; [|now apply Hfresh].
    destruct v; try (rewrite Hmem in Hgiven; now destruct Hgiven).
    now apply Hfresh.
Qed.

(** [optionsReducer] for POST, PUT and PATCH, step by step: the body is
    serialized in the store the header step leaves. *)
Section Reducer.

Variables (h : heap) (o : addr) (ps : props) (m : HTTPMethod).
Hypothesis Ho : h !! o = Some (OPlain ps).
Hypothesis Hm : sends_body m = true.

Lemma reducer_header_step :
  store_after_headers h o ps !! o = Some (OPlain (bag_after_headers h o ps)) /\
  member (store_after_headers h o ps) (VRef o) "body" = member h (VRef o) "body".
Proof.
  assert (Hlt : o < length h) by (eapply lookup_lt_Some, Ho).
  unfold store_after_headers, bag_after_headers. destruct (injects h o).
  - assert (E : (<[o:=OPlain (set_prop "headers" (VRef (length h)) ps)]>
                   (h ++ [OPlain (injected_headers h o)])) !! o
                = Some (OPlain (set_prop "headers" (VRef (length h)) ps))).
    { apply list_lookup_insert_eq. rewrite length_app. simpl. lia. }
    split; [exact E|].
    rewrite (member_plain _ o _ "body" E). rewrite get_set_ne by discriminate.
    now rewrite (member_plain h o ps "body" Ho).
  - split; [exact Ho | reflexivity].
Qed.

Lemma optionsReducer_steps :
  optionsReducer o m h
  = (let* h := get_heap in
     let body := member h (VRef o) "body" in
     run (if ToBoolean body then
            let* text := Json.stringify body in
            write_prop o "body" text
          else ret tt)
     then ret (VRef o)) (store_after_headers h o ps).
Proof.
  assert (Hlt : o < length h) by (eapply lookup_lt_Some, Ho).
  unfold optionsReducer. rewrite Hm.
  unfold bind at 1. unfold bind at 1. unfold get_heap at 1.
  unfold bind at 1.
  unfold store_after_headers, bag_after_headers, injects.
  destruct (isObject _ && negb _).
  - unfold bind at 1. unfold alloc at 1. fold (injected_headers h o).
    unfold write_prop at 1.
    rewrite (lookup_app_l h [OPlain (injected_headers h o)] o Hlt), Ho. reflexivity.
  - reflexivity.
Qed.

Lemma optionsReducer_returns (t : value) :
  (ToBoolean (member h (VRef o) "body") = true ->
   Json.stringify (member h (VRef o) "body") (store_after_headers h o ps)
   = Ret t (store_after_headers h o ps)) ->
  optionsReducer o m h
  = Ret (VRef o)
      (if ToBoolean (member h (VRef o) "body")
       then <[o := OPlain (set_prop "body" t (bag_after_headers h o ps))]>
              (store_after_headers h o ps)
       else store_after_headers h o ps).
Proof.
  intros Hs. rewrite optionsReducer_steps.
  destruct reducer_header_step as [H1o Hb].
  unfold bind at 1. unfold get_heap at 1. rewrite Hb.
  destruct (ToBoolean (member h (VRef o) "body")) eqn:E.
  - unfold bind at 1. unfold bind at 1. rewrite (Hs eq_refl).
    unfold write_prop. rewrite H1o. reflexivity.
  - reflexivity.
Qed.

End Reducer.

Lemma constructURL_of_cases (url : string) (v : value) :
  (exists u, forall g, constructURL_of url v g = Ret u g) \/
  (exists e, forall g, constructURL_of url v g = Exn e g).
Proof.
  unfold constructURL_of. destruct v; try destruct (ToBoolean _); eauto.
Qed.

Lemma internalFetch_bad_prefix (w : World) (url : string) (oo : value)
  (m : HTTPMethod) (h : heap) (e : exception) :
  (forall g, constructURL_of url (member h oo "urlPrefix") g = Exn e g) ->
  exists h', internalFetch w url oo m h = Exn e h'.
Proof.
  intros Hurl. unfold internalFetch.
  step (get_heap_eq h).
  destruct (member h oo "hooks");
    (unfold bind at 1;
     first [rewrite default_object_eq | unfold ret at 1];
     unfold bind at 1; unfold alloc at 1;
     unfold bind at 1; rewrite Hurl; eauto).
Qed.

(** The hook step of [internalFetch], once the request [r] is built. *)
Lemma dispatch_reduced (w : World) (u : string) (hooks type : value) (ctl init : addr)
  (m : HTTPMethod) (h4 : heap) (r : value) (h5 : heap) :
  optionsReducer init m h4 = Ret r h5 ->
  let request := {| request_url := u; request_init := own_props h5 r |} in
  let p := {| cancelRequest := ctl; pending_request := request;
              pending_hooks := hooks; pending_type := type |} in
  dispatch w u hooks type ctl init m h4
  = match hooks with
    | VUndefined | VNull =>
        Exn (TypeError "Cannot read properties of undefined or null") h5
    | _ =>
        let beforeRequest := member h5 hooks "beforeRequest" in
        if ToBoolean beforeRequest then
          match runBeforeRequestHooks w h5 beforeRequest request with
          | Some e => Exn e h5
          | None => Ret p h5
          end
        else Ret p h5
    end.
Proof.
  intros Hred request p. unfold dispatch.
  step Hred. step (get_heap_eq h5).
  destruct hooks; try reflexivity;
    (unfold get_member; unfold bind at 1; unfold bind at 1;
     unfold get_heap at 1; unfold ret at 1; unfold bind at 1;
     destruct (ToBoolean _); [|reflexivity];
     fold request; destruct (runBeforeRequestHooks _ _ _ _); reflexivity).
Qed.

Lemma dispatch_throws (w : World) (u : string) (hooks type : value) (ctl init : addr)
  (m : HTTPMethod) (h4 : heap) (e : exception) (h5 : heap) :
  optionsReducer init m h4 = Exn e h5 ->
  dispatch w u hooks type ctl init m h4 = Exn e h5.
Proof. intros Hred. unfold dispatch. unfold bind at 1. now rewrite Hred. Qed.

Lemma fueled_ne {A} (m : M A) (h : heap) : fueled m -> m h <> NoFuel.
Proof. intros H. apply H. Qed.

(** What a call of [internalFetch] that returns has done. *)
Lemma internalFetch_returned (w : World) (url : string) (oo : addr) (ps0 : props)
  (m : HTTPMethod) (h : heap) (p : PendingCall) (h' : heap) :
  h !! oo = Some (OPlain ps0) ->
  NoDup (map fst ps0) ->
  internalFetch w url (VRef oo) m h = Ret p h' ->
  exists u signal init bag h4,
    (forall g, constructURL_of url (member h (VRef oo) "urlPrefix") g = Ret u g) /\
    prepared h ps0 (pending_hooks p) signal (cancelRequest p) init bag h4 /\
    optionsReducer init m h4 = Ret (VRef init) h' /\
    pending_request p
    = {| request_url := u; request_init := own_props h' (VRef init) |} /\
    pending_type p = member h (VRef oo) "type" /\
    (ToBoolean (member h' (pending_hooks p) "beforeRequest") = true ->
     runBeforeRequestHooks w h' (member h' (pending_hooks p) "beforeRequest")
       (pending_request p) = None).
Proof.
  intros Hoo Hnd Hret.
  destruct (constructURL_of_cases url (member h (VRef oo) "urlPrefix")) as [[u Hu]|[e He]].
  2:{ destruct (internalFetch_bad_prefix w url (VRef oo) m h e He) as [hx Hx].
      congruence. }
  destruct (internalFetch_prepared w url oo ps0 m h u Hoo Hnd Hu)
    as (hooks & signal & ctl & init & bag & h4 & Heq & Hprep).
  rewrite Heq in Hret.
  destruct (optionsReducer init m h4) as [r h5|e h5|] eqn:Hred.
  - assert (Hinit : h4 !! init = Some (OPlain bag)) by apply Hprep.
    destruct (optionsReducer_effect _ _ _ _ _ _ Hinit Hred) as (-> & _).
    rewrite (dispatch_reduced _ _ _ _ _ _ _ _ _ _ Hred) in Hret.
    cbv zeta in Hret.
    assert (Hcases :
      (if ToBoolean (member h5 hooks "beforeRequest") then
         match runBeforeRequestHooks w h5 (member h5 hooks "beforeRequest")
                 {| request_url := u; request_init := own_props h5 (VRef init) |} with
         | Some e => Exn e h5
         | None => Ret {| cancelRequest := ctl;
                          pending_request := {| request_url := u;
                                                request_init := own_props h5 (VRef init) |};
                          pending_hooks := hooks;
                          pending_type := member h (VRef oo) "type" |} h5
         end
       else Ret {| cancelRequest := ctl;
                   pending_request := {| request_url := u;
                                         request_init := own_props h5 (VRef init) |};
                   pending_hooks := hooks;
                   pending_type := member h (VRef oo) "type" |} h5) = Ret p h').
    { destruct hooks; try discriminate Hret; exact Hret. }
    clear Hret.
    assert (Hp : p = {| cancelRequest := ctl;
                        pending_request := {| request_url := u;
                                              request_init := own_props h5 (VRef init) |};
                        pending_hooks := hooks;
                        pending_type := member h (VRef oo) "type" |} /\ h' = h5 /\
                 (ToBoolean (member h5 hooks "beforeRequest") = true ->
                  runBeforeRequestHooks w h5 (member h5 hooks "beforeRequest")
                    {| request_url := u; request_init := own_props h5 (VRef init) |} = None)).
    { destruct (ToBoolean (member h5 hooks "beforeRequest")).
      - destruct (runBeforeRequestHooks _ _ _ _); [discriminate Hcases|].
        injection Hcases as <- <-. auto.
      - injection Hcases as <- <-. split; [reflexivity|]. split; [reflexivity|]. discriminate. }
    destruct Hp as (-> & -> & Hrun). cbn [pending_hooks cancelRequest pending_request pending_type].
    exists u, signal, init, bag, h4. auto 10.
  - rewrite (dispatch_throws _ _ _ _ _ _ _ _ _ _ Hred) in Hret. discriminate.
  - unfold dispatch in Hret. unfold bind at 1 in Hret. rewrite Hred in Hret. discriminate.
Qed.

(** ** [optionsReducer]: the headers *)

Lemma falsy_not_object (v : value) : ToBoolean v = false -> isObject v = false.
Proof. destruct v; try reflexivity; discriminate. Qed.

Lemma optionsReducer_falsy_body (h : heap) (o : addr) (m : HTTPMethod) :
  ToBoolean (member h (VRef o) "body") = false ->
  optionsReducer o m h = Ret (VRef o) h.
Proof.
  intros Hb. unfold optionsReducer. destruct (sends_body m); [|reflexivity].
  unfold bind at 1. unfold bind at 1. unfold get_heap at 1.
  rewrite (falsy_not_object _ Hb). cbn [andb].
  unfold bind at 1. unfold ret at 1. unfold bind at 1. unfold get_heap at 1.
  now rewrite Hb.
Qed.

(** The serialization of the body in the store after the header step. *)
Lemma stringify_stable (h h1 : heap) (o b : addr) (ps : props) (s : value) :
  wf_heap h = true ->
  h !! o = Some (OPlain ps) ->
  get_prop "body" ps = Some (VRef b) ->
  (forall a, a < length h -> a <> o -> h1 !! a = h !! a) ->
  length h <= length h1 ->
  Json.stringify (VRef b) h = Ret s h ->
  Json.stringify (VRef b) h1 = Ret s h1.
Proof.
  intros Hwf Ho Hbody Hagree Hlen Hjson. unfold Json.stringify in *.
  destruct (Json.serialize (S (length h)) [] h (VRef b)) as [x|r] eqn:E;
    [discriminate|].
  rewrite (JsonFacts.serialize_stable h h1 o b ps Hwf Ho Hbody Hagree
             (S (length h)) (S (length h1)) [] (VRef b) r); auto.
  - destruct r; injection Hjson as <-; reflexivity.
  - lia.
  - eapply wf_children; eauto. simpl. eapply get_prop_In, Hbody.
Qed.

Lemma own_props_falsy (h : heap) (v : value) :
  ToBoolean v = false -> own_props h v = [].
Proof.
  destruct v; try reflexivity; try discriminate. simpl.
  destruct s; [reflexivity | discriminate].
Qed.

Lemma injected_headers_get (h : heap) (o : addr) (k : string) :
  NoDup (map fst (own_props h (member h (VRef o) "headers"))) ->
  get_prop k (injected_headers h o)
  = if String.eqb k "Content-Type"
    then Some (VString "application/json;charset=utf-8")
    else get_prop k (own_props h (member h (VRef o) "headers")).
Proof.
  intros Hnd. unfold injected_headers, CONTENT_TYPE_HEADER.
  rewrite get_spread_single. destruct (String.eqb k "Content-Type"); [reflexivity|].
  destruct (ToBoolean (member h (VRef o) "headers")) eqn:E.
  - now apply get_spread_nil.
  - now rewrite (own_props_falsy h _ E).
Qed.

(** X3. For POST, PUT and PATCH, when the body is an object and the
    headers have no truthy [Content-Type], [optionsReducer] gives the bag a
    new headers object: it holds [Content-Type:
    application/json;charset=utf-8] and, under every other name, what the
    old headers held.  The old headers object and every object of the store
    other than the bag are left as they were, and the body becomes its JSON
    text. *)
Theorem content_type_joins_the_headers :
  forall (h : heap) (o b : addr) (ps : props) (m : HTTPMethod) (s : value),
    wf_heap h = true ->
    h !! o = Some (OPlain ps) ->
    get_prop "body" ps = Some (VRef b) ->
    ToBoolean (member h (member h (VRef o) "headers") "Content-Type") = false ->
    NoDup (map fst (own_props h (member h (VRef o) "headers"))) ->
    Json.stringify (VRef b) h = Ret s h ->
    sends_body m = true ->
    exists h',
      optionsReducer o m h = Ret (VRef o) h' /\
      h !! length h = None /\
      member h' (VRef o) "headers" = VRef (length h) /\
      member h' (VRef (length h)) "Content-Type"
      = VString "application/json;charset=utf-8" /\
      (forall k, k <> "Content-Type" ->
                 member h' (VRef (length h)) k
                 = member h (member h (VRef o) "headers") k) /\
      member h' (VRef o) "body" = s /\
      preserved_but o h h'.
Proof.
  intros h o b ps m s Hwf Ho Hbody Hct Hnd Hjson Hm.
  assert (Hlt : o < length h) by (eapply lookup_lt_Some, Ho).
  assert (Hb : member h (VRef o) "body" = VRef b).
  { rewrite (member_plain h o ps "body" Ho). now rewrite Hbody. }
  assert (Hinj : injects h o = true).
  { unfold injects. rewrite Hb. unfold CONTENT_TYPE_HEADER_TITLE. cbn [map fst CONTENT_TYPE_HEADER].
    now rewrite Hct. }
  set (bag1 := set_prop "headers" (VRef (length h)) ps).
  set (h1 := <[o := OPlain bag1]> (h ++ [OPlain (injected_headers h o)])).
  assert (E1 : store_after_headers h o ps = h1).
  { unfold store_after_headers, bag_after_headers. now rewrite Hinj. }
  assert (Eb : bag_after_headers h o ps = bag1).
  { unfold bag_after_headers. now rewrite Hinj. }
  assert (Hagree : forall a, a < length h -> a <> o -> h1 !! a = h !! a).
  { intros a Ha Hne. unfold h1. rewrite list_lookup_insert_ne by auto.
    now apply lookup_app_l. }
  assert (Hlen : length h1 = S (length h)).
  { unfold h1. rewrite length_insert, length_app. simpl. lia. }
  pose proof (optionsReducer_returns h o ps m Ho Hm s) as Hrun.
  rewrite Hb, E1, Eb in Hrun. cbn [ToBoolean] in Hrun.
  exists (<[o := OPlain (set_prop "body" s bag1)]> h1).
  split.
  { apply Hrun. intros _.
    apply (stringify_stable h h1 o b ps s Hwf Ho Hbody Hagree); [lia | exact Hjson]. }
  assert (Ho' : (<[o := OPlain (set_prop "body" s bag1)]> h1) !! o
                = Some (OPlain (set_prop "body" s bag1))).
  { apply list_lookup_insert_eq. lia. }
  assert (Hh' : (<[o := OPlain (set_prop "body" s bag1)]> h1) !! length h
                = Some (OPlain (injected_headers h o))).
  { rewrite list_lookup_insert_ne by lia. unfold h1.
    rewrite list_lookup_insert_ne by lia.
    rewrite lookup_app_r by lia. now rewrite Nat.sub_diag. }
  split; [apply lookup_ge_None; lia|].
  split; [|split; [|split; [|split]]].
  - rewrite (member_plain _ o _ "headers" Ho').
    rewrite get_set_ne by discriminate. unfold bag1. now rewrite get_set_eq.
  - rewrite (member_plain _ _ _ "Content-Type" Hh').
    now rewrite (injected_headers_get h o "Content-Type" Hnd).
  - intros k Hk. rewrite (member_plain _ _ _ k Hh').
    rewrite (injected_headers_get h o k Hnd).
    now rewrite (proj2 (String.eqb_neq k "Content-Type") Hk).
  - rewrite (member_plain _ o _ "body" Ho'). now rewrite get_set_eq.
  - intros a obj Hne Ha. rewrite list_lookup_insert_ne by auto.
    unfold h1. rewrite list_lookup_insert_ne by auto.
    rewrite lookup_app_l; [exact Ha | eapply lookup_lt_Some, Ha].
Qed.

Lemma content_type_joins_the_headers_witness :
  exists h',
    optionsReducer 0 POST Scenario.post_store = Ret (VRef 0) h' /\
    Scenario.post_store !! 3 = None /\
    member h' (VRef 0) "headers" = VRef 3 /\
    member h' (VRef 3) "Content-Type" = VString "application/json;charset=utf-8" /\
    (forall k, k <> "Content-Type" ->
               member h' (VRef 3) k = member Scenario.post_store (VRef 1) k) /\
    member h' (VRef 0) "body"
    = VString ("{" +:+ Json.quote "title" +:+ ":" +:+ Json.quote "some title" +:+ ","
               +:+ Json.quote "description" +:+ ":" +:+ Json.quote "some description"
               +:+ "}") /\
    preserved_but 0 Scenario.post_store h'.
Proof.
  apply (content_type_joins_the_headers Scenario.post_store 0 2
           [("headers", VRef 1); ("body", VRef 2)] POST _
           eq_refl eq_refl eq_refl eq_refl).
  - apply NoDup_singleton.
  - reflexivity.
  - reflexivity.
Defined.

(** X4. For POST, PUT and PATCH, when the body is truthy and either is
    not an object or comes with headers that carry a truthy [Content-Type],
    [optionsReducer] replaces the body by its JSON text and does nothing
    else: the headers entry and the headers object stay as they are and no
    object is created. *)
Theorem given_content_type_is_kept :
  forall (h : heap) (o : addr) (ps : props) (m : HTTPMethod) (t : value),
    h !! o = Some (OPlain ps) ->
    sends_body m = true ->
    ToBoolean (member h (VRef o) "body") = true ->
    isObject (member h (VRef o) "body") = false
    \/ ToBoolean (member h (member h (VRef o) "headers") "Content-Type") = true ->
    Json.stringify (member h (VRef o) "body") h = Ret t h ->
    optionsReducer o m h = Ret (VRef o) (<[o := OPlain (set_prop "body" t ps)]> h).
Proof.
  intros h o ps m t Ho Hm Hb Hcase Hjson.
  assert (Hinj : injects h o = false).
  { unfold injects, CONTENT_TYPE_HEADER_TITLE. cbn [map fst CONTENT_TYPE_HEADER].
    destruct Hcase as [->| ->]; [reflexivity | apply andb_false_r]. }
  pose proof (optionsReducer_returns h o ps m Ho Hm t) as Hrun.
  unfold store_after_headers, bag_after_headers in Hrun.
  rewrite Hinj, Hb in Hrun. now apply Hrun.
Qed.

Lemma given_content_type_is_kept_witness :
  optionsReducer 0 PATCH Scenario.typed_store
  = Ret (VRef 0)
      (<[0 := OPlain (set_prop "body" (VString ("{" +:+ Json.quote "a" +:+ ":1}"))
                        [("headers", VRef 1); ("body", VRef 2)])]> Scenario.typed_store).
Proof.
  apply (given_content_type_is_kept Scenario.typed_store 0
           [("headers", VRef 1); ("body", VRef 2)] PATCH _ eq_refl eq_refl eq_refl).
  - right. reflexivity.
  - reflexivity.
Defined.

(** ** [internalFetch]: the request and the hooks *)

(** A value of [h] that serializes in [h] serializes to the same text in
    a store that keeps the objects of [h]. *)
Lemma serialize_extend (h h1 : heap) :
  wf_heap h = true ->
  preserved h h1 ->
  forall d d' stack v r,
    d <= d' -> valid h v = true ->
    Json.serialize d stack h v = inr r -> Json.serialize d' stack h1 v = inr r.
Proof.
  intros Hwf Hp.
  induction d as [|d IH]; intros d' stack v r Hle Hval Hser.
  - destruct v; simpl in *; try (destruct d'; exact Hser).
    destruct (existsb (Nat.eqb a) stack); discriminate.
  - destruct d' as [|d']; [lia|].
    destruct v; simpl in *; try exact Hser.
    destruct (existsb (Nat.eqb a) stack) eqn:Est; [discriminate|].
    destruct (valid_lookup h a Hval) as [obj Hobj].
    rewrite (Hp a obj Hobj). rewrite Hobj in Hser.
    assert (Hkids : forall e r0, In e (children obj) ->
              Json.serialize d (a :: stack) h e = inr r0 ->
              Json.serialize d' (a :: stack) h1 e = inr r0).
    { intros e r0 Hin. apply IH; [lia|]. eapply wf_children; eauto. }
    destruct obj as [ps'|es|c sl]; [| |exact Hser].
    + destruct (Json.fields (Json.serialize d (a :: stack) h) ps') as [x|l] eqn:El;
        [discriminate|].
      now rewrite (JsonFacts.fields_agree _ _ ps' Hkids l El).
    + destruct (Json.items (Json.serialize d (a :: stack) h) es) as [x|l] eqn:El;
        [discriminate|].
      now rewrite (JsonFacts.items_agree _ _ es Hkids l El).
Qed.

Lemma stringify_extend (h h1 : heap) (v t : value) :
  wf_heap h = true -> preserved h h1 -> valid h v = true ->
  Json.stringify v h = Ret t h -> Json.stringify v h1 = Ret t h1.
Proof.
  intros Hwf Hp Hv Hjson. unfold Json.stringify in *.
  destruct (Json.serialize (S (length h)) [] h v) as [x|r] eqn:E; [discriminate|].
  rewrite (serialize_extend h h1 Hwf Hp (S (length h)) (S (length h1)) [] v r); auto.
  - destruct r; injection Hjson as <-; reflexivity.
  - apply preserved_length in Hp. lia.
Qed.

Lemma member_valid_wf (h : heap) (o : addr) (ps : props) (k : string) :
  wf_heap h = true -> h !! o = Some (OPlain ps) -> valid h (member h (VRef o) k) = true.
Proof.
  intros Hwf Ho. rewrite (member_plain h o ps k Ho).
  destruct (get_prop k ps) as [v|] eqn:E; [|reflexivity].
  eapply wf_children; eauto. simpl. eapply get_prop_In, E.
Qed.

Lemma store_after_headers_preserved (h0 h : heap) (o : addr) (ps : props) :
  h0 !! o = None -> preserved h0 h -> preserved h0 (store_after_headers h o ps).
Proof.
  intros Hfresh Hp. unfold store_after_headers. destruct (injects h o); [|exact Hp].
  intros a obj Ha. rewrite list_lookup_insert_ne by (intros ->; congruence).
  apply preserved_alloc. now apply Hp.
Qed.

(** [internalFetch] up to the hooks, for a bag whose [urlPrefix] is a
    string or absent and whose body, if one is sent, has a JSON text. *)
Lemma internalFetch_dispatched (w : World) (url : string) (oo : addr) (ps0 : props)
  (m : HTTPMethod) (h : heap) (u : string) :
  h !! oo = Some (OPlain ps0) ->
  NoDup (map fst ps0) ->
  (forall g, constructURL_of url (member h (VRef oo) "urlPrefix") g = Ret u g) ->
  sends_body m = false \/ ToBoolean (member h (VRef oo) "body") = false
  \/ (wf_heap h = true /\
      exists t, Json.stringify (member h (VRef oo) "body") h = Ret t h) ->
  exists hooks signal ctl init bag h4 h5,
    prepared h ps0 hooks signal ctl init bag h4 /\
    optionsReducer init m h4 = Ret (VRef init) h5 /\
    preserved h h5 /\
    let request := {| request_url := u; request_init := own_props h5 (VRef init) |} in
    let p := {| cancelRequest := ctl; pending_request := request;
                pending_hooks := hooks; pending_type := member h (VRef oo) "type" |} in
    internalFetch w url (VRef oo) m h
    = match hooks with
      | VUndefined | VNull =>
          Exn (TypeError "Cannot read properties of undefined or null") h5
      | _ =>
          let beforeRequest := member h5 hooks "beforeRequest" in
          if ToBoolean beforeRequest then
            match runBeforeRequestHooks w h5 beforeRequest request with
            | Some e => Exn e h5
            | None => Ret p h5
            end
          else Ret p h5
      end.
Proof.
  intros Hoo Hnd Hu Hbody_ok.
  destruct (internalFetch_prepared w url oo ps0 m h u Hoo Hnd Hu)
    as (hooks & signal & ctl & init & bag & h4 & Heq & Hprep).
  pose proof Hprep as (Hp4 & _ & _ & Hfresh & _ & _ & Hinit & _ & _ & Hkeep & _).
  assert (Hbody : member h4 (VRef init) "body" = member h (VRef oo) "body").
  { rewrite (member_plain h4 init bag "body" Hinit), (member_plain h oo ps0 "body" Hoo).
    rewrite Hkeep; [reflexivity|].
    simpl. intros [H|[H|[H|[H|[]]]]]; discriminate H. }
  assert (Hred : exists h5, optionsReducer init m h4 = Ret (VRef init) h5).
  { destruct Hbody_ok as [Em|[Eb|(Hwf & t & Hjson)]].
    - eexists. now apply optionsReducer_no_body_method.
    - eexists. apply optionsReducer_falsy_body. now rewrite Hbody.
    - destruct (sends_body m) eqn:Em;
        [|eexists; now apply optionsReducer_no_body_method].
      eexists. apply (optionsReducer_returns h4 init bag m Hinit Em t).
      intros _. rewrite Hbody.
      apply (stringify_extend h _ _ t Hwf); [| |exact Hjson].
      + now apply store_after_headers_preserved.
      + now apply (member_valid_wf h oo ps0). }
  destruct Hred as [h5 Hred].
  exists hooks, signal, ctl, init, bag, h4, h5.
  split; [exact Hprep|]. split; [exact Hred|].
  destruct (optionsReducer_effect _ _ _ _ _ _ Hinit Hred) as (_ & Hb5 & _).
  split; [now apply (preserved_but_fresh init h h4 h5)|].
  cbv zeta. rewrite Heq. now apply dispatch_reduced.
Qed.

Lemma call_each_None (w : World) (hooks : list value) (argument : hook_argument) :
  call_each w hooks argument = None <->
  Forall (fun g => exists n, g = VFunction n /\ call_hook w n argument = None) hooks.
Proof.
  induction hooks as [|g hooks IH]; cbn [call_each].
  - split; [constructor | reflexivity].
  - split.
    + intros H. destruct g; try discriminate H.
      destruct (call_hook w f argument) eqn:E; [discriminate H|].
      constructor; [eauto | now apply IH].
    + intros H. apply Forall_cons in H as [(n & -> & Hn) H].
      rewrite Hn. now apply IH.
Qed.

Lemma call_each_throws (w : World) (before after : list value) (f : nat)
  (argument : hook_argument) (e : exception) :
  call_each w before argument = None ->
  call_hook w f argument = Some e ->
  call_each w (before ++ VFunction f :: after) argument = Some e.
Proof.
  intros Hb Hf. induction before as [|g before IH]; cbn [call_each app].
  - now rewrite Hf.
  - cbn [call_each] in Hb. destruct g; try discriminate Hb.
    destruct (call_hook w f0 argument); [discriminate Hb|]. now apply IH.
Qed.

Lemma constructURL_of_string (url : string) (v : value) :
  v = VUndefined \/ (exists prefix, v = VString prefix) ->
  exists u, forall g, constructURL_of url v g = Ret u g.
Proof. intros [->|[prefix ->]]; eexists; intros g; reflexivity. Qed.

Lemma member_ref_valid (h : heap) (a : addr) (k : string) (b : addr) :
  member h (VRef a) k = VRef b -> valid h (VRef a) = true.
Proof.
  intros H. simpl. apply Nat.ltb_lt.
  destruct (h !! a) eqn:E; [eapply lookup_lt_Some, E|].
  unfold member in H. simpl in H. rewrite E in H. discriminate H.
Qed.

Lemma keeps_Ret {A} (m : M A) (h : heap) (a : A) (h' : heap) :
  keeps preserved m -> m h = Ret a h' -> preserved h h'.
Proof. intros Hk H. specialize (Hk h). now rewrite H in Hk. Qed.



(** X6. The default [hooks = {}] covers [undefined] only.  A bag with no
    [hooks] entry, or with [hooks: undefined], makes [internalFetch] return
    a pending call whose hooks are a new empty object; with [hooks: null]
    it throws a [TypeError].  (Same conditions on [urlPrefix] and body as
    in X5; the [Request] constructor is taken to accept the URL and the
    options it is given.) *)
Theorem hooks_default_is_for_undefined :
  forall (w : World) (url : string) (oo : addr) (ps0 : props) (m : HTTPMethod)
         (h : heap),
    h !! oo = Some (OPlain ps0) ->
    NoDup (map fst ps0) ->
    member h (VRef oo) "urlPrefix" = VUndefined
    \/ (exists prefix, member h (VRef oo) "urlPrefix" = VString prefix) ->
    sends_body m = false \/ ToBoolean (member h (VRef oo) "body") = false
    \/ (wf_heap h = true /\
        exists t, Json.stringify (member h (VRef oo) "body") h = Ret t h) ->
    (get_prop "hooks" ps0 = None \/ get_prop "hooks" ps0 = Some VUndefined ->
     exists p h' a,
       internalFetch w url (VRef oo) m h = Ret p h' /\
       pending_hooks p = VRef a /\ h !! a = None /\ h' !! a = Some (OPlain [])) /\
    (get_prop "hooks" ps0 = Some VNull ->
     exists message h',
       internalFetch w url (VRef oo) m h = Exn (TypeError message) h').
Proof.
  intros w url oo ps0 m h Hoo Hnd Hprefix Hjson.
  destruct (constructURL_of_string url _ Hprefix) as [u Hu].
  destruct (internalFetch_dispatched w url oo ps0 m h u Hoo Hnd Hu Hjson)
    as (hooks & signal & ctl & init & bag & h4 & h5 & Hprep & Hred & Hp5 & Heq).
  cbv zeta in Heq.
  pose proof Hprep as (_ & _ & _ & _ & _ & _ & Hinit & Hsig & _ & _ & _ & Hh).
  destruct (optionsReducer_effect _ _ _ _ _ _ Hinit Hred) as (_ & Hb5 & _).
  split.
  - intros Habsent.
    assert (Ha : exists a, hooks = VRef a /\ h !! a = None /\ h4 !! a = Some (OPlain [])).
    { destruct Habsent as [E|E]; rewrite E in Hh; exact Hh. }
    destruct Ha as (a & -> & Hfresh & Ha4).
    assert (Hne : a <> init).
    { intros ->. rewrite Hinit in Ha4. injection Ha4 as ->. discriminate Hsig. }
    assert (Ha5 : h5 !! a = Some (OPlain [])) by now apply Hb5.
    rewrite (member_plain h5 a [] "beforeRequest" Ha5) in Heq.
    cbn [get_prop ToBoolean] in Heq.
    eexists _, h5, a. split; [exact Heq|]. auto.
  - intros Hnull. rewrite Hnull in Hh. subst hooks. eauto.
Qed.

Lemma hooks_default_is_for_undefined_witness :
  exists p h' a,
    internalFetch Sample.quiet "http://some-url.com/products" (VRef 0) PUT
      Sample.put_store = Ret p h' /\
    pending_hooks p = VRef a /\ Sample.put_store !! a = None /\
    h' !! a = Some (OPlain []).
Proof.
  refine (proj1 (hooks_default_is_for_undefined Sample.quiet "http://some-url.com/products"
                   0 [("body", VRef 1)] PUT Sample.put_store
                   eq_refl (NoDup_singleton _) (or_introl eq_refl) _) _).
  - right. right. split; [reflexivity|]. eexists. reflexivity.
  - left. reflexivity.
Defined.

Lemma falsy_prefix_keeps_url (url : string) (v : value) (u : string) (g : heap) :
  ToBoolean v = false -> constructURL_of url v g = Ret u g -> u = url.
Proof.
  intros Hv. unfold constructURL_of. destruct v; try discriminate Hv; cbn [ToBoolean] in *.
  - now intros [= <-].
  - now intros [= <-].
  - rewrite Hv. now intros [= <-].
  - rewrite Hv. now intros [= <-].
  - destruct s; [|discriminate Hv]. now intros [= <-].
Qed.

(** X7. A [urlPrefix] that is not a string: a falsy one ([null], [false],
    [0], as well as the empty string and [undefined]) is treated as no
    prefix, so a call that returns has built its request for the URL as
    given; [true], a number other than [0] or a function makes
    [internalFetch] throw a [TypeError]. *)
Theorem urlPrefix_of_another_type :
  forall (w : World) (url : string) (oo : addr) (ps0 : props) (m : HTTPMethod) (h : heap),
    h !! oo = Some (OPlain ps0) ->
    NoDup (map fst ps0) ->
    let urlPrefix := member h (VRef oo) "urlPrefix" in
    (ToBoolean urlPrefix = false ->
     forall p h', internalFetch w url (VRef oo) m h = Ret p h' ->
                  request_url (pending_request p) = url) /\
    (urlPrefix = VBool true \/ (exists n, n <> 0%Z /\ urlPrefix = VNumber n)
     \/ (exists f, urlPrefix = VFunction f) ->
     exists message h',
       internalFetch w url (VRef oo) m h = Exn (TypeError message) h').
Proof.
  intros w url oo ps0 m h Hoo Hnd urlPrefix. split.
  - intros Hfalsy p h' Hret.
    destruct (internalFetch_returned w url oo ps0 m h p h' Hoo Hnd Hret)
      as (u & signal & init & bag & h4 & Hu & _ & _ & Hreq & _).
    rewrite Hreq. cbn [request_url].
    now apply (falsy_prefix_keeps_url url urlPrefix u h Hfalsy).
  - intros Hcase.
    assert (He : forall g, constructURL_of url urlPrefix g
                           = Exn (TypeError "urlPrefix.endsWith is not a function") g).
    { intros g. destruct Hcase as [->|[(n & Hn & ->)|(f & ->)]]; try reflexivity.
      unfold constructURL_of. cbn [ToBoolean].
      now rewrite (proj2 (Z.eqb_neq n 0) Hn). }
    destruct (internalFetch_bad_prefix w url (VRef oo) m h _ He) as [h' Hx]. eauto.
Qed.

Lemma urlPrefix_of_another_type_witness :
  exists message h',
    internalFetch Sample.quiet "products" (VRef 0) GET Scenario.number_prefix_store
    = Exn (TypeError message) h'.
Proof.
  apply (proj2 (urlPrefix_of_another_type Sample.quiet "products" 0
                  [("urlPrefix", VNumber 5)] GET Scenario.number_prefix_store
                  eq_refl (NoDup_singleton _))).
  right. left. exists 5%Z. split; [discriminate | reflexivity].
Defined.

(** X8. The entries of the options that a returning [internalFetch] has
    passed to [new Request]: none under [type], [urlPrefix] or [hooks];
    under [signal] the signal of the controller that the cancel handle
    aborts, both created by this call, whatever [signal] the bag had; every
    entry of the bag other than these and [headers] and [body] as it is;
    and [headers] and [body] as they are too when the method the call was
    made for (the [httpMethod] argument, not a [method] entry of the bag)
    is GET or DELETE, or when the body is falsy. *)
Theorem request_init_entries :
  forall (w : World) (url : string) (oo : addr) (ps0 : props) (m : HTTPMethod)
         (h : heap) (p : PendingCall) (h' : heap),
    h !! oo = Some (OPlain ps0) ->
    NoDup (map fst ps0) ->
    internalFetch w url (VRef oo) m h = Ret p h' ->
    let init := request_init (pending_request p) in
    (forall k, In k ["type"; "urlPrefix"; "hooks"] -> get_prop k init = None) /\
    (exists signal,
        get_prop "signal" init = Some (VRef signal) /\
        h !! signal = None /\ h !! cancelRequest p = None /\
        h' !! cancelRequest p = Some (OHost "AbortController" [("signal", VRef signal)]) /\
        h' !! signal = Some (OHost "AbortSignal" [])) /\
    (forall k, ~ In k ["type"; "urlPrefix"; "hooks"; "signal"; "headers"; "body"] ->
               get_prop k init = get_prop k ps0) /\
    (sends_body m = false \/ ToBoolean (member h (VRef oo) "body") = false ->
     get_prop "headers" init = get_prop "headers" ps0 /\
     get_prop "body" init = get_prop "body" ps0).
Proof.
  intros w url oo ps0 m h p h' Hoo Hnd Hret init.
  destruct (internalFetch_returned w url oo ps0 m h p h' Hoo Hnd Hret)
    as (u & signal & ini & bag & h4 & Hu & Hprep & Hred & Hreq & _).
  destruct Hprep as (Hp4 & Hfs & Hfc & Hfi & Hsig4 & Hctl4 & Hinit & Hsig & Hexcl & Hkeep & _).
  destruct (optionsReducer_effect _ _ _ _ _ _ Hinit Hred) as (_ & Hb5 & bag' & Hbag' & Hsame).
  assert (Einit : init = bag').
  { unfold init. rewrite Hreq. cbn [request_init own_props]. now rewrite Hbag'. }
  rewrite Einit.
  assert (Hne : forall a obj, h4 !! a = Some obj -> (forall ps, obj <> OPlain ps) -> a <> ini).
  { intros a obj Ha Hobj ->. rewrite Hinit in Ha. injection Ha as <-. now apply (Hobj bag). }
  split; [|split; [|split]].
  - intros k Hk. rewrite Hsame.
    + now apply Hexcl.
    + simpl in Hk. destruct Hk as [<-|[<-|[<-|[]]]]; discriminate.
    + simpl in Hk. destruct Hk as [<-|[<-|[<-|[]]]]; discriminate.
  - exists signal. split; [|split; [exact Hfs|split; [exact Hfc|split]]].
    + rewrite Hsame by discriminate. exact Hsig.
    + apply Hb5; [|exact Hctl4]. eapply Hne; [exact Hctl4 | discriminate].
    + apply Hb5; [|exact Hsig4]. eapply Hne; [exact Hsig4 | discriminate].
  - intros k Hk. rewrite Hsame.
    + apply Hkeep. simpl in *. tauto.
    + intros ->. apply Hk. simpl. auto 10.
    + intros ->. apply Hk. simpl. auto 10.
  - intros Hcase.
    assert (Hbody : member h4 (VRef ini) "body" = member h (VRef oo) "body").
    { rewrite (member_plain h4 ini bag "body" Hinit), (member_plain h oo ps0 "body" Hoo).
      rewrite Hkeep; [reflexivity|].
      simpl. intros [H|[H|[H|[H|[]]]]]; discriminate H. }
    assert (Hsame4 : optionsReducer ini m h4 = Ret (VRef ini) h4).
    { destruct Hcase as [Em|Eb].
      - now apply optionsReducer_no_body_method.
      - apply optionsReducer_falsy_body. now rewrite Hbody. }
    rewrite Hsame4 in Hred. injection Hred as <-.
    rewrite Hinit in Hbag'. injection Hbag' as <-.
    split; apply Hkeep; simpl; intros [H|[H|[H|[H|[]]]]]; discriminate H.
Qed.

Lemma request_init_entries_witness :
  exists p h' signal,
    internalFetch Sample.quiet "http://site.com/products" (VRef 0) GET
      Scenario.signal_store = Ret p h' /\
    get_prop "type" (request_init (pending_request p)) = None /\
    get_prop "signal" (request_init (pending_request p)) = Some (VRef signal) /\
    Scenario.signal_store !! signal = None /\
    get_prop "credentials" (request_init (pending_request p))
    = Some (VString "include").
Proof.
  assert (H : { r : PendingCall * heap |
                internalFetch Sample.quiet "http://site.com/products" (VRef 0) GET
                  Scenario.signal_store = Ret (fst r) (snd r) }).
  { eexists (_, _). vm_compute. reflexivity. }
  destruct H as [[p h'] H].
  assert (Hnd : NoDup (map fst [("signal", VString "mine"); ("type", VString "text");
                                ("credentials", VString "include")])).
  { apply NoDup_ListNoDup. repeat constructor; simpl; intros Hin;
      repeat destruct Hin as [Hin|Hin]; try discriminate Hin; exact Hin. }
  destruct (request_init_entries Sample.quiet "http://site.com/products" 0 _ GET
              Scenario.signal_store p h' eq_refl Hnd H)
    as (Hexcl & (signal & Hsig & Hfresh & _) & Hkeep & _).
  exists p, h', signal. split; [exact H|].
  split; [apply Hexcl; simpl; auto|]. split; [exact Hsig|]. split; [exact Hfresh|].
  rewrite Hkeep; [reflexivity|].
  simpl. intros Hin. repeat destruct Hin as [Hin|Hin]; try discriminate Hin; exact Hin.
Defined.

(** X9. When [internalFetch] returns, every before-request hook of the
    bag has been called with the request that the pending call transmits,
    and has returned. *)
Theorem before_hooks_see_the_request :
  forall (w : World) (url : string) (oo : addr) (ps0 : props) (m : HTTPMethod)
         (h : heap) (p : PendingCall) (h' : heap) (hk arr : addr) (es : list value),
    h !! oo = Some (OPlain ps0) ->
    NoDup (map fst ps0) ->
    internalFetch w url (VRef oo) m h = Ret p h' ->
    get_prop "hooks" ps0 = Some (VRef hk) ->
    member h (VRef hk) "beforeRequest" = VRef arr ->
    h !! arr = Some (OArray es) ->
    pending_hooks p = VRef hk /\
    Forall (fun g => exists n, g = VFunction n /\
                       call_hook w n (OfRequest (pending_request p)) = None) es.
Proof.
  intros w url oo ps0 m h p h' hk arr es Hoo Hnd Hret Hhooks Hbr Harr.
  destruct (internalFetch_returned w url oo ps0 m h p h' Hoo Hnd Hret)
    as (u & signal & ini & bag & h4 & Hu & Hprep & Hred & Hreq & _ & Hrun).
  assert (Hh : pending_hooks p = VRef hk).
  { destruct Hprep as (_ & _ & _ & _ & _ & _ & _ & _ & _ & _ & _ & Hh).
    now rewrite Hhooks in Hh. }
  split; [exact Hh|].
  pose proof (keeps_Ret _ _ _ _ (internalFetch_keeps w url (VRef oo) m) Hret) as Hp.
  rewrite Hh in Hrun.
  rewrite (member_preserved h h') in Hrun;
    [| eapply member_ref_valid, Hbr | exact Hp].
  rewrite Hbr in Hrun. specialize (Hrun eq_refl).
  unfold runBeforeRequestHooks, iterate in Hrun. rewrite (Hp _ _ Harr) in Hrun.
  now apply call_each_None.
Qed.

Lemma before_hooks_see_the_request_witness :
  exists p h',
    internalFetch Sample.quiet "http://site.com/products" (VRef 0) GET
      Scenario.hooks_store = Ret p h' /\
    pending_hooks p = VRef 1 /\
    Forall (fun g => exists n, g = VFunction n /\
                       call_hook Sample.quiet n (OfRequest (pending_request p)) = None)
      [VFunction 1; VFunction 2].
Proof.
  assert (H : { r : PendingCall * heap |
                internalFetch Sample.quiet "http://site.com/products" (VRef 0) GET
                  Scenario.hooks_store = Ret (fst r) (snd r) }).
  { eexists (_, _). vm_compute. reflexivity. }
  destruct H as [[p h'] H]. exists p, h'. split; [exact H|].
  apply (before_hooks_see_the_request Sample.quiet "http://site.com/products" 0
           [("hooks", VRef 1)] GET Scenario.hooks_store p h' 1 2
           [VFunction 1; VFunction 2] eq_refl (NoDup_singleton _) H eq_refl eq_refl eq_refl).
Defined.

(** X10. When the transport answers and, among the after-response hooks,
    every hook before the hook [f] returns on the response and [f] throws
    [e], the promise rejects with [e]: whatever the status of the response,
    whatever hooks follow [f], whatever the [type]. *)
Theorem throwing_after_hook :
  forall (w : World) (h : heap) (p : PendingCall) (response : Response) (arr : addr)
         (before after : list value) (f : nat) (e : exception),
    fetch w (pending_request p) = Resolved response ->
    member h (pending_hooks p) "afterResponse" = VRef arr ->
    h !! arr = Some (OArray (before ++ VFunction f :: after)) ->
    Forall (fun g => exists n, g = VFunction n /\
                       call_hook w n (OfResponse response) = None) before ->
    call_hook w f (OfResponse response) = Some e ->
    request w h p = Rejected e.
Proof.
  intros w h p response arr before after f e Hfetch Haft Harr Hbefore Hf.
  unfold request. rewrite Hfetch, Haft. cbn [ToBoolean].
  unfold runAfterResponseHooks, iterate. rewrite Harr.
  rewrite (call_each_throws w before after f (OfResponse response) e);
    [reflexivity | now apply call_each_None | exact Hf].
Qed.

Lemma throwing_after_hook_witness :
  request Sample.throwing Scenario.after_store
    {| cancelRequest := 0;
       pending_request := {| request_url := "http://site.com/products";
                             request_init := [] |};
       pending_hooks := VRef 1;
       pending_type := VUndefined |}
  = Rejected (Thrown (VString "redirect")).
Proof.
  apply (throwing_after_hook Sample.throwing Scenario.after_store
           {| cancelRequest := 0;
              pending_request := {| request_url := "http://site.com/products";
                                    request_init := [] |};
              pending_hooks := VRef 1;
              pending_type := VUndefined |}
           Sample.unauthorized 2
           [VFunction 1] [VFunction 2] 7 (Thrown (VString "redirect"))
           eq_refl eq_refl eq_refl).
  - constructor; [|constructor]. exists 1. split; reflexivity.
  - reflexivity.
Defined.

(** ** The promise and the method table *)

(** X11. For a call whose [type] is absent or one of the enum's values:
    if the promise resolves, then the transport answered with a status
    within 200-299, every after-response hook returned, the body accessor
    named by the type gave the envelope's [data], the envelope's [status]
    and [statusText] are the response's, and its [cancel] is the call's
    own cancel handle. *)
Theorem resolved_envelope :
  forall (w : World) (h : heap) (p : PendingCall) (t : ResponseBodyType)
         (envelope : FetchDataResponse),
    (pending_type p = VUndefined /\ t = JSON
     \/ pending_type p = VString (ResponseBodyType_value t)) ->
    request w h p = Resolved envelope ->
    exists response : Response,
      fetch w (pending_request p) = Resolved response /\
      (200 <= response_status response <= 299)%Z /\
      (ToBoolean (member h (pending_hooks p) "afterResponse") = true ->
       runAfterResponseHooks w h (member h (pending_hooks p) "afterResponse") response
       = None) /\
      response_bodyAs response t = inr (data envelope) /\
      status envelope = response_status response /\
      statusText envelope = response_statusText response /\
      cancel envelope = cancelRequest p.
Proof.
  intros w h p t envelope Htype H. unfold request in H.
  destruct (fetch w (pending_request p)) as [response|e]; [|discriminate H].
  exists response. split; [reflexivity|].
  assert (Hacc : body_accessor
                   (if ToBoolean (pending_type p) then pending_type p
                    else VString DEFAULT_EXPECTED_DATA_TYPE) = Some t).
  { destruct Htype as [[-> ->]| ->]; [reflexivity|]. destruct t; reflexivity. }
  rewrite Hacc in H.
  assert (Hhooks : (if ToBoolean (member h (pending_hooks p) "afterResponse")
                   then runAfterResponseHooks w h
                          (member h (pending_hooks p) "afterResponse") response
                   else None) = None).
  { destruct (if ToBoolean _ then _ else _); [discriminate H | reflexivity]. }
  rewrite Hhooks in H.
  destruct (response_ok response) eqn:Eok; [|discriminate H]. cbn [negb] in H.
  destruct (response_bodyAs response t) as [x|d] eqn:Eb; [discriminate H|].
  injection H as <-. cbn [data status statusText cancel].
  unfold response_ok in Eok. apply andb_true_iff in Eok as [H1 H2].
  apply Z.leb_le in H1, H2.
  split; [lia|]. split; [|auto].
  intros Ht. now rewrite Ht in Hhooks.
Qed.

Lemma resolved_envelope_witness :
  exists response : Response,
    fetch Sample.greeting
      {| request_url := "http://some-url.com/products"; request_init := [] |}
    = Resolved response /\
    (200 <= response_status response <= 299)%Z /\
    (ToBoolean (member Sample.empty_store (VRef 1) "afterResponse") = true ->
     runAfterResponseHooks Sample.greeting Sample.empty_store
       (member Sample.empty_store (VRef 1) "afterResponse") response = None) /\
    response_bodyAs response TEXT = inr (VString "Hello!") /\
    200%Z = response_status response /\
    "OK" = response_statusText response /\
    0 = 0.
Proof.
  exact (resolved_envelope Sample.greeting Sample.empty_store
           {| cancelRequest := 0;
              pending_request := {| request_url := "http://some-url.com/products";
                                    request_init := [] |};
              pending_hooks := VRef 1;
              pending_type := VString "text" |}
           TEXT
           {| cancel := 0; status := 200; statusText := "OK"; data := VString "Hello!" |}
           (or_intror eq_refl) eq_refl).
Defined.

Lemma get_entry_five (d : value) (name : string) (s : Shortcut) :
  get_entry name
    (fold_left
       (fun resultFetchData httpMethod =>
          set_entry (HTTPMethod_value httpMethod)
            {| bound_defaultOptions := d; bound_httpMethod := httpMethod |}
            resultFetchData)
       enumKeys_HTTPMethod []) = Some s <->
  exists m, name = HTTPMethod_value m /\
            s = {| bound_defaultOptions := d; bound_httpMethod := m |}.
Proof.
  cbn [fold_left enumKeys_HTTPMethod set_entry HTTPMethod_value String.eqb Ascii.eqb
         Bool.eqb].
  split.
  - cbn [get_entry].
    destruct (String.eqb name "get") eqn:E1;
      [apply String.eqb_eq in E1; intros [= <-]; now exists GET|].
    destruct (String.eqb name "put") eqn:E2;
      [apply String.eqb_eq in E2; intros [= <-]; now exists PUT|].
    destruct (String.eqb name "post") eqn:E3;
      [apply String.eqb_eq in E3; intros [= <-]; now exists POST|].
    destruct (String.eqb name "patch") eqn:E4;
      [apply String.eqb_eq in E4; intros [= <-]; now exists PATCH|].
    destruct (String.eqb name "delete") eqn:E5;
      [apply String.eqb_eq in E5; intros [= <-]; now exists DELETE|].
    discriminate.
  - intros (m & -> & ->). destruct m; reflexivity.
Qed.

(** X12. [createFetchData] returns a table with exactly the entries
    [get], [put], [post], [patch] and [delete], in this order, each bound
    to its method and all bound to the same default options: the value
    given, with the store unchanged, or one new empty object when none is
    given.  Under any other name the table has no entry. *)
Theorem client_has_five_shortcuts :
  forall (defaultOptions : value) (h : heap),
    exists client h' bound,
      createFetchData defaultOptions h = Ret client h' /\
      (defaultOptions <> VUndefined -> bound = defaultOptions /\ h' = h) /\
      (defaultOptions = VUndefined -> bound = VRef (length h) /\ h' = h ++ [OPlain []]) /\
      map fst client = ["get"; "put"; "post"; "patch"; "delete"] /\
      (forall name s,
          get_entry name client = Some s <->
          exists m, name = HTTPMethod_value m /\
                    s = {| bound_defaultOptions := bound; bound_httpMethod := m |}) /\
      (forall name, (forall m, name <> HTTPMethod_value m) ->
                    get_entry name client = None).
Proof.
  intros d h.
  assert (Hnone : forall b name, (forall m, name <> HTTPMethod_value m) ->
            get_entry name
              (fold_left
                 (fun resultFetchData httpMethod =>
                    set_entry (HTTPMethod_value httpMethod)
                      {| bound_defaultOptions := b; bound_httpMethod := httpMethod |}
                      resultFetchData)
                 enumKeys_HTTPMethod []) = None).
  { intros b name Hname. destruct (get_entry name _) as [s|] eqn:E; [|reflexivity].
    apply get_entry_five in E as (m & -> & _). now destruct (Hname m). }
  destruct d.
  1: exists (fold_left
               (fun resultFetchData httpMethod =>
                  set_entry (HTTPMethod_value httpMethod)
                    {| bound_defaultOptions := VRef (length h);
                       bound_httpMethod := httpMethod |}
                    resultFetchData)
               enumKeys_HTTPMethod []), (h ++ [OPlain []]), (VRef (length h)).
  2-7: eexists _, h, _.
  all: (split; [reflexivity|]; split; [try (now intros []); auto|];
        split; [try discriminate; auto|]; split; [reflexivity|];
        split; [intros name sc; apply get_entry_five | apply Hnone]).
Qed.

(** ** Calls one after the other *)

Lemma call_method_keeps (w : World) (fuel : nat) (client : FetchData) (name url : string)
  (options : value) :
  keeps preserved (call_method w fuel client name url options).
Proof.
  unfold call_method. destruct (get_entry name client).
  - apply call_shortcut_keeps.
  - intros h. apply preserved_refl.
Qed.

Lemma session_preserved (w : World) (fuel : nat) (calls : list Call) :
  forall h h', session w fuel calls h = Some h' -> preserved h h'.
Proof.
  induction calls as [|c calls IH]; intros h h' H.
  - injection H as <-. apply preserved_refl.
  - cbn [session] in H.
    pose proof (call_method_keeps w fuel (call_client c) (call_name c) (call_url c)
                  (call_options c) h) as Hk.
    destruct (call_method w fuel (call_client c) (call_name c) (call_url c)
                (call_options c) h)
      as [p h1|e h1|]; [| |discriminate H];
      (eapply preserved_trans; [exact Hk | now apply IH]).
Qed.

Lemma iterate_preserved (h h' : heap) (v : value) :
  valid h v = true -> preserved h h' -> iterate h' v = iterate h v.
Proof.
  intros Hv Hp. destruct v; try reflexivity.
  simpl. now rewrite (preserved_ref h h' a Hv Hp).
Qed.

Lemma request_preserved (w : World) (h h' : heap) (p : PendingCall) :
  valid h (pending_hooks p) = true ->
  valid h (member h (pending_hooks p) "afterResponse") = true ->
  preserved h h' ->
  request w h' p = request w h p.
Proof.
  intros Hv Hva Hp. unfold request.
  rewrite (member_preserved h h' _ "afterResponse" Hv Hp).
  unfold runAfterResponseHooks.
  now rewrite (iterate_preserved h h' _ Hva Hp).
Qed.

(** X13. How the promise of a pending call settles does not depend on
    what the store holds besides the objects of the call: in every store
    that keeps the objects of the store the call left, and so after any
    further calls on any clients, the promise settles as in the store the
    call left.  (A hook is a function that returns or throws, as in the
    model of hooks above.) *)
Theorem pending_call_is_settled_alike :
  forall (w : World) (url : string) (oo : addr) (ps0 : props) (m : HTTPMethod)
         (h : heap) (p : PendingCall) (h' : heap),
    wf_heap h = true ->
    h !! oo = Some (OPlain ps0) ->
    NoDup (map fst ps0) ->
    internalFetch w url (VRef oo) m h = Ret p h' ->
    (forall h'', preserved h' h'' -> request w h'' p = request w h' p) /\
    (forall fuel calls h'',
        session w fuel calls h' = Some h'' ->
        request w h'' p = request w h' p).
Proof.
  intros w url oo ps0 m h p h' Hwf Hoo Hnd Hret.
  destruct (internalFetch_returned w url oo ps0 m h p h' Hoo Hnd Hret)
    as (u & signal & ini & bag & h4 & _ & Hprep & Hred & _).
  pose proof (keeps_Ret _ _ _ _ (internalFetch_keeps w url (VRef oo) m) Hret) as Hp.
  destruct Hprep as (_ & _ & _ & _ & _ & _ & Hinit & Hsig & _ & _ & _ & Hh).
  destruct (optionsReducer_effect _ _ _ _ _ _ Hinit Hred) as (_ & Hb5 & _).
  assert (Hvalid : valid h' (pending_hooks p) = true /\
                   valid h' (member h' (pending_hooks p) "afterResponse") = true).
  { assert (Hfresh : (exists a, pending_hooks p = VRef a /\ h !! a = None /\
                                h4 !! a = Some (OPlain [])) ->
                     valid h' (pending_hooks p) = true /\
                     valid h' (member h' (pending_hooks p) "afterResponse") = true).
    { intros (a & -> & _ & Ha4).
      assert (Hne : a <> ini).
      { intros ->. rewrite Hinit in Ha4. injection Ha4 as ->. discriminate Hsig. }
      assert (Ha5 : h' !! a = Some (OPlain [])) by now apply Hb5.
      split.
      - simpl. apply Nat.ltb_lt. eapply lookup_lt_Some, Ha5.
      - now rewrite (member_plain h' a [] "afterResponse" Ha5). }
    destruct (get_prop "hooks" ps0) as [given|] eqn:Eh; [|now apply Hfresh].
    assert (Hgiven : pending_hooks p = given ->
                     valid h' (pending_hooks p) = true /\
                     valid h' (member h' (pending_hooks p) "afterResponse") = true).
    { intros ->.
      assert (Hvg : valid h given = true).
      { eapply wf_children; eauto. simpl. eapply get_prop_In, Eh. }
      split; [now apply (valid_preserved h)|].
      rewrite (member_preserved h h' _ _ Hvg Hp).
      apply (valid_preserved h); [|exact Hp]. now apply DeepmergeResult.member_valid. }
    destruct given; auto. }
  destruct Hvalid as [Hv Hva].
  assert (Hstable : forall h'', preserved h' h'' -> request w h'' p = request w h' p).
  { intros h'' Hp''. now apply request_preserved. }
  split; [exact Hstable|].
  intros fuel calls h'' Hs. apply Hstable.
  eapply session_preserved, Hs.
Qed.

Lemma pending_call_is_settled_alike_witness :
  exists p h',
    internalFetch Sample.throwing "http://site.com/products" (VRef 1) GET
      Sample.hook_store = Ret p h' /\
    forall h'', preserved h' h'' ->
                request Sample.throwing h'' p = request Sample.throwing h' p.
Proof.
  assert (H : { r : PendingCall * heap |
                internalFetch Sample.throwing "http://site.com/products" (VRef 1) GET
                  Sample.hook_store = Ret (fst r) (snd r) }).
  { eexists (_, _). vm_compute. reflexivity. }
  destruct H as [[p h'] H]. exists p, h'. split; [exact H|].
  apply (pending_call_is_settled_alike Sample.throwing "http://site.com/products" 1
           [("hooks", VRef 2)] GET Sample.hook_store p h'
           eq_refl eq_refl (NoDup_singleton _) H).
Defined.

(** X14. A sequence of calls, on any clients, with any options, each of
    which returns or throws, leaves every object of the store it started
    in as it was: default options, option bags, headers and hook lists
    read the same after the calls as before.  (A hook is a function that
    returns or throws, as in the model of hooks above.) *)
Theorem session_keeps_the_store :
  forall (w : World) (fuel : nat) (calls : list Call) (h h' : heap),
    session w fuel calls h = Some h' ->
    preserved h h' /\
    forall v, valid h v = true ->
              own_props h' v = own_props h v /\ elements h' v = elements h v /\
              forall k, member h' v k = member h v k.
Proof.
  intros w fuel calls h h' Hs.
  assert (Hp : preserved h h') by (eapply session_preserved, Hs).
  split; [exact Hp|]. intros v Hv. split; [|split].
  - now apply own_props_preserved.
  - now apply elements_preserved.
  - intros k. now apply member_preserved.
Qed.

Lemma session_keeps_the_store_witness :
  exists h',
    session Sample.quiet 6
      [{| call_client := [("get", Sample.shortcut 0 GET)]; call_name := "get";
          call_url := "products"; call_options := VRef 4 |};
       {| call_client := [("post", Sample.shortcut 4 POST)]; call_name := "post";
          call_url := "/products"; call_options := VRef 0 |};
       {| call_client := [("get", Sample.shortcut 0 GET)]; call_name := "head";
          call_url := "/products"; call_options := VUndefined |}]
      Sample.client_store = Some h' /\
    preserved Sample.client_store h'.
Proof.
  assert (H : { h' : heap |
                session Sample.quiet 6
                  [{| call_client := [("get", Sample.shortcut 0 GET)]; call_name := "get";
                      call_url := "products"; call_options := VRef 4 |};
                   {| call_client := [("post", Sample.shortcut 4 POST)];
                      call_name := "post";
                      call_url := "/products"; call_options := VRef 0 |};
                   {| call_client := [("get", Sample.shortcut 0 GET)];
                      call_name := "head";
                      call_url := "/products"; call_options := VUndefined |}]
                  Sample.client_store = Some h' }).
  { eexists. vm_compute. reflexivity. }
  destruct H as [h' Hs]. exists h'. split; [exact Hs|].
  exact (proj1 (session_keeps_the_store Sample.quiet 6 _ Sample.client_store h' Hs)).
Defined.

(** ** Cancelling a call *)

(** The controller and the signal of a pending call, in the store the
    call left. *)
Lemma internalFetch_controller (w : World) (url : string) (oo : addr) (ps0 : props)
  (m : HTTPMethod) (h : heap) (p : PendingCall) (h' : heap) :
  h !! oo = Some (OPlain ps0) ->
  NoDup (map fst ps0) ->
  internalFetch w url (VRef oo) m h = Ret p h' ->
  exists signal,
    get_prop "signal" (request_init (pending_request p)) = Some (VRef signal) /\
    h !! signal = None /\
    h' !! signal = Some (OHost "AbortSignal" []) /\
    h' !! cancelRequest p = Some (OHost "AbortController" [("signal", VRef signal)]).
Proof.
  intros Hoo Hnd Hret.
  destruct (internalFetch_returned w url oo ps0 m h p h' Hoo Hnd Hret)
    as (u & signal & ini & bag & h4 & Hu & Hprep & Hred & Hreq & _).
  destruct Hprep as (Hp4 & Hfs & Hfc & Hfi & Hsig4 & Hctl4 & Hinit & Hsig & _).
  destruct (optionsReducer_effect _ _ _ _ _ _ Hinit Hred) as (_ & Hb5 & bag' & Hbag' & Hsame).
  assert (Hne : forall a obj, h4 !! a = Some obj -> (forall ps, obj <> OPlain ps) -> a <> ini).
  { intros a obj Ha Hobj ->. rewrite Hinit in Ha. injection Ha as <-. now apply (Hobj bag). }
  exists signal. split; [|split; [exact Hfs|split]].
  - rewrite Hreq. cbn [request_init own_props]. rewrite Hbag'.
    rewrite Hsame by discriminate. exact Hsig.
  - apply Hb5; [|exact Hsig4]. eapply Hne; [exact Hsig4 | discriminate].
  - apply Hb5; [|exact Hctl4]. eapply Hne; [exact Hctl4 | discriminate].
Qed.

Lemma abort_signal (g : heap) (ctl signal : addr) (class : string) (slots : props) :
  g !! ctl = Some (OHost "AbortController" [("signal", VRef signal)]) ->
  g !! signal = Some (OHost class slots) ->
  ctl <> signal ->
  let g' := <[signal := OHost class (set_prop "aborted" (VBool true) slots)]> g in
  abort ctl g = Ret tt g' /\ aborted g' (VRef signal) = true /\
  preserved_but signal g g' /\ abort ctl g' = Ret tt g'.
Proof.
  intros Hctl Hsig Hne g'.
  assert (Hlt : signal < length g) by (eapply lookup_lt_Some, Hsig).
  assert (Hs' : g' !! signal = Some (OHost class (set_prop "aborted" (VBool true) slots))).
  { unfold g'. now apply list_lookup_insert_eq. }
  assert (Hc' : g' !! ctl = Some (OHost "AbortController" [("signal", VRef signal)])).
  { unfold g'. now rewrite list_lookup_insert_ne by auto. }
  split; [|split; [|split]].
  - unfold abort, slot. rewrite Hctl. cbn [get_prop String.eqb Ascii.eqb Bool.eqb].
    now rewrite Hsig.
  - unfold aborted, slot. rewrite Hs'. now rewrite get_set_eq.
  - intros a o Ha Hlook. unfold g'. now rewrite list_lookup_insert_ne by auto.
  - unfold abort, slot. rewrite Hc'. cbn [get_prop String.eqb Ascii.eqb Bool.eqb].
    rewrite Hs'. f_equal.
    assert (E : forall k v, set_prop k v (set_prop k v slots) = set_prop k v slots).
    { clear. intros k v. induction slots as [|[k' v'] slots IH]; simpl.
      - now rewrite String.eqb_refl.
      - destruct (String.eqb k k') eqn:E; simpl; rewrite ?String.eqb_refl, ?E, ?IH; auto. }
    rewrite E. apply list_insert_id. exact Hs'.
Qed.

(** X19. Cancelling a call aborts the signal of that call and nothing
    else.  The signal a call's request carries is not aborted when the
    call returns.  In every later store, the call's [cancelRequest] aborts
    that signal and leaves every other object as it is; cancelling again
    changes nothing.  A call made afterwards has a signal of its own, which
    cancelling the first call leaves as it is, not aborted. *)
Theorem cancel_aborts_own_signal_only :
  forall (w : World) (url : string) (oo : addr) (ps0 : props) (m : HTTPMethod)
         (h : heap) (p : PendingCall) (h' : heap),
    h !! oo = Some (OPlain ps0) ->
    NoDup (map fst ps0) ->
    internalFetch w url (VRef oo) m h = Ret p h' ->
    exists signal,
      get_prop "signal" (request_init (pending_request p)) = Some (VRef signal) /\
      aborted h' (VRef signal) = false /\
      forall g, preserved h' g ->
        exists g',
          call_cancelRequest p g = Ret tt g' /\
          aborted g' (VRef signal) = true /\
          preserved_but signal g g' /\
          call_cancelRequest p g' = Ret tt g' /\
          forall w2 url2 oo2 ps2 m2 p2,
            h' !! oo2 = Some (OPlain ps2) ->
            NoDup (map fst ps2) ->
            internalFetch w2 url2 (VRef oo2) m2 h' = Ret p2 g ->
            exists signal2,
              get_prop "signal" (request_init (pending_request p2)) = Some (VRef signal2) /\
              signal2 <> signal /\
              aborted g' (VRef signal2) = false.
Proof.
  intros w url oo ps0 m h p h' Hoo Hnd Hret.
  destruct (internalFetch_controller w url oo ps0 m h p h' Hoo Hnd Hret)
    as (signal & Hsig & Hfresh & Hs & Hc).
  exists signal. split; [exact Hsig|]. split.
  { unfold aborted, slot. now rewrite Hs. }
  intros g Hp.
  assert (Hcs : cancelRequest p <> signal) by (intros E; rewrite E in Hc; congruence).
  destruct (abort_signal g (cancelRequest p) signal "AbortSignal" [] (Hp _ _ Hc) (Hp _ _ Hs) Hcs)
    as (Hab & Habd & Hbut & Hagain).
  cbv zeta in Hab, Habd, Hbut, Hagain.
  eexists. split; [exact Hab|]. split; [exact Habd|]. split; [exact Hbut|].
  split; [exact Hagain|].
  intros w2 url2 oo2 ps2 m2 p2 Hoo2 Hnd2 Hret2.
  destruct (internalFetch_controller w2 url2 oo2 ps2 m2 h' p2 g Hoo2 Hnd2 Hret2)
    as (signal2 & Hsig2 & Hfresh2 & Hs2 & Hc2).
  exists signal2. split; [exact Hsig2|].
  assert (Hne : signal2 <> signal) by (intros ->; congruence).
  split; [exact Hne|].
  unfold aborted, slot. now rewrite (Hbut _ _ Hne Hs2).
Qed.

Lemma cancel_aborts_own_signal_only_witness :
  exists p h' signal,
    internalFetch Sample.quiet "http://site.com/products" (VRef 0) GET
      Scenario.signal_store = Ret p h' /\
    get_prop "signal" (request_init (pending_request p)) = Some (VRef signal) /\
    aborted h' (VRef signal) = false /\
    exists g',
      call_cancelRequest p h' = Ret tt g' /\ aborted g' (VRef signal) = true.
Proof.
  assert (H : { r : PendingCall * heap |
                internalFetch Sample.quiet "http://site.com/products" (VRef 0) GET
                  Scenario.signal_store = Ret (fst r) (snd r) }).
  { eexists (_, _). vm_compute. reflexivity. }
  destruct H as [[p h'] H].
  assert (Hnd : NoDup (map fst [("signal", VString "mine"); ("type", VString "text");
                                ("credentials", VString "include")])).
  { apply NoDup_ListNoDup. repeat constructor; simpl; intros Hin;
      repeat destruct Hin as [Hin|Hin]; try discriminate Hin; exact Hin. }
  destruct (cancel_aborts_own_signal_only Sample.quiet "http://site.com/products" 0 _ GET
              Scenario.signal_store p h' eq_refl Hnd H)
    as (signal & Hsig & Hnot & Hcancel).
  destruct (Hcancel h' (preserved_refl h')) as (g' & Hab & Habd & _).
  exists p, h', signal. split; [exact H|]. split; [exact Hsig|]. split; [exact Hnot|].
  exists g'. auto.
Defined.

(** ** Calls through a shortcut *)

Section HostBody.

Import Deepmerge DeepmergeFacts DeepmergeResult.

Lemma host_mergeable (h : heap) (b : addr) (class : string) (slots : props) :
  h !! b = Some (OHost class slots) -> class <> "RegExp" -> class <> "Date" ->
  isMergeableObject h (VRef b) = true.
Proof.
  intros Hb H1 H2. unfold isMergeableObject, isSpecial. rewrite Hb.
  rewrite (proj2 (String.eqb_neq class "RegExp") H1).
  now rewrite (proj2 (String.eqb_neq class "Date") H2).
Qed.

(** The clone of a host object without own enumerable properties is a
    new empty object. *)
Lemma clone_host (fuel : nat) (b : addr) (class : string) (slots : props)
  (ha : heap) (v : value) (hb : heap) :
  ha !! b = Some (OHost class slots) -> class <> "RegExp" -> class <> "Date" ->
  cloneUnlessOtherwiseSpecified (deepmerge fuel) (VRef b) ha = Ret v hb ->
  v = VRef (S (length ha)) /\ hb = (ha ++ [OPlain []]) ++ [OPlain []].
Proof.
  intros Hb H1 H2 H. unfold cloneUnlessOtherwiseSpecified in H.
  rewrite (bind_eq get_heap _ ha ha ha eq_refl) in H.
  rewrite (host_mergeable ha b class slots Hb H1 H2) in H.
  assert (Hlt : b < length ha) by (eapply lookup_lt_Some, Hb).
  assert (Harr : isArray ha (VRef b) = false) by (simpl; now rewrite Hb).
  unfold emptyTarget in H.
  rewrite (bind_eq _ _ ha (VRef (length ha)) (ha ++ [OPlain []])) in H.
  2:{ rewrite (bind_eq get_heap _ ha ha ha eq_refl). rewrite Harr. reflexivity. }
  destruct fuel as [|f]; [discriminate H|].
  set (h1 := ha ++ [OPlain []]) in *.
  assert (Hb1 : h1 !! b = Some (OHost class slots)) by now apply preserved_alloc.
  assert (Ht1 : h1 !! length ha = Some (OPlain [])).
  { unfold h1. rewrite lookup_app_r by lia. now rewrite Nat.sub_diag. }
  rewrite deepmerge_objects in H by (simpl; now rewrite ?Hb1, ?Ht1).
  unfold mergeObject in H.
  rewrite (bind_eq (alloc (OPlain [])) _ h1 (length h1) (h1 ++ [OPlain []]) eq_refl) in H.
  rewrite (bind_eq get_heap _ _ _ _ eq_refl) in H.
  set (h2 := h1 ++ [OPlain []]) in *.
  assert (Hb2 : h2 !! b = Some (OHost class slots)) by now apply preserved_alloc.
  assert (Ht2 : h2 !! length ha = Some (OPlain [])) by now apply preserved_alloc.
  rewrite (plain_mergeable h2 _ _ Ht2) in H.
  unfold getKeys in H at 1.
  rewrite (bind_eq _ _ h2 tt h2) in H.
  2:{ rewrite (bind_eq _ _ h2 [] h2); [reflexivity|].
      rewrite (bind_eq get_heap _ h2 h2 h2 eq_refl). simpl. now rewrite Ht2. }
  unfold getKeys in H.
  rewrite (bind_eq _ _ h2 [] h2) in H.
  2:{ rewrite (bind_eq get_heap _ h2 h2 h2 eq_refl). simpl. now rewrite Hb2. }
  cbn [mergeSourceKeys] in H.
  rewrite (bind_eq _ _ h2 tt h2 eq_refl) in H.
  injection H as <- <-. split; [|reflexivity].
  unfold h1. rewrite length_app. simpl. f_equal. lia.
Qed.

Lemma call_shortcut_returned (w : World) (fuel : nat) (d : value) (m : HTTPMethod)
  (url : string) (opt : addr) (h : heap) (p : PendingCall) (h' : heap) :
  call_shortcut w fuel {| bound_defaultOptions := d; bound_httpMethod := m |}
    url (VRef opt) h = Ret p h' ->
  exists mv hm,
    deepmerge fuel d (VRef opt) h = Ret mv hm /\
    internalFetch w url (VRef (length hm)) m
      (hm ++ [OPlain (spread [("method", VString (HTTPMethod_value m))]
                        (own_props hm mv))]) = Ret p h'.
Proof.
  intros H. unfold call_shortcut in H. cbn [bound_defaultOptions bound_httpMethod] in H.
  apply bind_Ret in H as (o1 & h1 & [= <- <-] & H).
  apply bind_Ret in H as (mv & hm & Hmerge & H).
  apply bind_Ret in H as (hx & hy & [= <- <-] & H).
  apply bind_Ret in H as (wm & h2 & [= <- <-] & H).
  eauto.
Qed.

Lemma stringify_empty_object (h : heap) (c : addr) :
  h !! c = Some (OPlain []) -> Json.stringify (VRef c) h = Ret (VString "{}") h.
Proof. intros Hc. unfold Json.stringify. cbn [Json.serialize existsb]. now rewrite Hc. Qed.

Lemma not_prototype_member (k : string) :
  existsb (String.eqb k) Object_prototype_members = false ->
  ~ In k Object_prototype_members.
Proof.
  intros E Hin. assert (existsb (String.eqb k) Object_prototype_members = true).
  { apply existsb_exists. exists k. split; [exact Hin | apply String.eqb_refl]. }
  congruence.
Qed.

(** X15. A body that is a host object without own enumerable properties
    and of a class other than [RegExp] and [Date] (a [FormData], a [Blob])
    does not reach the request: the merge of the options clones it into an
    empty object, so for POST, PUT and PATCH the request is built with the
    body text [{}], and with the JSON content type when neither the
    defaults nor the call give headers. *)
Theorem host_object_body_is_emptied :
  forall (w : World) (n fuel : nat) (dflt opt b : addr) (psd pso : props)
         (class : string) (slots : props) (m : HTTPMethod) (url : string) (h : heap),
    wf_heap h = true ->
    h !! dflt = Some (OPlain psd) -> h !! opt = Some (OPlain pso) ->
    bounded n h (VRef dflt) = true -> bounded n h (VRef opt) = true ->
    2 * n <= fuel ->
    get_prop "body" psd = None ->
    get_prop "body" pso = Some (VRef b) ->
    h !! b = Some (OHost class slots) -> class <> "RegExp" -> class <> "Date" ->
    sends_body m = true ->
    let s := {| bound_defaultOptions := VRef dflt; bound_httpMethod := m |} in
    call_shortcut w fuel s url (VRef opt) h <> NoFuel /\
    forall p h',
      call_shortcut w fuel s url (VRef opt) h = Ret p h' ->
      get_prop "body" (request_init (pending_request p)) = Some (VString "{}") /\
      (get_prop "headers" psd = None -> get_prop "headers" pso = None ->
       exists headers,
         get_prop "headers" (request_init (pending_request p)) = Some (VRef headers) /\
         h' !! headers
         = Some (OPlain [("Content-Type", VString "application/json;charset=utf-8")])).
Proof.
  intros w n fuel dflt opt b psd pso class slots m url h
    Hwf Hd Ho Hbd Hbo Hfuel Hnobody Hbody Hb Hc1 Hc2 Hm s.
  split.
  { apply call_shortcut_fueled. cbn [s bound_defaultOptions].
    now apply (DeepmergeTermination.deepmerge_finishes n). }
  intros p h' Hcall.
  apply call_shortcut_returned in Hcall as (mv & hm & Hmerge & Hfetch).
  (* the merged bag *)
  destruct fuel as [|f]; [discriminate Hmerge|].
  rewrite deepmerge_objects in Hmerge by (simpl; now rewrite ?Hd, ?Ho).
  assert (Hvd : valid h (VRef dflt) = true) by now apply (bounded_valid n).
  assert (Hvo : valid h (VRef opt) = true) by now apply (bounded_valid n).
  destruct (mergeObject_result (deepmerge f) (deepmerge_frames f) _ _ _ _ _
              (fun k => member_valid h _ k Hwf Hvo) Hvd Hvo Hmerge)
    as (-> & psm & Hpsm & Hndm & Hkeys).
  assert (Eot : own_props h (VRef dflt) = psd) by (simpl; now rewrite Hd).
  assert (Eos : own_props h (VRef opt) = pso) by (simpl; now rewrite Ho).
  rewrite Eot, Eos in Hkeys.
  assert (Hsafe : propertyIsUnsafe h (VRef dflt) "body" = false).
  { apply plain_name_safe. apply not_prototype_member. reflexivity. }
  destruct (proj1 (Hkeys "body") (get_prop_Some_elem _ _ _ Hbody) Hsafe)
    as (v & Hv & Hassigned).
  unfold assigned in Hassigned.
  assert (Hnot : propertyIsOnObject h (VRef dflt) "body" = false).
  { unfold propertyIsOnObject, hasOwnEnumerable. rewrite Eot, Hnobody. reflexivity. }
  rewrite Hnot in Hassigned. cbn [andb] in Hassigned.
  rewrite (member_plain h opt pso "body" Ho), Hbody in Hassigned.
  destruct Hassigned as (ha & hb & Hpa & Hlt & Hrun & Hpb).
  destruct (clone_host f b class slots ha v hb (Hpa _ _ Hb) Hc1 Hc2 Hrun) as [-> ->].
  set (c := S (length ha)) in *.
  assert (Hc : hm !! c = Some (OPlain [])).
  { apply Hpb; [unfold c; lia|]. unfold c.
    rewrite lookup_app_r by (rewrite length_app; simpl; lia).
    rewrite length_app. simpl. now replace (S (length ha) - (length ha + 1)) with 0 by lia. }
  (* the call *)
  simpl own_props in Hfetch. rewrite Hpsm in Hfetch.
  set (bagm := spread [("method", VString (HTTPMethod_value m))] psm) in *.
  assert (Hbag : (hm ++ [OPlain bagm]) !! length hm = Some (OPlain bagm)).
  { rewrite lookup_app_r by lia. now rewrite Nat.sub_diag. }
  assert (Hndb : NoDup (map fst bagm)).
  { unfold bagm. apply spread_keys. apply NoDup_singleton. }
  destruct (internalFetch_returned w url _ bagm m _ p h' Hbag Hndb Hfetch)
    as (u & signal & ini & bag & h4 & Hu & Hprep & Hred & Hreq & _).
  destruct Hprep as (Hp4 & _ & _ & Hfi & _ & _ & Hinit & _ & _ & Hkeep & _).
  assert (Hget : forall k, ~ In k ["type"; "urlPrefix"; "hooks"; "signal"] ->
                           k <> "method" -> get_prop k bag = get_prop k psm).
  { intros k Hk Hkm. rewrite (Hkeep k Hk). unfold bagm.
    rewrite (get_spread _ psm k Hndm). destruct (get_prop k psm); [reflexivity|].
    cbn [get_prop]. now rewrite (proj2 (String.eqb_neq k "method") Hkm). }
  assert (Hbody4 : member h4 (VRef ini) "body" = VRef c).
  { rewrite (member_plain h4 ini bag "body" Hinit), Hget, Hv; [reflexivity| |discriminate].
    simpl. intros [H|[H|[H|[H|[]]]]]; discriminate H. }
  assert (Hc4 : h4 !! c = Some (OPlain [])).
  { apply Hp4. now apply preserved_alloc. }
  assert (Hne : c <> ini).
  { intros ->. assert (Hin : (hm ++ [OPlain bagm]) !! ini = Some (OPlain []))
      by now apply preserved_alloc. congruence. }
  assert (Hcs : store_after_headers h4 ini bag !! c = Some (OPlain [])).
  { unfold store_after_headers. destruct (injects h4 ini); [|exact Hc4].
    rewrite list_lookup_insert_ne by auto. now apply preserved_alloc. }
  pose proof (optionsReducer_returns h4 ini bag m Hinit Hm (VString "{}")) as Hrun'.
  rewrite Hbody4 in Hrun'. cbn [ToBoolean] in Hrun'.
  rewrite Hrun' in Hred by (intros _; now apply stringify_empty_object).
  injection Hred as <-.
  assert (Hlen : ini < length (store_after_headers h4 ini bag)).
  { destruct (reducer_header_step h4 ini bag Hinit) as [H1 _].
    eapply lookup_lt_Some, H1. }
  rewrite Hreq. cbn [request_init own_props].
  rewrite list_lookup_insert_eq by exact Hlen.
  split; [now rewrite get_set_eq|].
  intros Hhd Hho.
  assert (Hnoh : get_prop "headers" psm = None).
  { destruct (proj2 (Hkeys "headers")) as [_ Hnone].
    - left. now apply get_prop_None.
    - apply Hnone. right. now apply get_prop_None. }
  assert (Hh4 : member h4 (VRef ini) "headers" = VUndefined).
  { rewrite (member_plain h4 ini bag "headers" Hinit), Hget, Hnoh; [reflexivity| |discriminate].
    simpl. intros [H|[H|[H|[H|[]]]]]; discriminate H. }
  assert (Hinj : injects h4 ini = true).
  { unfold injects. now rewrite Hbody4, Hh4. }
  exists (length h4). rewrite get_set_ne by discriminate.
  unfold bag_after_headers, store_after_headers. rewrite Hinj.
  split; [now rewrite get_set_eq|].
  assert (Hini : ini < length h4) by (eapply lookup_lt_Some, Hinit).
  rewrite list_lookup_insert_ne by lia.
  rewrite list_lookup_insert_ne by lia.
  rewrite lookup_app_r by lia. rewrite Nat.sub_diag.
  unfold injected_headers. now rewrite Hh4.
Qed.

Lemma host_object_body_is_emptied_witness :
  exists p h' headers,
    call_shortcut Sample.quiet 4 (Sample.shortcut 0 POST) "http://some-url.com/products"
      (VRef 1) Scenario.form_store = Ret p h' /\
    get_prop "body" (request_init (pending_request p)) = Some (VString "{}") /\
    get_prop "headers" (request_init (pending_request p)) = Some (VRef headers) /\
    h' !! headers
    = Some (OPlain [("Content-Type", VString "application/json;charset=utf-8")]).
Proof.
  assert (H : { r : PendingCall * heap |
                call_shortcut Sample.quiet 4 (Sample.shortcut 0 POST)
                  "http://some-url.com/products" (VRef 1) Scenario.form_store
                = Ret (fst r) (snd r) }).
  { eexists (_, _). vm_compute. reflexivity. }
  destruct H as [[p h'] H].
  assert (Hfuel : 2 * 2 <= 4) by (simpl; lia).
  destruct (proj2 (host_object_body_is_emptied Sample.quiet 2 4 0 1 2 []
                     [("body", VRef 2)] "FormData" [] POST
                     "http://some-url.com/products" Scenario.form_store
                     eq_refl eq_refl eq_refl eq_refl eq_refl Hfuel eq_refl eq_refl eq_refl
                     ltac:(discriminate) ltac:(discriminate) eq_refl) p h' H)
    as (Hbody & Hheaders).
  destruct (Hheaders eq_refl eq_refl) as (headers & Hh & Hobj).
  exists p, h', headers. auto.
Defined.
End HostBody.

Section PlainCall.

Import Deepmerge DeepmergeFacts DeepmergeResult.

Lemma call_shortcut_merged (w : World) (fuel : nat) (d : value) (m : HTTPMethod)
  (url : string) (opt : addr) (h : heap) (mv : value) (hm : heap) :
  deepmerge fuel d (VRef opt) h = Ret mv hm ->
  call_shortcut w fuel {| bound_defaultOptions := d; bound_httpMethod := m |}
    url (VRef opt) h
  = internalFetch w url (VRef (length hm)) m
      (hm ++ [OPlain (spread [("method", VString (HTTPMethod_value m))]
                        (own_props hm mv))]).
Proof.
  intros Hm. unfold call_shortcut. cbn [bound_defaultOptions bound_httpMethod].
  rewrite (bind_eq (ret (VRef opt)) _ h (VRef opt) h eq_refl).
  rewrite (bind_eq _ _ _ _ _ Hm).
  rewrite (bind_eq get_heap _ hm hm hm eq_refl).
  now rewrite (bind_eq _ _ _ _ _ (alloc_eq _ hm)).
Qed.

(** X16. A call whose defaults and options give no body and no hooks,
    and give [urlPrefix] as a string if at all, returns a pending call: its
    request goes to [constructURL] of the URL and the call's [urlPrefix],
    or the defaults' one when the call gives none; it has no body entry and
    no after-response hook, and the objects of the store are left as they
    were.  (The [Request] constructor is taken to accept the URL and the
    options it is given.) *)
Theorem plain_call_returns :
  forall (w : World) (n fuel : nat) (dflt opt : addr) (psd pso : props)
         (m : HTTPMethod) (url : string) (h : heap),
    wf_heap h = true ->
    h !! dflt = Some (OPlain psd) -> h !! opt = Some (OPlain pso) ->
    bounded n h (VRef dflt) = true -> bounded n h (VRef opt) = true ->
    2 * n <= fuel ->
    (forall k, In k ["body"; "hooks"] ->
               get_prop k psd = None /\ get_prop k pso = None) ->
    (forall v, get_prop "urlPrefix" psd = Some v \/ get_prop "urlPrefix" pso = Some v ->
               exists x, v = VString x) ->
    let s := {| bound_defaultOptions := VRef dflt; bound_httpMethod := m |} in
    exists p h',
      call_shortcut w fuel s url (VRef opt) h = Ret p h' /\
      request_url (pending_request p)
      = constructURL url (match given_prefix pso with
                          | Some x => Some x
                          | None => given_prefix psd
                          end) /\
      get_prop "body" (request_init (pending_request p)) = None /\
      member h' (pending_hooks p) "afterResponse" = VUndefined /\
      preserved h h'.
Proof.
  intros w n fuel dflt opt psd pso m url h Hwf Hd Ho Hbd Hbo Hfuel Habsent Hprefix s.
  destruct (DeepmergeTermination.deepmerge_finishes n fuel _ _ h Hfuel Hbd Hbo eq_refl)
    as (r & hm & Hmerge).
  destruct (MergedOptions.deepmerge_plain _ _ _ _ _ _ _ _ Hwf Hd Ho Hmerge)
    as (-> & Hpm & psm & Hpsm & Hndm & (Hcall & Hdef & Hnone) & _).
  assert (Hsafe : forall k, In k ["body"; "hooks"; "urlPrefix"] ->
                            propertyIsUnsafe h (VRef dflt) k = false).
  { intros k Hk. apply plain_name_safe. apply not_prototype_member.
    simpl in Hk. destruct Hk as [<-|[<-|[<-|[]]]]; reflexivity. }
  unfold s. rewrite (call_shortcut_merged w fuel _ m url opt h _ hm Hmerge).
  simpl own_props. rewrite Hpsm.
  set (bagm := spread [("method", VString (HTTPMethod_value m))] psm).
  set (hm' := hm ++ [OPlain bagm]).
  assert (Hbag : hm' !! length hm = Some (OPlain bagm)).
  { unfold hm'. rewrite lookup_app_r by lia. now rewrite Nat.sub_diag. }
  assert (Hndb : NoDup (map fst bagm)).
  { unfold bagm. apply spread_keys. apply NoDup_singleton. }
  assert (Hget : forall k, k <> "method" -> get_prop k bagm = get_prop k psm).
  { intros k Hkm. unfold bagm.
    rewrite (get_spread _ psm k Hndm). destruct (get_prop k psm); [reflexivity|].
    cbn [get_prop]. now rewrite (proj2 (String.eqb_neq k "method") Hkm). }
  assert (Hnb : get_prop "body" psm = None).
  { apply Hnone; apply Habsent; simpl; auto. }
  assert (Hnh : get_prop "hooks" psm = None).
  { apply Hnone; apply Habsent; simpl; auto. }
  assert (Hpre : constructURL_of url
                   (match get_prop "urlPrefix" psm with Some x => x | None => VUndefined end)
                 = ret (constructURL url (match given_prefix pso with
                                          | Some x => Some x
                                          | None => given_prefix psd
                                          end))).
  { unfold given_prefix.
    destruct (get_prop "urlPrefix" pso) as [vo|] eqn:Eo.
    - destruct (Hprefix vo (or_intror eq_refl)) as [x ->].
      rewrite (Hcall "urlPrefix" (VString x) Eo eq_refl); [reflexivity|].
      apply Hsafe. simpl. auto.
    - destruct (get_prop "urlPrefix" psd) as [vd|] eqn:Ed.
      + destruct (Hprefix vd (or_introl eq_refl)) as [x ->].
        now rewrite (Hdef "urlPrefix" (VString x) Eo Ed eq_refl).
      + now rewrite (Hnone "urlPrefix" Eo Ed). }
  set (u := constructURL url _) in *.
  assert (Hu : forall g, constructURL_of url (member hm' (VRef (length hm)) "urlPrefix") g
                         = Ret u g).
  { intros g. rewrite (member_plain hm' _ bagm "urlPrefix" Hbag).
    rewrite Hget by discriminate. now rewrite Hpre. }
  assert (Hbody : ToBoolean (member hm' (VRef (length hm)) "body") = false).
  { rewrite (member_plain hm' _ bagm "body" Hbag).
    rewrite Hget by discriminate. now rewrite Hnb. }
  destruct (internalFetch_dispatched w url (length hm) bagm m hm' u Hbag Hndb Hu
              (or_intror (or_introl Hbody)))
    as (hooks & signal & ctl & init & bag & h4 & h5 & Hprep & Hred & Hp5 & Heq).
  cbv zeta in Heq.
  destruct Hprep as (_ & _ & _ & _ & _ & _ & Hinit & Hsig & _ & Hkeep & _ & Hh).
  rewrite Hget, Hnh in Hh by discriminate.
  destruct Hh as (a & -> & _ & Ha4).
  assert (Hbody4 : ToBoolean (member h4 (VRef init) "body") = false).
  { rewrite (member_plain h4 init bag "body" Hinit), Hkeep, Hget, Hnb;
      [reflexivity | discriminate|].
    simpl. intros [H|[H|[H|[H|[]]]]]; discriminate H. }
  rewrite (optionsReducer_falsy_body h4 init m Hbody4) in Hred. injection Hred as <-.
  rewrite (member_plain h4 a [] "beforeRequest" Ha4) in Heq.
  cbn [get_prop ToBoolean] in Heq.
  eexists _, h4. split; [exact Heq|]. cbn [pending_request request_url request_init
                                            pending_hooks].
  split; [reflexivity|]. split; [|split].
  - simpl own_props. rewrite Hinit, Hkeep, Hget, Hnb; [reflexivity | discriminate|].
    simpl. intros [H|[H|[H|[H|[]]]]]; discriminate H.
  - now rewrite (member_plain h4 a [] "afterResponse" Ha4).
  - eapply preserved_trans; [exact Hpm|].
    eapply preserved_trans; [apply preserved_alloc | exact Hp5].
Qed.

Lemma plain_call_returns_witness :
  exists p h',
    call_shortcut Sample.quiet 2 (Sample.shortcut 0 GET) "products" (VRef 1)
      Sample.prefix_store = Ret p h' /\
    request_url (pending_request p) = "http://site.com/products" /\
    get_prop "body" (request_init (pending_request p)) = None /\
    member h' (pending_hooks p) "afterResponse" = VUndefined /\
    preserved Sample.prefix_store h'.
Proof.
  apply (plain_call_returns Sample.quiet 1 2 0 1
           [("urlPrefix", VString "http://site.com")] [] GET "products"
           Sample.prefix_store eq_refl eq_refl eq_refl eq_refl eq_refl (Nat.le_refl 2)).
  - intros k Hk. simpl in Hk. destruct Hk as [<-|[<-|[]]]; split; reflexivity.
  - intros v [H|H]; [|discriminate H]. injection H as <-. eauto.
Defined.
End PlainCall.

Section NullOptions.

Import Deepmerge DeepmergeFacts DeepmergeResult.

Lemma bind_Exn_l {A B} (m : M A) (f : A -> M B) (h : heap) (e : exception) (h1 : heap) :
  m h = Exn e h1 -> bind m f h = Exn e h1.
Proof. unfold bind. now intros ->. Qed.

(** The merge of a plain object with [null]: the keys of the target are
    copied, then [Object.keys(null)] throws. *)
Lemma deepmerge_null (n fuel : nat) (dflt : addr) (psd : props) (h : heap) :
  h !! dflt = Some (OPlain psd) -> bounded n h (VRef dflt) = true -> 2 * n <= fuel ->
  exists h2,
    deepmerge fuel (VRef dflt) VNull h
    = Exn (TypeError "Cannot convert undefined or null to object") h2.
Proof.
  intros Hd Hb Hfuel.
  destruct n as [|n0]; [discriminate Hb|].
  destruct fuel as [|f]; [lia|].
  rewrite deepmerge_objects by (simpl; now rewrite ?Hd).
  unfold mergeObject.
  rewrite (bind_eq (alloc (OPlain [])) _ h (length h) (h ++ [OPlain []]) eq_refl).
  rewrite (bind_eq get_heap _ _ _ _ eq_refl).
  assert (Hd1 : (h ++ [OPlain []]) !! dflt = Some (OPlain psd)) by now apply preserved_alloc.
  rewrite (plain_mergeable _ _ _ Hd1).
  assert (Hfin : forall t s g, bounded n0 g t = true -> bounded n0 g s = true ->
                               isObject s = true -> finishes (deepmerge f t s) g).
  { intros t s g Ht Hs Ho. apply (DeepmergeTermination.deepmerge_finishes n0); auto. lia. }
  destruct (DeepmergeTermination.copyTargetKeys_finishes (deepmerge f) n0
              (deepmerge_frames f) Hfin h (length h) (VRef dflt)
              (lookup_ge_None_2 h (length h) (Nat.le_refl _)) Hb
              (map fst (own_props (h ++ [OPlain []]) (VRef dflt)))
              (h ++ [OPlain []]) (preserved_alloc _ _)) as (u & h2 & Hc).
  exists h2.
  rewrite (bind_eq _ _ _ u h2).
  2:{ unfold getKeys.
      rewrite (bind_eq (let* h1 := get_heap in ret _) _ _ _ _ eq_refl). exact Hc. }
  reflexivity.
Qed.

(** X17. A shortcut called with [null] as its options throws a
    [TypeError] and leaves the objects of the store as they were: the
    default [options = {}] covers [undefined] only, and the merge reads the
    keys of [null]. *)
Theorem null_options_throw :
  forall (w : World) (n fuel : nat) (dflt : addr) (psd : props) (m : HTTPMethod)
         (url : string) (h : heap),
    h !! dflt = Some (OPlain psd) ->
    bounded n h (VRef dflt) = true ->
    2 * n <= fuel ->
    let s := {| bound_defaultOptions := VRef dflt; bound_httpMethod := m |} in
    exists message h',
      call_shortcut w fuel s url VNull h = Exn (TypeError message) h' /\
      preserved h h'.
Proof.
  intros w n fuel dflt psd m url h Hd Hb Hfuel s.
  - destruct (deepmerge_null n fuel dflt psd h Hd Hb Hfuel) as [h2 Hm].
    assert (Hcall : call_shortcut w fuel s url VNull h
                    = Exn (TypeError "Cannot convert undefined or null to object") h2).
    { unfold call_shortcut. cbn [s bound_defaultOptions].
      rewrite (bind_eq (ret VNull) _ h VNull h eq_refl).
      now apply bind_Exn_l. }
    eexists _, h2. split; [exact Hcall|].
    pose proof (call_shortcut_keeps w fuel s url VNull h) as Hk.
    now rewrite Hcall in Hk.
Qed.

Lemma null_options_throw_witness :
  exists message h',
    call_shortcut Sample.quiet 2 (Sample.shortcut 0 GET) "http://some-url.com/products"
      VNull Sample.empty_store = Exn (TypeError message) h' /\
    preserved Sample.empty_store h'.
Proof.
  apply (null_options_throw Sample.quiet 1 2 0 [] GET "http://some-url.com/products"
           Sample.empty_store eq_refl eq_refl (Nat.le_refl 2)).
Defined.
End NullOptions.

Section DefaultMethod.

Import Deepmerge DeepmergeFacts DeepmergeResult.

(** X18. A [method] entry in the default options takes the place of the
    method of every shortcut: when the defaults give [method] as a string
    and the call gives none, the request is built with the defaults'
    method.  The body is still encoded as the shortcut's own method says:
    for the [get] and [delete] shortcuts the [headers] and [body] entries
    of the merged options are passed on as they are. *)
Theorem default_method_overrides :
  forall (w : World) (n fuel : nat) (dflt opt : addr) (psd pso : props)
         (m : HTTPMethod) (url given : string) (h : heap),
    wf_heap h = true ->
    h !! dflt = Some (OPlain psd) -> h !! opt = Some (OPlain pso) ->
    bounded n h (VRef dflt) = true -> bounded n h (VRef opt) = true ->
    2 * n <= fuel ->
    get_prop "method" psd = Some (VString given) ->
    get_prop "method" pso = None ->
    let s := {| bound_defaultOptions := VRef dflt; bound_httpMethod := m |} in
    call_shortcut w fuel s url (VRef opt) h <> NoFuel /\
    forall p h',
      call_shortcut w fuel s url (VRef opt) h = Ret p h' ->
      get_prop "method" (request_init (pending_request p)) = Some (VString given) /\
      (sends_body m = false ->
       exists psm,
         h' !! length h = Some (OPlain psm) /\
         get_prop "headers" (request_init (pending_request p)) = get_prop "headers" psm /\
         get_prop "body" (request_init (pending_request p)) = get_prop "body" psm).
Proof.
  intros w n fuel dflt opt psd pso m url given h Hwf Hd Ho Hbd Hbo Hfuel Hgiven Hnone s.
  split.
  { apply call_shortcut_fueled. cbn [s bound_defaultOptions].
    now apply (DeepmergeTermination.deepmerge_finishes n). }
  intros p h' Hcall.
  apply call_shortcut_returned in Hcall as (mv & hm & Hmerge & Hfetch).
  destruct (MergedOptions.deepmerge_plain _ _ _ _ _ _ _ _ Hwf Hd Ho Hmerge)
    as (-> & Hpm & psm & Hpsm & Hndm & (_ & Hdef & _) & _).
  simpl own_props in Hfetch. rewrite Hpsm in Hfetch.
  set (bagm := spread [("method", VString (HTTPMethod_value m))] psm) in *.
  assert (Hbag : (hm ++ [OPlain bagm]) !! length hm = Some (OPlain bagm)).
  { rewrite lookup_app_r by lia. now rewrite Nat.sub_diag. }
  assert (Hndb : NoDup (map fst bagm)).
  { unfold bagm. apply spread_keys. apply NoDup_singleton. }
  assert (Hget : forall k, get_prop k psm <> None -> get_prop k bagm = get_prop k psm).
  { intros k Hk. unfold bagm. rewrite (get_spread _ psm k Hndm).
    destruct (get_prop k psm); [reflexivity | contradiction]. }
  assert (Hget' : forall k, k <> "method" -> get_prop k bagm = get_prop k psm).
  { intros k Hkm. unfold bagm.
    rewrite (get_spread _ psm k Hndm). destruct (get_prop k psm); [reflexivity|].
    cbn [get_prop]. now rewrite (proj2 (String.eqb_neq k "method") Hkm). }
  destruct (internalFetch_returned w url _ bagm m _ p h' Hbag Hndb Hfetch)
    as (u & signal & ini & bag & h4 & _ & Hprep & Hred & Hreq & _).
  destruct Hprep as (Hp4 & _ & _ & Hfi & _ & _ & Hinit & _ & _ & Hkeep & _).
  destruct (optionsReducer_effect _ _ _ _ _ _ Hinit Hred) as (_ & Hb5 & bag' & Hbag' & Hsame).
  rewrite Hreq. cbn [request_init own_props]. rewrite Hbag'.
  assert (Hnot : forall k, In k ["method"; "headers"; "body"] ->
                           ~ In k ["type"; "urlPrefix"; "hooks"; "signal"]).
  { intros k Hk Hin. simpl in Hk, Hin.
    destruct Hk as [<-|[<-|[<-|[]]]];
      repeat destruct Hin as [Hin|Hin]; try discriminate Hin; exact Hin. }
  split.
  - rewrite Hsame by discriminate. rewrite Hkeep by (apply Hnot; simpl; auto).
    rewrite Hget; rewrite (Hdef "method" (VString given) Hnone Hgiven eq_refl);
      [reflexivity | discriminate].
  - intros Hm. rewrite (optionsReducer_no_body_method h4 ini m Hm) in Hred.
    injection Hred as <-. rewrite Hinit in Hbag'. injection Hbag' as <-.
    exists psm. split; [|split].
    + apply Hp4. apply preserved_alloc. exact Hpsm.
    + rewrite Hkeep by (apply Hnot; simpl; auto). now apply Hget'.
    + rewrite Hkeep by (apply Hnot; simpl; auto). now apply Hget'.
Qed.

Lemma default_method_overrides_witness :
  exists p h',
    call_shortcut Sample.quiet 2 (Sample.shortcut 1 GET) "http://some-url.com/products"
      (VRef 0) Sample.method_store = Ret p h' /\
    get_prop "method" (request_init (pending_request p)) = Some (VString "post").
Proof.
  assert (H : { r : PendingCall * heap |
                call_shortcut Sample.quiet 2 (Sample.shortcut 1 GET)
                  "http://some-url.com/products" (VRef 0) Sample.method_store
                = Ret (fst r) (snd r) }).
  { eexists (_, _). vm_compute. reflexivity. }
  destruct H as [[p h'] H]. exists p, h'. split; [exact H|].
  exact (proj1 (proj2 (default_method_overrides Sample.quiet 1 2 1 0
                         [("method", VString "post")] [] GET
                         "http://some-url.com/products" "post" Sample.method_store
                         eq_refl eq_refl eq_refl eq_refl eq_refl (Nat.le_refl 2)
                         eq_refl eq_refl) p h' H)).
Defined.
End DefaultMethod.
